(** * Leaflet map plugin: build-time transformer and client map controller

    A shallow embedding of [quartz/plugins/transformers/leafletMapPlugin.ts]:
    the schema validators, the marker registry filled by [buildMarkerData],
    the map block parser [parseMapFromNode], the document transform
    [buildMapData] / [transformMapElement], and the inline client script
    ([isMapDataSet], [parseCoordinates], [MeasureControl]).

    JavaScript numbers are IEEE 754 binary64 values, taken from the
    specification of floats of the Standard Library ([spec_float] at
    precision 53, maximal exponent 1024).  JavaScript objects used as
    dictionaries are finite maps from strings, which hold their own
    properties; the registry of markers is read through [Object.prototype]
    as well.  A string is the sequence of bytes of its text in UTF-8, so a
    white space character of JavaScript is one, two or three bytes long.  A
    function that can throw returns in [Exc].  The YAML loader and the two
    path helpers of Quartz are parameters of the plugin; the data set of a
    rendered element is read back from its [data-*] properties.

    The definitions come first, in the order of the source; the lemmas
    follow, then the properties of the specification, C1 to C10, and
    further properties of the code, X1 to X30: the shapes the validators
    and the two parsers accept, the buckets of the registry, the outcomes
    of the transform, what the client accepts of what the build renders,
    and the control bar of the client. *)

From Stdlib Require Import ZArith NArith Ascii String List Bool Lia DecimalString.
From Stdlib Require Import SpecFloat.
From stdpp Require Import gmap strings list fin_maps.

Set Warnings "-register-all".

Local Open Scope Z_scope.

(** ** Characters and strings *)

Definition chars (s : string) : list ascii := list_ascii_of_string s.
Definition str (l : list ascii) : string := string_of_list_ascii l.

Definition char_in (lo hi : ascii) (c : ascii) : bool :=
  (N.leb (N_of_ascii lo) (N_of_ascii c)) && (N.leb (N_of_ascii c) (N_of_ascii hi)).

Definition is_digit (c : ascii) : bool := char_in "0" "9" c.
Definition is_lower (c : ascii) : bool := char_in "a" "z" c.
Definition is_upper (c : ascii) : bool := char_in "A" "Z" c.

Definition is_byte (n : N) (c : ascii) : bool := N.eqb (N_of_ascii c) n.

(** The white space of JavaScript: the characters [\s] matches, which are
    also those [parseInt] and [parseFloat] skip.  Six of them are ASCII
    characters: tab, line feed, vertical tab, form feed, carriage return
    and space. *)
Definition is_space (c : ascii) : bool :=
  let n := N_of_ascii c in (N.leb 9 n && N.leb n 13) || N.eqb n 32.

(** U+00A0, the no-break space, is two bytes long in UTF-8. *)
Definition is_space2 (a b : ascii) : bool := is_byte 194 a && is_byte 160 b.

(** The white space characters of three bytes: U+1680; U+2000 to U+200A,
    U+2028, U+2029 and U+202F; U+205F; U+3000; U+FEFF. *)
Definition is_space3 (a b c : ascii) : bool :=
  (is_byte 225 a && is_byte 154 b && is_byte 128 c)
  || (is_byte 226 a && is_byte 128 b
      && (char_in (ascii_of_N 128) (ascii_of_N 138) c
          || is_byte 168 c || is_byte 169 c || is_byte 175 c))
  || (is_byte 226 a && is_byte 129 b && is_byte 159 c)
  || (is_byte 227 a && is_byte 128 b && is_byte 128 c)
  || (is_byte 239 a && is_byte 187 b && is_byte 191 c).

(** What follows the white space character [l] starts with, if it starts
    with one. *)
Definition after_space (l : list ascii) : option (list ascii) :=
  match l with
  | a :: r1 =>
      if is_space a then Some r1
      else match r1 with
           | b :: r2 =>
               if is_space2 a b then Some r2
               else match r2 with
                    | c :: r3 => if is_space3 a b c then Some r3 else None
                    | [] => None
                    end
           | [] => None
           end
  | [] => None
  end.

(** [l] without the white space it starts with. *)
Fixpoint trim_start (l : list ascii) : list ascii :=
  match l with
  | a :: r1 =>
      if is_space a then trim_start r1
      else match r1 with
           | b :: r2 =>
               if is_space2 a b then trim_start r2
               else match r2 with
                    | c :: r3 => if is_space3 a b c then trim_start r3 else l
                    | [] => l
                    end
           | [] => l
           end
  | [] => []
  end.

(** [s.replace(/\s/g, "")]: [l] without its white space. *)
Fixpoint remove_spaces (l : list ascii) : list ascii :=
  match l with
  | a :: r1 =>
      if is_space a then remove_spaces r1
      else match r1 with
           | b :: r2 =>
               if is_space2 a b then remove_spaces r2
               else match r2 with
                    | c :: r3 =>
                        if is_space3 a b c then remove_spaces r3
                        else a :: remove_spaces r1
                    | [] => a :: remove_spaces r1
                    end
           | [] => a :: remove_spaces r1
           end
  | [] => []
  end.

Definition digit_val (c : ascii) : N := (N_of_ascii c - 48)%N.

(** Value of a hexadecimal digit, if [c] is one. *)
Definition hex_val (c : ascii) : option N :=
  if is_digit c then Some (digit_val c)
  else if char_in "a" "f" c then Some (N_of_ascii c - 87)%N
  else if char_in "A" "F" c then Some (N_of_ascii c - 55)%N
  else None.

(** [span p l] splits [l] after its longest prefix satisfying [p]. *)
Fixpoint span {A} (p : A -> bool) (l : list A) : list A * list A :=
  match l with
  | [] => ([], [])
  | x :: r => if p x then let '(a, b) := span p r in (x :: a, b) else ([], l)
  end.

Fixpoint is_prefix (p l : list ascii) : bool :=
  match p, l with
  | [], _ => true
  | _ :: _, [] => false
  | a :: p', b :: l' => Ascii.eqb a b && is_prefix p' l'
  end.

Definition decimal_of (ds : list ascii) : N :=
  fold_left (fun acc c => (acc * 10 + digit_val c)%N) ds 0%N.

Definition digits_of (n : N) : string := NilZero.string_of_uint (N.to_uint n).

Fixpoint zeros (n : nat) : string :=
  match n with O => "" | S k => "0" +:+ zeros k end.

(** [s.split(sep)] for a one-character separator. *)
Fixpoint split_on (sep : ascii) (l : list ascii) : list (list ascii) :=
  match l with
  | [] => [[]]
  | c :: r =>
      if Ascii.eqb c sep then [] :: split_on sep r
      else match split_on sep r with
           | [] => [[c]]
           | w :: ws => (c :: w) :: ws
           end
  end.

(** [s.replace(pat, by)] with a string pattern: the first occurrence only. *)
Fixpoint replace_first (pat by_ l : list ascii) : list ascii :=
  if is_prefix pat l then by_ ++ drop (length pat) l
  else match l with
       | [] => []
       | c :: r => c :: replace_first pat by_ r
       end.

(** ** Numbers *)

Module Number.

Definition prec : Z := 53.
Definition emax : Z := 1024.

Definition number : Type := spec_float.

Definition NaN : number := S754_nan.
Definition Infinity (neg : bool) : number := S754_infinity neg.

Definition ofZ (z : Z) : number := binary_normalize prec emax z 0 false.

Definition add : number -> number -> number := SFadd prec emax.
Definition sub : number -> number -> number := SFsub prec emax.
Definition mul : number -> number -> number := SFmul prec emax.
Definition sqrt : number -> number := SFsqrt prec emax.

Definition ltb : number -> number -> bool := SFltb.
Definition leb : number -> number -> bool := SFleb.
(** [===] on two numbers: [NaN] differs from itself, the two zeros are
    equal. *)
Definition eqb : number -> number -> bool := SFeqb.

Definition isNaN (x : number) : bool :=
  match x with S754_nan => true | _ => false end.

(** [Number.isFinite] on a number. *)
Definition isFinite (x : number) : bool :=
  match x with
  | S754_zero _ | S754_finite _ _ _ => true
  | S754_infinity _ | S754_nan => false
  end.

Definition is_pos_zero (x : number) : bool :=
  match x with S754_zero false => true | _ => false end.
Definition is_neg_zero (x : number) : bool :=
  match x with S754_zero true => true | _ => false end.

(** [Math.max(a, b)]: [NaN] if either is, and [+0] counts as larger than
    [-0]. *)
Definition max (a b : number) : number :=
  if isNaN a || isNaN b then NaN
  else if ltb a b then b
  else if is_neg_zero a && is_pos_zero b then b
  else a.

(** [Math.min(a, b)]. *)
Definition min (a b : number) : number :=
  if isNaN a || isNaN b then NaN
  else if ltb b a then b
  else if is_pos_zero a && is_neg_zero b then b
  else a.

(** Truthiness of a number: every number but the zeros and [NaN]. *)
Definition truthy (x : number) : bool :=
  match x with
  | S754_zero _ | S754_nan => false
  | _ => true
  end.

(** The number nearest to [m * 10^k], signed by [neg]. *)
Definition ofDecimal (neg : bool) (m : N) (k : Z) : number :=
  match m with
  | N0 => S754_zero neg
  | Npos p =>
      match k with
      | Zneg q =>
          let '(mz, ez, lz) :=
            SFdiv_core_binary prec emax (Zpos p) 0 (Z.pow_pos 10 q) 0 in
          binary_round_aux prec emax neg mz ez lz
      | _ => binary_round prec emax neg (Z.to_pos (Zpos p * 10 ^ k)) 0
      end
  end.

(** The exponent part [e[+-]digits] of a decimal literal, and the rest;
    no exponent when no digit follows. *)
Definition exponent_part (l : list ascii) : Z * list ascii :=
  match l with
  | c :: r =>
      if Ascii.eqb c "e" || Ascii.eqb c "E" then
        let '(neg, r1) :=
          match r with
          | s :: r' =>
              if Ascii.eqb s "-" then (true, r')
              else if Ascii.eqb s "+" then (false, r') else (false, r)
          | [] => (false, r)
          end in
        let '(ds, rest) := span is_digit r1 in
        match ds with
        | [] => (0, l)
        | _ => ((if neg then - Z.of_N (decimal_of ds) else Z.of_N (decimal_of ds)), rest)
        end
      else (0, l)
  | [] => (0, l)
  end.

(** [parseFloat(s)]: skip leading white space, then read the longest
    prefix that is a decimal literal (sign, [Infinity], digits, fraction,
    exponent); [NaN] when there is none. *)
Definition parseFloat (s : string) : number :=
  let t := trim_start (chars s) in
  let '(neg, t1) :=
    match t with
    | c :: r =>
        if Ascii.eqb c "-" then (true, r)
        else if Ascii.eqb c "+" then (false, r) else (false, t)
    | [] => (false, t)
    end in
  if is_prefix (chars "Infinity") t1 then Infinity neg
  else
    let '(ip, t2) := span is_digit t1 in
    let '(fp, t3) :=
      match t2 with
      | c :: r => if Ascii.eqb c "." then span is_digit r else ([], t2)
      | [] => ([], t2)
      end in
    match ip ++ fp with
    | [] => NaN
    | ds =>
        let '(e, _) := exponent_part t3 in
        ofDecimal neg (decimal_of ds) (e - Z.of_nat (length fp))
    end.

(** [parseInt(s)] without a radix: leading white space, a sign, a [0x]
    prefix for base sixteen, then the longest run of digits; [NaN] when the
    run is empty. *)
Definition parseInt (s : string) : number :=
  let t := trim_start (chars s) in
  let '(neg, t1) :=
    match t with
    | c :: r =>
        if Ascii.eqb c "-" then (true, r)
        else if Ascii.eqb c "+" then (false, r) else (false, t)
    | [] => (false, t)
    end in
  let hex :=
    is_prefix (chars "0x") t1 || is_prefix (chars "0X") t1 in
  if hex then
    let '(ds, _) := span (fun c => bool_decide (is_Some (hex_val c))) (drop 2 t1) in
    match ds with
    | [] => NaN
    | _ =>
        ofDecimal neg
          (fold_left (fun acc c => (acc * 16 + default 0 (hex_val c))%N) ds 0%N) 0
    end
  else
    let '(ds, _) := span is_digit t1 in
    match ds with
    | [] => NaN
    | _ => ofDecimal neg (decimal_of ds) 0
    end.

(** *** Printing *)

(** [round_div a b]: the integer nearest to [a / b], the larger one on a
    tie ([a >= 0], [b > 0]). *)
Definition round_div (a b : Z) : Z := (2 * a + b) / (2 * b).

(** The magnitude of a finite number as a fraction [num / den]. *)
Definition fraction (m : positive) (e : Z) : Z * Z :=
  match e with
  | Zneg q => (Zpos m, Z.pow_pos 2 q)
  | _ => (Zpos m * 2 ^ e, 1)
  end.

(** The least [n] with [num / den < 10^n], searched from [n]. *)
Fixpoint magnitude_up (fuel : nat) (num den n : Z) : Z :=
  match fuel with
  | O => n
  | S g =>
      if n <? 0 then
        (if num * 10 ^ (- n) <? den then n else magnitude_up g num den (n + 1))
      else
        (if num <? den * 10 ^ n then n else magnitude_up g num den (n + 1))
  end.

Fixpoint magnitude_down (fuel : nat) (num den n : Z) : Z :=
  match fuel with
  | O => n
  | S g =>
      let below :=
        if n - 1 <? 0 then num * 10 ^ (1 - n) <? den
        else num <? den * 10 ^ (n - 1) in
      if below then magnitude_down g num den (n - 1) else n
  end.

(** [n] with [10^(n-1) <= num / den < 10^n]. *)
Definition magnitude (num den : Z) : Z :=
  magnitude_down 400 num den (magnitude_up 400 num den 0).

(** Distance of [s * 10^p] to [num / den], scaled by a common positive
    factor. *)
Definition decimal_error (num den s p : Z) : Z :=
  if p <? 0 then Z.abs (s * den - num * 10 ^ (- p))
  else Z.abs (s * 10 ^ p * den - num).

(** The shortest decimal [(s, n)] of [k] digits or more that reads back as
    the number [m * 2^e]: [s * 10^(n - k)] rounds to it. *)
Fixpoint shortest (fuel : nat) (m : positive) (e : Z) (n : Z) (k : Z) : Z * Z * Z :=
  let '(num, den) := fraction m e in
  let p := n - k in
  let lo := if p <? 0 then (num * 10 ^ (- p)) / den else num / (den * 10 ^ p) in
  let reads s :=
    match ofDecimal false (Z.to_N s) p with
    | S754_finite false m' e' => Pos.eqb m' m && Z.eqb e' e
    | _ => false
    end in
  let first :=
    if decimal_error num den lo p <=? decimal_error num den (lo + 1) p
    then (lo, lo + 1) else (lo + 1, lo) in
  let pick :=
    if reads (fst first) && (0 <? fst first) then Some (fst first)
    else if reads (snd first) && (0 <? snd first) then Some (snd first)
    else None in
  match pick, fuel with
  | Some s, _ => if s =? 10 ^ k then (1, n + 1, 1) else (s, n, k)
  | None, O => (lo, n, k)
  | None, S g => shortest g m e n (k + 1)
  end.

(** [Number::toString(x)] in base ten. *)
Definition toString (x : number) : string :=
  match x with
  | S754_nan => "NaN"
  | S754_infinity neg => if neg then "-Infinity" else "Infinity"
  | S754_zero _ => "0"
  | S754_finite neg m e =>
      let '(num, den) := fraction m e in
      let '(s, n, k) := shortest 20 m e (magnitude num den) 1 in
      let ds := digits_of (Z.to_N s) in
      (if neg then "-" else "") +:+
      (if (k <=? n) && (n <=? 21) then ds +:+ zeros (Z.to_nat (n - k))
       else if (0 <? n) && (n <=? 21) then
         str (take (Z.to_nat n) (chars ds)) +:+ "." +:+ str (drop (Z.to_nat n) (chars ds))
       else if (-6 <? n) && (n <=? 0) then
         "0." +:+ zeros (Z.to_nat (- n)) +:+ ds
       else
         let ex := (if n - 1 <? 0 then "-" else "+") +:+ digits_of (Z.to_N (Z.abs (n - 1))) in
         if k =? 1 then ds +:+ "e" +:+ ex
         else str (take 1 (chars ds)) +:+ "." +:+ str (drop 1 (chars ds)) +:+ "e" +:+ ex)
  end.

(** [x.toFixed(f)], for [f] fraction digits: the digits of the integer
    nearest to [x * 10^f] (the larger one on a tie), with a point before
    the last [f]; a number of magnitude [10^21] or more is printed by
    [toString]. *)
Definition toFixed (x : number) (f : nat) : string :=
  match x with
  | S754_nan => "NaN"
  | S754_infinity neg => if neg then "-Infinity" else "Infinity"
  | S754_zero _ => if Nat.eqb f 0 then "0" else "0." +:+ zeros f
  | S754_finite neg m e =>
      let '(num, den) := fraction m e in
      if 10 ^ 21 * den <=? num then toString x else
      let n := round_div (num * 10 ^ Z.of_nat f) den in
      let ds := digits_of (Z.to_N n) in
      let ds := zeros (S f - String.length ds) +:+ ds in
      let k := (String.length ds - f)%nat in
      (if neg then "-" else "") +:+
      (if Nat.eqb f 0 then ds
       else str (take k (chars ds)) +:+ "." +:+ str (drop k (chars ds)))
  end.

End Number.

Export Number (number).

(** ** Regular expressions *)

Module RegExp.

(** Patterns; a character class is its membership test. *)
Inductive re : Type :=
  | Void
  | Eps
  | Class (p : ascii -> bool)
  | Cat (a b : re)
  | Alt (a b : re)
  | Star (a : re).

Definition Plus (a : re) : re := Cat a (Star a).
Definition Opt (a : re) : re := Alt a Eps.
Definition Chr (c : ascii) : re := Class (Ascii.eqb c).
Definition Any : re := Class (fun _ => true).

(** [\s]: one white space character, of one, two or three bytes. *)
Definition space : re :=
  Alt (Class is_space)
    (Alt (Cat (Class (is_byte 194)) (Class (is_byte 160)))
       (Alt (Cat (Class (is_byte 225)) (Cat (Class (is_byte 154)) (Class (is_byte 128))))
          (Alt (Cat (Class (is_byte 226))
                  (Cat (Class (is_byte 128))
                     (Class (fun c => char_in (ascii_of_N 128) (ascii_of_N 138) c
                                      || is_byte 168 c || is_byte 169 c
                                      || is_byte 175 c))))
             (Alt (Cat (Class (is_byte 226))
                     (Cat (Class (is_byte 129)) (Class (is_byte 159))))
                (Alt (Cat (Class (is_byte 227))
                        (Cat (Class (is_byte 128)) (Class (is_byte 128))))
                   (Cat (Class (is_byte 239))
                      (Cat (Class (is_byte 187)) (Class (is_byte 191))))))))).

Fixpoint nullable (r : re) : bool :=
  match r with
  | Void | Class _ => false
  | Eps | Star _ => true
  | Cat a b => nullable a && nullable b
  | Alt a b => nullable a || nullable b
  end.

(** Derivative of [r] by the character [c]. *)
Fixpoint deriv (c : ascii) (r : re) : re :=
  match r with
  | Void | Eps => Void
  | Class p => if p c then Eps else Void
  | Cat a b =>
      if nullable a then Alt (Cat (deriv c a) b) (deriv c b)
      else Cat (deriv c a) b
  | Alt a b => Alt (deriv c a) (deriv c b)
  | Star a => Cat (deriv c a) (Star a)
  end.

(** [r] matches the whole of [l]. *)
Definition matches (r : re) (l : list ascii) : bool :=
  nullable (fold_left (fun r c => deriv c r) l r).

Definition upper (c : ascii) : ascii :=
  if is_lower c then ascii_of_N (N_of_ascii c - 32) else c.
Definition lower (c : ascii) : ascii :=
  if is_upper c then ascii_of_N (N_of_ascii c + 32) else c.

(** The pattern under the [i] flag. *)
Fixpoint fold_case (r : re) : re :=
  match r with
  | Class p => Class (fun c => p c || p (upper c) || p (lower c))
  | Cat a b => Cat (fold_case a) (fold_case b)
  | Alt a b => Alt (fold_case a) (fold_case b)
  | Star a => Star (fold_case a)
  | Void => Void
  | Eps => Eps
  end.

(** A regular expression literal: the pattern between an optional [^] and
    an optional [$], and the [i] flag. *)
Record literal : Type := Literal {
  anchored_start : bool;
  body : re;
  anchored_end : bool;
  ignore_case : bool;
}.

(** [lit.test(s)]: some substring of [s] matches the pattern, starting at
    the start of [s] under [^] and ending at its end under [$]. *)
Definition test (lit : literal) (s : string) : bool :=
  let r := if ignore_case lit then fold_case (body lit) else body lit in
  matches
    (Cat (if anchored_start lit then Eps else Star Any)
         (Cat r (if anchored_end lit then Eps else Star Any)))
    (chars s).

End RegExp.

(** ** Values *)

(** A value of type [unknown]: what the YAML loader and the front matter
    hold. *)
Inductive value : Type :=
  | VUndefined
  | VNull
  | VBool (b : bool)
  | VNumber (n : number)
  | VString (s : string)
  | VArray (l : list value)
  | VObject (m : gmap string value).

Inductive jstype : Type :=
  | TUndefined | TObject | TBoolean | TNumber | TString.

Definition jstype_eqb (a b : jstype) : bool :=
  match a, b with
  | TUndefined, TUndefined | TObject, TObject | TBoolean, TBoolean
  | TNumber, TNumber | TString, TString => true
  | _, _ => false
  end.

Definition typeof (v : value) : jstype :=
  match v with
  | VUndefined => TUndefined
  | VNull | VArray _ | VObject _ => TObject
  | VBool _ => TBoolean
  | VNumber _ => TNumber
  | VString _ => TString
  end.

(** Truthiness: [!!v]. *)
Definition truthy (v : value) : bool :=
  match v with
  | VUndefined | VNull => false
  | VBool b => b
  | VNumber n => Number.truthy n
  | VString s => negb (String.eqb s "")
  | VArray _ | VObject _ => true
  end.

Definition is_undefined (v : value) : bool :=
  match v with VUndefined => true | _ => false end.

(** [v === s] for a string literal [s]. *)
Definition is_string (v : value) (s : string) : bool :=
  match v with VString t => String.eqb t s | _ => false end.

(** [v ?? d] *)
Definition nullish (v d : value) : value :=
  match v with
  | VUndefined | VNull => d
  | _ => v
  end.

(** The own enumerable properties of a value: those of an object, and the
    elements of an array under their indices. *)
Definition own_props (v : value) : gmap string value :=
  match v with
  | VObject m => m
  | VArray l => list_to_map (imap (fun i x => (digits_of (N.of_nat i), x)) l)
  | _ => ∅
  end.

Definition Object_keys (v : value) : list string := (map_to_list (own_props v)).*1.
Definition Object_values (v : value) : list value := (map_to_list (own_props v)).*2.

(** The property read [v[key]] on an object or an array: an own property, or
    the length of an array.  The properties inherited from
    [Object.prototype] are left out; none of the keys the plugin reads names
    one. *)
Definition get (v : value) (key : string) : value :=
  match v with
  | VArray l =>
      if String.eqb key "length" then VNumber (Number.ofZ (Z.of_nat (length l)))
      else default VUndefined (own_props v !! key)
  | _ => default VUndefined (own_props v !! key)
  end.

Definition join (sep : string) (l : list string) : string :=
  match l with
  | [] => ""
  | x :: r => fold_left (fun acc y => acc +:+ sep +:+ y) r x
  end.

(** [v.toString()] for a value other than [undefined] and [null]; inside an
    array these two print as the empty string. *)
Fixpoint toString (v : value) : string :=
  match v with
  | VUndefined | VNull => ""
  | VBool b => if b then "true" else "false"
  | VNumber n => Number.toString n
  | VString s => s
  | VArray l => join "," (map toString l)
  | VObject _ => "[object Object]"
  end.

(** Whether [v] is an object with a property of its own named [toString],
    or an array that holds one, at any depth.  A document holds data only,
    so that such a property is not a function. *)
Fixpoint hides_toString (v : value) : bool :=
  match v with
  | VObject m => bool_decide (is_Some (m !! "toString"))
  | VArray l => existsb hides_toString l
  | _ => false
  end.

(** A field the schema has narrowed to a string, to a number. *)
Definition the_string (v : value) : string :=
  match v with VString s => s | _ => toString v end.
Definition the_number (v : value) : number :=
  match v with VNumber n => n | _ => Number.NaN end.

(** ** Errors *)

(** What is thrown: an exception of the YAML loader, an [Error] of the
    plugin with its message, or a [TypeError] of the engine, whose message
    is left out. *)
Inductive Error : Type :=
  | YAMLException (reason : string)
  | ErrorOf (message : string)
  | TypeError.

(** A computation that returns or throws. *)
Inductive Exc (A : Type) : Type :=
  | Ok (a : A)
  | Throw (e : Error).
Arguments Ok {A} a.
Arguments Throw {A} e.

#[global] Instance Exc_ret : MRet Exc := fun _ a => Ok a.
#[global] Instance Exc_bind : MBind Exc := fun _ _ f m =>
  match m with
  | Ok a => f a
  | Throw e => Throw e
  end.

(** [l.map(f)] for a callback that can throw: the calls are made in order,
    and the first exception ends them. *)
Fixpoint mapM {A B} (f : A -> Exc B) (l : list A) : Exc (list B) :=
  match l with
  | [] => mret []
  | x :: r => y ← f x; ys ← mapM f r; mret (y :: ys)
  end.

(** [l.forEach(f)] for a callback that changes a state and can throw. *)
Fixpoint foldM {A S} (f : S -> A -> Exc S) (s : S) (l : list A) : Exc S :=
  match l with
  | [] => mret s
  | x :: r => s' ← f s x; foldM f s' r
  end.

(** [v.toString()] for a value other than [undefined] and [null]: the call
    throws when [toString] is a property of the object itself, which is not
    a function, and when the elements of an array cannot be printed for
    this reason. *)
Definition call_toString (v : value) : Exc string :=
  if hides_toString v then Throw TypeError else Ok (toString v).

(** ** TYPES.TS, CONSTANTS.TS *)

Module C.
Module regExp.
Import RegExp.
Definition digits : re := Class is_digit.
Definition hexDigit : re :=
  Class (fun c => is_digit c || char_in "A" "F" c).
Definition letters : re := Class is_lower.

(** [/([0-9A-F]{3}){1,2}$/i] *)
Definition hexColourValidation : literal :=
  let three := Cat hexDigit (Cat hexDigit hexDigit) in
  Literal false (Cat three (Opt three)) true true.

(** [/[0-9]+\s*,\s*[0-9]+/] *)
Definition coordinatesValidation : literal :=
  Literal false
    (Cat (Plus digits)
       (Cat (Star space)
          (Cat (Chr ",") (Cat (Star space) (Plus digits)))))
    false false.

(** [/([a-z]+:)?[a-z]+([\-][a-z]+)*/] *)
Definition iconValidation : literal :=
  Literal false
    (Cat (Opt (Cat (Plus letters) (Chr ":")))
       (Cat (Plus letters) (Star (Cat (Chr "-") (Plus letters)))))
    false false.
End regExp.

Module map.
Module default.
Definition minZoom : number := Number.ofZ 0.
Definition maxZoom : number := Number.ofZ 2.
Definition zoomDelta : number := Number.ofDecimal false 5 (-1).
Definition zoomSnap : number := Number.ofDecimal false 1 (-2).
Definition height : number := Number.ofZ 600.
Definition scale : number := Number.ofZ 1.
Definition unit : string := "".
End default.
End map.

Module marker.
Module default.
Definition colour : string := "#21409a".
Definition icon : string := "circle-small".
End default.
End marker.
End C.

(** ** UTIL.TS *)

Definition isNonEmptyObject (value : value) : bool :=
  if negb (truthy value) || negb (jstype_eqb (typeof value) TObject) then false
  else bool_decide (0 < length (Object_keys value))%nat.

Definition isNotNull {T} (value : option T) : bool :=
  match value with Some _ => true | None => false end.

Definition clamp (value min max : number) : number :=
  Number.min (Number.max value min) max.

(** ** VALIDATORS.TS *)

(** A validator answers [true] or [false], or throws. *)
Definition ValidatorFunction : Type := value -> Exc bool.

(** The validators that only look at their argument throw nothing. *)
Definition total (test : value -> bool) : ValidatorFunction :=
  fun value => Ok (test value).

Definition stringValidator (value : value) : bool :=
  jstype_eqb (typeof value) TString.

Definition sourcevalidator : ValidatorFunction := fun value =>
  preparedValue ←
    match value with
    | VString _ => Ok value
    | VUndefined | VNull => Ok VUndefined
    | _ => s ← call_toString value; Ok (VString s)
    end;
  Ok (truthy preparedValue).

Definition numberValidator (value : value) : bool :=
  match value with
  | VNumber n => Number.isFinite n
  | _ => false
  end.

Definition positiveNumberValidator (value : value) : bool :=
  numberValidator value && Number.ltb (Number.ofZ 0) (the_number value).

Definition coordinatesValidator (value : value) : bool :=
  match value with
  | VString s => RegExp.test C.regExp.coordinatesValidation s
  | _ => false
  end.

Definition iconValidator (value : value) : bool :=
  match value with
  | VString s => RegExp.test C.regExp.iconValidation s
  | _ => false
  end.

Definition colourValidator (value : value) : bool :=
  match value with
  | VString s => RegExp.test C.regExp.hexColourValidation s
  | _ => false
  end.

Module Validator.
Definition string : ValidatorFunction := total stringValidator.
Definition source : ValidatorFunction := sourcevalidator.
Definition number : ValidatorFunction := total numberValidator.
Definition positiveNumber : ValidatorFunction := total positiveNumberValidator.
Definition coordinates : ValidatorFunction := total coordinatesValidator.
Definition icon : ValidatorFunction := total iconValidator.
Definition colour : ValidatorFunction := total colourValidator.
End Validator.

(** ** SCHEMAS.TS *)

Record SchemaEntry : Type := {
  validator : ValidatorFunction;
  required : bool;
}.

(** [{ validator }], where [required] is left out. *)
Definition optional (v : ValidatorFunction) : SchemaEntry :=
  {| validator := v; required := false |}.

Definition markerSchema : gmap string SchemaEntry :=
  list_to_map [
    ("mapName", optional Validator.string);
    ("coordinates", {| validator := Validator.coordinates; required := true |});
    ("icon", optional Validator.icon);
    ("colour", optional Validator.colour);
    ("minZoom", optional Validator.number)
  ].

Definition mapSchema : gmap string SchemaEntry :=
  list_to_map [
    ("name", optional Validator.string);
    ("image", {| validator := Validator.source; required := true |});
    ("height", optional Validator.number);
    ("minZoom", optional Validator.number);
    ("maxZoom", optional Validator.number);
    ("defaultZoom", optional Validator.number);
    ("zoomDelta", optional Validator.positiveNumber);
    ("scale", optional Validator.number);
    ("unit", optional Validator.string)
  ].

(** The validator of a schema.  The callback of [map] runs on every entry
    of the schema before [every] looks at the answers, so that an exception
    of one validator is the outcome, whatever the others answer. *)
Definition schemaValidatorFactory (schema : gmap string SchemaEntry) : ValidatorFunction :=
  fun value =>
    if negb (isNonEmptyObject value) then Ok false
    else
      answers ←
        mapM (fun '(key, validate) =>
                if is_undefined (get value key) && negb (required validate)
                then Ok true
                else validator validate (get value key))
          (map_to_list schema);
      Ok (forallb (fun b : bool => b) answers).

Module SchemaValidator.
Definition marker : ValidatorFunction := schemaValidatorFactory markerSchema.
Definition map : ValidatorFunction := schemaValidatorFactory mapSchema.
End SchemaValidator.

(** ** Documents and content trees *)

(** The part of a [VFile] the plugin reads. *)
Record VFile : Type := {
  path : string;
  slug : option string;
  frontmatter : value;
}.

Record BuildCtx : Type := {
  allSlugs : list string;
}.

(** A node of the content tree ([ExtendedNode], [Element]). *)
Inductive Node : Type :=
  mkNode (ty : string) (tag : option string) (val : option string)
         (props : option (gmap string value))
         (kids : option (list Node)).

Definition tagName (n : Node) : option string := let '(mkNode _ t _ _ _) := n in t.
Definition properties (n : Node) : option (gmap string value) :=
  let '(mkNode _ _ _ p _) := n in p.
Definition children (n : Node) : option (list Node) :=
  let '(mkNode _ _ _ _ c) := n in c.

(** The property [key] of an element, [undefined] when it has none. *)
Definition prop (n : Node) (key : string) : value :=
  default VUndefined (default ∅ (properties n) !! key).

(** An [Element] of the rendered tree. *)
Definition element (tag : string) (props : list (string * value))
    (kids : list Node) : Node :=
  mkNode "element" (Some tag) None (Some (list_to_map props)) (Some kids).

(** The registry [LEAFLET_MAP_PLUGIN_DATA.markerMap], a dictionary from map
    names to the markers of these maps, in the order they were pushed. *)
Abbreviation MarkerEntry := value (only parsing).
Abbreviation MarkerMap := (gmap string (list value)) (only parsing).

Definition LEAFLET_MAP_PLUGIN_DATA : MarkerMap := {[ "notDefinedMap" := [] ]}.

(** The registry is an object literal: besides the buckets, its own
    properties, it has the properties every object inherits from
    [Object.prototype], which are functions but for [__proto__], the
    prototype itself. *)
Definition Object_prototype : list string :=
  [ "constructor"; "__defineGetter__"; "__defineSetter__"; "hasOwnProperty";
    "__lookupGetter__"; "__lookupSetter__"; "isPrototypeOf";
    "propertyIsEnumerable"; "toString"; "valueOf"; "__proto__";
    "toLocaleString" ].

Definition inherited (key : string) : bool := existsb (String.eqb key) Object_prototype.

(** What [markerMap[key]] is: a bucket of the registry, an inherited
    property, or [undefined]. *)
Inductive Property : Type :=
  | Bucket (bucket : list value)
  | Inherited
  | Undefined.

Definition member (markerMap : MarkerMap) (key : string) : Property :=
  match markerMap !! key with
  | Some bucket => Bucket bucket
  | None => if inherited key then Inherited else Undefined
  end.

Section Plugin.

(** The collaborators: the YAML loader, which returns the document or
    throws, and the two path helpers. *)
Variable load : string -> Exc value.
Variable resolveRelative : string -> string -> string.
Variable transformLink : string -> string -> list string -> string.

(** *** MARKER.TS *)

Definition isProperEntry (entry : value) : bool :=
  if negb (isNonEmptyObject entry) then false
  else
    forallb
      (fun property =>
         jstype_eqb (typeof property) TString
         || jstype_eqb (typeof property) TNumber)
      (Object_values entry).

Definition parseMarkerFromEntry (entry : value) (name : value) (link : string)
    : Exc (option MarkerEntry) :=
  if negb (isProperEntry entry) then Ok None
  else
    valid ← SchemaValidator.marker entry;
    if negb valid then Ok None
    else Ok (Some (VObject (<["link" := VString link]>
                              (<["name" := name]> (own_props entry))))).

(** [markerMap[key]?.push(marker)]: nothing happens when there is no such
    property, and an inherited property has no method [push] to call. *)
Definition push (key : string) (marker : MarkerEntry) (markerMap : MarkerMap)
    : Exc MarkerMap :=
  match member markerMap key with
  | Bucket bucket => Ok (<[key := bucket ++ [marker]]> markerMap)
  | Inherited => Throw TypeError
  | Undefined => Ok markerMap
  end.

(** The body of the [forEach] of [buildMarkerData]. *)
Definition storeMarker (markerMap : MarkerMap) (marker : MarkerEntry)
    : Exc MarkerMap :=
  let mapName := get marker "mapName" in
  if negb (truthy mapName) then push "notDefinedMap" marker markerMap
  else
    let key := the_string mapName in
    let markerMap :=
      match member markerMap key with
      | Undefined => <[key := []]> markerMap
      | _ => markerMap
      end in
    push key marker markerMap.

Definition buildMarkerData (file : VFile) (markerMap : MarkerMap) : Exc MarkerMap :=
  let markerData := get (frontmatter file) "marker" in
  let title := get (frontmatter file) "title" in
  match slug file, markerData with
  | Some slug, VArray entries =>
      if negb (truthy (VString slug)) || negb (truthy (frontmatter file))
         || negb (truthy title)
      then Ok markerMap
      else
        parsed ← mapM (fun entry => parseMarkerFromEntry entry title slug) entries;
        foldM storeMarker markerMap (omap id parsed)
  | _, _ => Ok markerMap
  end.

Definition buildMarkerElement (marker : MarkerEntry) (currentSlug : string)
    (mapMinZoom : number) : Node :=
  element "div"
    [ ("class", VArray [VString "leaflet-marker"]);
      ("data-name", get marker "name");
      ("data-link", VString (resolveRelative currentSlug (the_string (get marker "link"))));
      ("data-coordinates", get marker "coordinates");
      ("data-icon",
        VString (str (replace_first (chars "lucide-") []
          (chars (the_string (nullish (get marker "icon") (VString C.marker.default.icon)))))));
      ("data-colour", nullish (get marker "colour") (VString C.marker.default.colour));
      ("data-min-zoom", nullish (get marker "minZoom") (VNumber mapMinZoom)) ]
    [].

(** *** MAP.TS *)

Fixpoint source (node : Node) : string :=
  match node with
  | mkNode ty _ val _ kids =>
      match (if String.eqb ty "text" then val else None), kids with
      | Some v, _ => v
      | None, None => ""
      | None, Some kids => join "" (map source kids)
      end
  end.

(** The [object] built from the recognised fields of a view, before it is
    validated. *)
Definition candidate (view : value) : value :=
  VObject (list_to_map
    [ ("name", get view "mapName");
      ("image", get view "image");
      ("height", get view "height");
      ("minZoom", get view "minZoom");
      ("maxZoom", get view "maxZoom");
      ("defaultZoom", get view "defaultZoom");
      ("zoomDelta", get view "zoomDelta");
      ("scale", VNumber (Number.parseFloat
                  (toString (nullish (get view "scale") (VString "")))));
      ("unit", get view "unit") ]).

(** The callback mapped over [entry.views]: the candidate of a view that
    is a proper entry of type ["leaflet-map"], when it passes the schema. *)
Definition parseView (view : value) : Exc (option value) :=
  if negb (isProperEntry view) then Ok None
  else if negb (truthy (get view "type"))
          || negb (is_string (get view "type") "leaflet-map")
  then Ok None
  else
    let object := candidate view in
    valid ← SchemaValidator.map object;
    if negb valid then Ok None
    else Ok (Some object).

Definition parseMapFromNode (node : Node) : Exc (option value) :=
  entry ← load (source node);
  match get entry "views" with
  | VArray views =>
      if negb (isNonEmptyObject entry) then mret None
      else
        parsed ← mapM parseView views;
        mret (head (omap id parsed))
  | _ => mret None
  end.

(** The constants of [buildMapData], as functions of the registry and of
    the validated declaration [mapData]. *)
Definition undefinedMarkers (markerMap : MarkerMap) : list MarkerEntry :=
  default [] (markerMap !! "notDefinedMap").

(** [mapData.name ? (markerMap[mapData.name] ?? []) : []] *)
Definition definedMarkers (markerMap : MarkerMap) (mapData : value) : Property :=
  if truthy (get mapData "name")
  then match member markerMap (the_string (get mapData "name")) with
       | Undefined => Bucket []
       | found => found
       end
  else Bucket [].

(** [[...undefinedMarkers, ...definedMarkers]]: an inherited property is
    not a list, and cannot be spread. *)
Definition markers (markerMap : MarkerMap) (mapData : value)
    : Exc (list MarkerEntry) :=
  match definedMarkers markerMap mapData with
  | Bucket definedMarkers => Ok (undefinedMarkers markerMap ++ definedMarkers)
  | Inherited | Undefined => Throw TypeError
  end.

Definition minZoom (mapData : value) : number :=
  the_number (nullish (get mapData "minZoom") (VNumber C.map.default.minZoom)).

Definition maxZoom (mapData : value) : number :=
  Number.max
    (the_number (nullish (get mapData "maxZoom") (VNumber C.map.default.maxZoom)))
    (minZoom mapData).

(** The map container [buildMapData] builds for [mapData] in the document
    [currentSlug]: the resolved parameters as [data-*] properties, and one
    child for each of the [markers]. *)
Definition mapContainer (ctx : BuildCtx) (currentSlug : string) (mapData : value)
    (markers : list MarkerEntry) : Node :=
  let mapSource :=
    transformLink currentSlug (toString (get mapData "image")) (allSlugs ctx) in
  element "div"
    [ ("class", VArray [VString "leaflet-map"]);
      ("data-src", VString mapSource);
      ("data-height", nullish (get mapData "height") (VNumber C.map.default.height));
      ("data-min-zoom", VNumber (minZoom mapData));
      ("data-max-zoom", VNumber (maxZoom mapData));
      ("data-default-zoom",
        VNumber (clamp
          (the_number (nullish (get mapData "defaultZoom") (VNumber (minZoom mapData))))
          (minZoom mapData) (maxZoom mapData)));
      ("data-zoom-delta",
        nullish (get mapData "zoomDelta") (VNumber C.map.default.zoomDelta));
      ("data-scale", nullish (get mapData "scale") (VNumber C.map.default.scale));
      ("data-unit", nullish (get mapData "unit") (VString C.map.default.unit)) ]
    (map (fun marker => buildMarkerElement marker currentSlug (minZoom mapData))
       markers).

Definition buildMapData (markerMap : MarkerMap) (ctx : BuildCtx) (file : VFile)
    (node : Node) : Exc (option Node) :=
  mapData ← parseMapFromNode node;
  match mapData with
  | None => mret None
  | Some mapData =>
      match slug file with
      | None => Throw (ErrorOf (path file +:+ " has no slug"))
      | Some currentSlug =>
          if negb (truthy (VString currentSlug))
          then Throw (ErrorOf (path file +:+ " has no slug"))
          else
            markers ← markers markerMap mapData;
            mret (Some
              (element "div" [] [ mapContainer ctx currentSlug mapData markers ]))
      end
  end.

(** The visitor of [transformMapElement] at a child of some parent: the
    element that replaces the node, if any. *)
Definition visitor (markerMap : MarkerMap) (ctx : BuildCtx) (file : VFile)
    (node : Node) : Exc (option Node) :=
  if negb (is_string (prop node "dataLanguage") "base")
  then mret None
  else buildMapData markerMap ctx file node.

(** [visit(tree, { tagName: "code" }, visitor)]: the nodes are visited in
    document order, a node before its children; the visitor runs on the
    [code] elements below the root, and the children visited are those of
    the node as it was, also when the visitor has put another element in
    its place. *)
Fixpoint visit (markerMap : MarkerMap) (ctx : BuildCtx) (file : VFile) (tree : Node)
    : Exc Node :=
  match tree with
  | mkNode ty tag val props None => mret tree
  | mkNode ty tag val props (Some kids) =>
      kids' ← (fix visitAll (kids : list Node) : Exc (list Node) :=
                 match kids with
                 | [] => mret []
                 | node :: rest =>
                     leafletElement ←
                       (if bool_decide (tagName node = Some "code")
                        then visitor markerMap ctx file node
                        else mret None);
                     node' ← visit markerMap ctx file node;
                     rest' ← visitAll rest;
                     mret (default node' leafletElement :: rest')
                 end) kids;
      mret (mkNode ty tag val props (Some kids'))
  end.

Definition transformMapElement (markerMap : MarkerMap) (ctx : BuildCtx)
    (tree : Node) (file : VFile) : Exc Node :=
  visit markerMap ctx file tree.

End Plugin.

(** ** The rendered page *)

(** [data-min-zoom] is read back as [dataset.minZoom]. *)
Fixpoint camelCase (l : list ascii) : list ascii :=
  match l with
  | c :: ((d :: r) as rest) =>
      if Ascii.eqb c "-" && is_lower d then RegExp.upper d :: camelCase r
      else c :: camelCase rest
  | _ => l
  end.

(** The [dataset] of a rendered element: its [data-*] properties, each value
    written as a string by [print]; a property without a value is not
    rendered. *)
Definition dataset_by (print : value -> string) (node : Node) : value :=
  VObject (list_to_map
    (omap (fun '(key, v) =>
             if is_prefix (chars "data-") (chars key) && negb (is_undefined (nullish v VUndefined))
             then Some (str (camelCase (drop 5 (chars key))), VString (print v))
             else None)
       (map_to_list (default ∅ (properties node))))).

Definition dataset (node : Node) : value := dataset_by toString node.

(** The selector [.cls] on an element. *)
Definition has_class (cls : string) (node : Node) : bool :=
  match prop node "class" with
  | VArray l => existsb (fun v => is_string v cls) l
  | v => is_string v cls
  end.

(** ** The inline client script *)

Module Client.

Module C.
Module map.
Definition default : value :=
  VObject (list_to_map
    [ ("minZoom", VString "0"); ("maxZoom", VString "2");
      ("zoomDelta", VString "0.5"); ("zoomSnap", VString "0.01");
      ("height", VString "600"); ("scale", VString "1"); ("unit", VString "") ]).
End map.
End C.

Definition isNonEmptyObject (e : value) : bool :=
  if negb (truthy e) || negb (jstype_eqb (typeof e) TObject) then false
  else bool_decide (0 < length (Object_keys e))%nat
       && forallb (fun n => jstype_eqb (typeof n) TString) (Object_values e).

Definition parseCoordinates (e : string) : Exc (list number) :=
  let n :=
    map (fun t => Number.parseInt (str t))
      (split_on "," (remove_spaces (chars e))) in
  if negb (Nat.eqb (length n) 2)
  then Throw (ErrorOf "Coordinates not properly validated")
  else Ok n.

Record LatLng : Type := { lat : number; lng : number }.

Definition distance (e n : LatLng) : number :=
  let t o := Number.mul o o in
  Number.sqrt (Number.add (t (Number.sub (lat e) (lat n)))
                          (t (Number.sub (lng e) (lng n)))).

Definition isMarkerDataSet (e : value) : bool :=
  negb (negb (isNonEmptyObject e)
        || negb (truthy (get e "name")) || negb (truthy (get e "link"))
        || negb (truthy (get e "coordinates")) || negb (truthy (get e "icon"))
        || negb (truthy (get e "colour")) || negb (truthy (get e "minZoom"))).

(** The data sets of the [div.leaflet-marker] children that are complete. *)
Definition getMarkerData (e : Node) : list value :=
  List.filter isMarkerDataSet
    (map dataset
       (List.filter
          (fun o => bool_decide (tagName o = Some "div") && has_class "leaflet-marker" o)
          (default [] (children e)))).

Definition isMapDataSet (e : value) : bool :=
  negb (negb (isNonEmptyObject e)
        || negb (truthy (get e "src")) || negb (truthy (get e "height"))
        || negb (truthy (get e "minZoom")) || negb (truthy (get e "maxZoom"))
        || negb (truthy (get e "defaultZoom")) || negb (truthy (get e "zoomDelta"))
        || negb (truthy (get e "scale")) || negb (truthy (get e "unit"))).

(** *** The measure tool *)

Inductive MeasureState : Type := Ready | Measuring | Finishing | Done.

Record Tooltip : Type := {
  permanent : bool;
  content : string;
}.

(** A vertex drawn by [getCircleMarker]: [listening] while its click
    listener is registered, [shown] while it is on the point layer. *)
Record CircleMarker : Type := {
  at_ : LatLng;
  listening : bool;
  shown : bool;
  tooltip : option Tooltip;
}.

(** The fields of a [MeasureControl].  [added] holds once [onAdded] has
    created the layers; [points] keeps every circle marker ever drawn and
    [lastElement] is the index of one of them; the preview tooltip is at
    [previewAt] and on the line layer when [previewShown]. *)
Record MeasureControl : Type := {
  isSelected : bool;
  options : value;
  state : MeasureState;
  pathItems : list LatLng;
  distance_ : number;
  added : bool;
  points : list CircleMarker;
  lastElement : option nat;
  pathLine : list LatLng;
  previewLine : list LatLng;
  previewTooltip : Tooltip;
  previewAt : LatLng;
  previewShown : bool;
  cursor : string;
  mousemove : bool;
}.

(** Assignments to the fields. *)
Definition set_isSelected (v : bool) (c : MeasureControl) : MeasureControl :=
  {| isSelected := v; options := options c; state := state c;
     pathItems := pathItems c; distance_ := distance_ c; added := added c;
     points := points c; lastElement := lastElement c; pathLine := pathLine c;
     previewLine := previewLine c; previewTooltip := previewTooltip c;
     previewAt := previewAt c; previewShown := previewShown c;
     cursor := cursor c; mousemove := mousemove c |}.

Definition set_options (v : value) (c : MeasureControl) : MeasureControl :=
  {| isSelected := isSelected c; options := v; state := state c;
     pathItems := pathItems c; distance_ := distance_ c; added := added c;
     points := points c; lastElement := lastElement c; pathLine := pathLine c;
     previewLine := previewLine c; previewTooltip := previewTooltip c;
     previewAt := previewAt c; previewShown := previewShown c;
     cursor := cursor c; mousemove := mousemove c |}.

Definition set_state (v : MeasureState) (c : MeasureControl) : MeasureControl :=
  {| isSelected := isSelected c; options := options c; state := v;
     pathItems := pathItems c; distance_ := distance_ c; added := added c;
     points := points c; lastElement := lastElement c; pathLine := pathLine c;
     previewLine := previewLine c; previewTooltip := previewTooltip c;
     previewAt := previewAt c; previewShown := previewShown c;
     cursor := cursor c; mousemove := mousemove c |}.

Definition set_pathItems (v : list LatLng) (c : MeasureControl) : MeasureControl :=
  {| isSelected := isSelected c; options := options c; state := state c;
     pathItems := v; distance_ := distance_ c; added := added c;
     points := points c; lastElement := lastElement c; pathLine := pathLine c;
     previewLine := previewLine c; previewTooltip := previewTooltip c;
     previewAt := previewAt c; previewShown := previewShown c;
     cursor := cursor c; mousemove := mousemove c |}.

Definition set_distance (v : number) (c : MeasureControl) : MeasureControl :=
  {| isSelected := isSelected c; options := options c; state := state c;
     pathItems := pathItems c; distance_ := v; added := added c;
     points := points c; lastElement := lastElement c; pathLine := pathLine c;
     previewLine := previewLine c; previewTooltip := previewTooltip c;
     previewAt := previewAt c; previewShown := previewShown c;
     cursor := cursor c; mousemove := mousemove c |}.

Definition set_added (v : bool) (c : MeasureControl) : MeasureControl :=
  {| isSelected := isSelected c; options := options c; state := state c;
     pathItems := pathItems c; distance_ := distance_ c; added := v;
     points := points c; lastElement := lastElement c; pathLine := pathLine c;
     previewLine := previewLine c; previewTooltip := previewTooltip c;
     previewAt := previewAt c; previewShown := previewShown c;
     cursor := cursor c; mousemove := mousemove c |}.

Definition set_points (v : list CircleMarker) (c : MeasureControl) : MeasureControl :=
  {| isSelected := isSelected c; options := options c; state := state c;
     pathItems := pathItems c; distance_ := distance_ c; added := added c;
     points := v; lastElement := lastElement c; pathLine := pathLine c;
     previewLine := previewLine c; previewTooltip := previewTooltip c;
     previewAt := previewAt c; previewShown := previewShown c;
     cursor := cursor c; mousemove := mousemove c |}.

Definition set_lastElement (v : option nat) (c : MeasureControl) : MeasureControl :=
  {| isSelected := isSelected c; options := options c; state := state c;
     pathItems := pathItems c; distance_ := distance_ c; added := added c;
     points := points c; lastElement := v; pathLine := pathLine c;
     previewLine := previewLine c; previewTooltip := previewTooltip c;
     previewAt := previewAt c; previewShown := previewShown c;
     cursor := cursor c; mousemove := mousemove c |}.

Definition set_pathLine (v : list LatLng) (c : MeasureControl) : MeasureControl :=
  {| isSelected := isSelected c; options := options c; state := state c;
     pathItems := pathItems c; distance_ := distance_ c; added := added c;
     points := points c; lastElement := lastElement c; pathLine := v;
     previewLine := previewLine c; previewTooltip := previewTooltip c;
     previewAt := previewAt c; previewShown := previewShown c;
     cursor := cursor c; mousemove := mousemove c |}.

Definition set_previewLine (v : list LatLng) (c : MeasureControl) : MeasureControl :=
  {| isSelected := isSelected c; options := options c; state := state c;
     pathItems := pathItems c; distance_ := distance_ c; added := added c;
     points := points c; lastElement := lastElement c; pathLine := pathLine c;
     previewLine := v; previewTooltip := previewTooltip c;
     previewAt := previewAt c; previewShown := previewShown c;
     cursor := cursor c; mousemove := mousemove c |}.

(** The preview tooltip, with its position and whether it is on the line
    layer. *)
Definition set_preview (v : Tooltip) (position : LatLng) (on : bool)
    (c : MeasureControl) : MeasureControl :=
  {| isSelected := isSelected c; options := options c; state := state c;
     pathItems := pathItems c; distance_ := distance_ c; added := added c;
     points := points c; lastElement := lastElement c; pathLine := pathLine c;
     previewLine := previewLine c; previewTooltip := v;
     previewAt := position; previewShown := on;
     cursor := cursor c; mousemove := mousemove c |}.

(** The cursor of the map container and the [mousemove] listener. *)
Definition set_pointer (v : string) (listener : bool) (c : MeasureControl)
    : MeasureControl :=
  {| isSelected := isSelected c; options := options c; state := state c;
     pathItems := pathItems c; distance_ := distance_ c; added := added c;
     points := points c; lastElement := lastElement c; pathLine := pathLine c;
     previewLine := previewLine c; previewTooltip := previewTooltip c;
     previewAt := previewAt c; previewShown := previewShown c;
     cursor := v; mousemove := listener |}.

Definition getContent (c : MeasureControl) (t : number) : string :=
  Number.toFixed t 1 +:+ " "
  +:+ the_string (nullish (get (options c) "unit") (get C.map.default "unit")).

Definition getTooltip (c : MeasureControl) (t : bool) : Tooltip :=
  {| permanent := t; content := getContent c (distance_ c) |}.

Definition origin : LatLng := {| lat := Number.ofZ 0; lng := Number.ofZ 0 |}.

(** [new MeasureControl(...)] *)
Definition create : MeasureControl :=
  {| isSelected := false;
     options := VObject (<["src" := VString ""]>
                  (<["defaultZoom" := get C.map.default "minZoom"]>
                     (own_props C.map.default)));
     state := Ready; pathItems := []; distance_ := Number.ofZ 0;
     added := false; points := []; lastElement := None;
     pathLine := []; previewLine := [];
     previewTooltip := {| permanent := true; content := "" |};
     previewAt := origin; previewShown := false;
     cursor := ""; mousemove := false |}.

Definition updateSettings (n : value) (c : MeasureControl) : MeasureControl :=
  set_options (VObject (own_props n ∪ own_props (options c))) c.

Definition onAdded (c : MeasureControl) : MeasureControl :=
  let c := set_added true c in
  let c := set_pathLine [] c in
  let c := set_previewLine [] c in
  set_preview (getTooltip c true) origin (previewShown c) c.

(** Changes to one circle marker. *)
Definition stop_listening (p : CircleMarker) : CircleMarker :=
  {| at_ := at_ p; listening := false; shown := shown p; tooltip := tooltip p |}.
Definition hide (p : CircleMarker) : CircleMarker :=
  {| at_ := at_ p; listening := listening p; shown := false; tooltip := tooltip p |}.
Definition bindTooltip (t : Tooltip) (p : CircleMarker) : CircleMarker :=
  {| at_ := at_ p; listening := listening p; shown := shown p; tooltip := Some t |}.

(** The click listener of the last element is removed. *)
Definition cleanLastElement (c : MeasureControl) : MeasureControl :=
  match lastElement c with
  | Some i => set_points (alter stop_listening i (points c)) c
  | None => c
  end.

Definition resetPath (c : MeasureControl) : MeasureControl :=
  let c := set_pathItems [] c in
  let c := set_distance (Number.ofZ 0) c in
  let c := cleanLastElement c in
  let c := set_points (map hide (points c)) c in
  let c := set_pathLine [] c in
  let c := set_previewLine [] c in
  set_preview (previewTooltip c) (previewAt c) false c.

(** A new circle marker at [t], on the point layer and listening to clicks:
    its index and the control. *)
Definition getCircleMarker (t : LatLng) (c : MeasureControl) : nat * MeasureControl :=
  (length (points c),
   set_points
     (points c ++ [ {| at_ := t; listening := true; shown := true; tooltip := None |} ])
     c).

(** The scale of the map, as the tool reads it from its options. *)
Definition scale (c : MeasureControl) : number :=
  Number.parseFloat (toString (get (options c) "scale")).

Definition renderPath (c : MeasureControl) : MeasureControl :=
  let c := cleanLastElement c in
  let c := set_pathLine (pathItems c) c in
  match last (pathItems c) with
  | Some t =>
      let '(marker, c) := getCircleMarker t c in
      let c := set_lastElement (Some marker) c in
      match last (removelast (pathItems c)) with
      | Some o =>
          set_distance
            (Number.add (distance_ c) (Number.mul (distance t o) (scale c))) c
      | None => c
      end
  | None => c
  end.

Definition renderPreview (t : LatLng) (c : MeasureControl) : MeasureControl :=
  match state c, last (pathItems c) with
  | Measuring, Some i =>
      let c := set_previewLine [i; t] c in
      set_preview
        {| permanent := permanent (previewTooltip c);
           content :=
             getContent c
               (Number.add (distance_ c) (Number.mul (distance i t) (scale c))) |}
        t (previewShown c) c
  | _, _ => c
  end.

(** The click listener of the circle marker [i]: it runs while it is
    registered on a marker of the point layer. *)
Definition vertexClicked (i : nat) (c : MeasureControl) : MeasureControl :=
  match points c !! i with
  | Some p => if listening p && shown p then set_state Finishing c else c
  | None => c
  end.

Definition mapClicked (t : LatLng) (c : MeasureControl) : Exc MeasureControl :=
  if negb (added c) then Throw (ErrorOf "Line layer not initialised")
  else
    match state c with
    | Ready | Measuring =>
        let c := set_state Measuring c in
        let c := set_pathItems (pathItems c ++ [t]) c in
        let c := renderPath c in
        let c := set_preview (previewTooltip c) (previewAt c) true c in
        Ok (renderPreview t c)
    | Finishing =>
        let c := set_state Done c in
        let c :=
          match lastElement c with
          | Some i => set_points (alter (bindTooltip (getTooltip c true)) i (points c)) c
          | None => c
          end in
        Ok (set_preview (previewTooltip c) (previewAt c) false c)
    | Done =>
        let c := resetPath c in
        Ok (set_state Ready c)
    end.

Definition onSelected (c : MeasureControl) : MeasureControl :=
  set_pointer "crosshair" true c.

Definition onDeselected (c : MeasureControl) : MeasureControl :=
  let c := set_pointer "" false c in
  let c := resetPath c in
  set_state Ready c.

(** [SubControl.setSelected] *)
Definition setSelected (n : bool) (c : MeasureControl) : MeasureControl :=
  if Bool.eqb (isSelected c) n then c
  else
    let c := set_isSelected n c in
    if n then onSelected c else onDeselected c.

(** *** Initialisation *)

Record MapInstance : Type := {
  bounds : number * number;
  minZoom : number;
  maxZoom : number;
  zoomDelta : number;
  zoom : number;
  settings : value;
  placed : list (list number);
}.

(** Leaflet, as far as the script depends on what it answers. *)
Module L.

(** [L.marker(latlng)] for an array of numbers: a latitude or a longitude
    that is [NaN] is refused. *)
Definition marker (latlng : list number) : Exc (list number) :=
  match latlng with
  | lat :: lng :: _ =>
      if Number.isNaN lat || Number.isNaN lng
      then Throw (ErrorOf ("Invalid LatLng object: (" +:+ Number.toString lat
                           +:+ ", " +:+ Number.toString lng +:+ ")"))
      else Ok latlng
  | _ => Ok latlng
  end.

End L.

(** [addMarker(e, n)]: the place of the marker on the map. *)
Definition addMarker (e : value) : Exc (list number) :=
  coordinates ← parseCoordinates (the_string (get e "coordinates"));
  L.marker coordinates.

(** [initialiseMap(e, n)] on the data set [t] of the container [e];
    [getImageMeta] answers with the natural width and height of the image,
    or fails.  The result is [Ok None] when the function returns before
    the image is asked for.  The other calls of Leaflet are taken to
    return. *)
Definition initialiseMap (getImageMeta : string -> Exc (Z * Z))
    (t : value) (n : list value) : Exc (option MapInstance) :=
  if negb (isMapDataSet t) then Ok None
  else
    o ← getImageMeta (the_string (get t "src"));
    coordinates ← mapM addMarker n;
    mret (Some
      {| bounds := (Number.ofZ (snd o), Number.ofZ (fst o));
         minZoom := Number.parseFloat (the_string (get t "minZoom"));
         maxZoom := Number.parseFloat (the_string (get t "maxZoom"));
         zoomDelta := Number.parseFloat (the_string (get t "zoomDelta"));
         zoom := Number.parseFloat (the_string (get t "defaultZoom"));
         settings := t;
         placed := coordinates |}).

(** *** The control bar *)

(** The two controls the bar registers.  A [PanControl] has only the
    fields of [SubControl]; a [MeasureControl] is as above.  Both override
    [onAdded] and [mapClicked], which throw in [SubControl] itself; the
    buttons are left out. *)
Inductive SubControl : Type :=
  | Pan (index : nat) (isSelected : bool) (options : value)
  | Measure (index : nat) (control : MeasureControl).

Module SubControl.

Definition index (s : SubControl) : nat :=
  match s with Pan i _ _ | Measure i _ => i end.

Definition isSelected (s : SubControl) : bool :=
  match s with
  | Pan _ selected _ => selected
  | Measure _ c => Client.isSelected c
  end.

(** [setSelected]; [onSelected] and [onDeselected] do nothing in a
    [PanControl]. *)
Definition setSelected (n : bool) (s : SubControl) : SubControl :=
  match s with
  | Pan i selected o => if Bool.eqb selected n then s else Pan i n o
  | Measure i c => Measure i (Client.setSelected n c)
  end.

Definition onAdd (s : SubControl) : SubControl :=
  match s with
  | Pan _ _ _ => s
  | Measure i c => Measure i (onAdded c)
  end.

Definition updateSettings (n : value) (s : SubControl) : SubControl :=
  match s with
  | Pan i selected o => Pan i selected (VObject (own_props n ∪ own_props o))
  | Measure i c => Measure i (Client.updateSettings n c)
  end.

Definition mapClicked (l : LatLng) (s : SubControl) : Exc SubControl :=
  match s with
  | Pan _ _ _ => Ok s
  | Measure i c => c' ← Client.mapClicked l c; mret (Measure i c')
  end.

End SubControl.

(** [new PanControl(l)] and [new MeasureControl(l)] for [l.index = index]. *)
Definition newPanControl (index : nat) : SubControl := Pan index false (options create).
Definition newMeasureControl (index : nat) : SubControl := Measure index create.

Record ControlContainer : Type := {
  controls : list SubControl;
  activeIndex : nat;
}.

Module ControlContainer.

(** [new ControlContainer()] *)
Definition create : ControlContainer := {| controls := []; activeIndex := 0 |}.

(** [registerSubControl(t, o)], for the class [t]. *)
Definition registerSubControl (t : nat -> SubControl) (k : ControlContainer)
    : ControlContainer :=
  {| controls := controls k ++ [t (length (controls k))];
     activeIndex := activeIndex k |}.

(** The callback [r] each control gets as its [onSelectCallback]. *)
Definition onSelectCallback (s : nat) (k : ControlContainer) : ControlContainer :=
  let cs := alter (SubControl.setSelected false) (activeIndex k) (controls k) in
  let cs := alter (SubControl.setSelected true) s cs in
  {| controls := cs; activeIndex := s |}.

Definition onAdd (k : ControlContainer) : ControlContainer :=
  let k := registerSubControl newPanControl k in
  let k := registerSubControl newMeasureControl k in
  let cs := map SubControl.onAdd (controls k) in
  let cs := alter (SubControl.setSelected true) (activeIndex k) cs in
  {| controls := cs; activeIndex := activeIndex k |}.

(** The listener of the clicks on the map. *)
Definition click (l : LatLng) (k : ControlContainer) : Exc ControlContainer :=
  cs ← mapM (fun s => if SubControl.isSelected s then SubControl.mapClicked l s else Ok s)
        (controls k);
  mret {| controls := cs; activeIndex := activeIndex k |}.

(** The click listener of the button of the control at position [i]. *)
Definition buttonClicked (i : nat) (k : ControlContainer) : ControlContainer :=
  match controls k !! i with
  | Some s => onSelectCallback (SubControl.index s) k
  | None => k
  end.

Definition updateSettings (t : value) (k : ControlContainer) : ControlContainer :=
  {| controls := map (SubControl.updateSettings t) (controls k);
     activeIndex := activeIndex k |}.

Definition onRemove (k : ControlContainer) : ControlContainer :=
  {| controls := []; activeIndex := activeIndex k |}.

End ControlContainer.

End Client.

(** ** Notions used to state the properties *)

(** [value] brought into the interval from [min] to [max]. *)
Definition clamped (value min max : number) : number :=
  if Number.ltb value min then min
  else if Number.ltb max value then max
  else value.

(** The larger of two numbers. *)
Definition larger (a b : number) : number := if Number.ltb a b then b else a.

(** The declared value of a numeric field, or [d] when the field is absent. *)
Definition declared_or (mapData : value) (key : string) (d : number) : number :=
  match get mapData key with
  | VNumber n => n
  | _ => d
  end.

Definition string_or_absent (v : value) : Prop :=
  v = VUndefined \/ exists s, v = VString s.

Definition finite_or_absent (v : value) : Prop :=
  v = VUndefined \/ exists n, v = VNumber n /\ Number.isFinite n = true.

(** A field is present when reading it gives something other than
    [undefined], and absent otherwise. *)
Definition present (value : value) (key : string) : Prop := get value key <> VUndefined.
Definition absent (value : value) (key : string) : Prop := get value key = VUndefined.

(** Acceptance by a schema in the words of the claim: a non-empty record in
    which every listed field is present and satisfies its predicate, or is
    absent and not required. *)
Definition accepts_as_claimed (schema : gmap string SchemaEntry) (value : value) : Prop :=
  isNonEmptyObject value = true /\
  forall key entry, schema !! key = Some entry ->
    (present value key /\ validator entry (get value key) = Ok true)
    \/ (absent value key /\ required entry = false).


(** The registry once [buildMarkerData] has run over [files], in order;
    the pass ends with the first call that throws. *)
Definition registry_after (files : list VFile) : Exc (gmap string (list value)) :=
  foldM (fun markerMap file => buildMarkerData file markerMap)
    LEAFLET_MAP_PLUGIN_DATA files.

(** What holds of every registry [buildMarkerData] builds: the implicit
    bucket exists and holds the markers without a (non-empty) [mapName], or
    named after the bucket itself; every other bucket holds markers named
    after it; no bucket has the name of an inherited property. *)
Definition registry_ok (markerMap : gmap string (list value)) : Prop :=
  is_Some (markerMap !! "notDefinedMap")
  /\ (forall r, r ∈ default [] (markerMap !! "notDefinedMap") ->
        truthy (get r "mapName") = false \/ get r "mapName" = VString "notDefinedMap")
  /\ (forall key bucket r, markerMap !! key = Some bucket -> key <> "notDefinedMap" ->
        r ∈ bucket -> get r "mapName" = VString key /\ key <> "")
  /\ (forall key, is_Some (markerMap !! key) -> inherited key = false).

(** The nodes of a tree: the tree itself and the nodes below it. *)
Fixpoint nodes (tree : Node) : list Node :=
  match tree with
  | mkNode _ _ _ _ kids =>
      tree :: match kids with
              | None => []
              | Some kids =>
                  (fix all (kids : list Node) : list Node :=
                     match kids with
                     | [] => []
                     | kid :: rest => nodes kid ++ all rest
                     end) kids
              end
  end.

(** A fenced block tagged with the discriminator [base]. *)
Definition is_base_block (node : Node) : bool :=
  bool_decide (tagName node = Some "code") && is_string (prop node "dataLanguage") "base".


(** The events the measure tool reacts to: a click on the map, which the
    control bar passes to the selected tools, a click on a circle marker, a
    move of the mouse over the map, the selection or deselection of the
    tool, and new settings. *)
Inductive MeasureEvent : Type :=
  | MapClick (t : Client.LatLng)
  | VertexClick (i : nat)
  | Move (t : Client.LatLng)
  | Select (n : bool)
  | Settings (n : value).

Definition react (e : MeasureEvent) (c : Client.MeasureControl)
    : Exc Client.MeasureControl :=
  match e with
  | MapClick t => if Client.isSelected c then Client.mapClicked t c else Ok c
  | VertexClick i => Ok (Client.vertexClicked i c)
  | Move t => Ok (if Client.mousemove c then Client.renderPreview t c else c)
  | Select n => Ok (Client.setSelected n c)
  | Settings n => Ok (Client.updateSettings n c)
  end.

(** The states of the tool after [onAdded] and any sequence of events. *)
Inductive reachable : Client.MeasureControl -> Prop :=
  | reachable_added (options : value) :
      reachable (Client.onAdded (Client.set_options options Client.create))
  | reachable_react (e : MeasureEvent) (c c' : Client.MeasureControl) :
      reachable c -> react e c = Ok c' -> reachable c'.

(** What holds in every reachable state: the layers exist; in [Ready] the
    path is empty, the distance is 0 and no circle marker is shown or
    listens; in the other states the last element is a shown, listening
    circle marker at the last vertex of the path; no other circle marker
    listens. *)
Definition measure_ok (c : Client.MeasureControl) : Prop :=
  Client.added c = true
  /\ (Client.state c = Client.Ready ->
        Client.pathItems c = [] /\ Client.distance_ c = Number.ofZ 0
        /\ Forall (fun p => Client.shown p = false /\ Client.listening p = false)
             (Client.points c))
  /\ (Client.state c <> Client.Ready ->
        exists i p, Client.lastElement c = Some i /\ Client.points c !! i = Some p
          /\ last (Client.pathItems c) = Some (Client.at_ p)
          /\ Client.shown p = true /\ Client.listening p = true)
  /\ (forall j p, Client.points c !! j = Some p -> Client.listening p = true ->
        Client.lastElement c = Some j).

(** ** Notions used to state the further properties *)

(** The strings a pattern matches, as a relation. *)
Module RegExpSem.
Import RegExp.

Inductive lang : re -> list ascii -> Prop :=
  | lang_eps : lang Eps []
  | lang_class p c : p c = true -> lang (Class p) [c]
  | lang_cat a b l1 l2 : lang a l1 -> lang b l2 -> lang (Cat a b) (l1 ++ l2)
  | lang_alt_l a b l : lang a l -> lang (Alt a b) l
  | lang_alt_r a b l : lang b l -> lang (Alt a b) l
  | lang_star_nil a : lang (Star a) []
  | lang_star_cons a l1 l2 : lang a l1 -> lang (Star a) l2 -> lang (Star a) (l1 ++ l2).

End RegExpSem.

Definition is_hex (c : ascii) : bool :=
  is_digit c || char_in "a" "f" c || char_in "A" "F" c.

(** [l] holds only characters of the class [p]. *)
Definition all_in (p : ascii -> bool) (l : list ascii) : Prop :=
  Forall (fun c => p c = true) l.

(** A positive finite number, or nothing. *)
Definition positive_or_absent (v : value) : Prop :=
  v = VUndefined
  \/ exists n, v = VNumber n /\ Number.isFinite n = true
               /\ Number.ltb (Number.ofZ 0) n = true.

(** The shapes the validators of the plugin accept. *)
Definition ends_with_three_hex_digits (s : string) : Prop :=
  exists pre a b c, chars s = pre ++ [a; b; c]
    /\ is_hex a = true /\ is_hex b = true /\ is_hex c = true.

Definition holds_a_lowercase_letter (s : string) : Prop :=
  exists pre c post, chars s = pre ++ c :: post /\ is_lower c = true.

(** [l] is made of white space characters only. *)
Inductive white : list ascii -> Prop :=
  | white_nil : white []
  | white_cons (l rest : list ascii) :
      after_space l = Some rest -> white rest -> white l.

Definition holds_a_coordinate_pair (s : string) : Prop :=
  exists pre d1 w1 w2 d2 post,
    chars s = pre ++ d1 :: w1 ++ ","%char :: w2 ++ d2 :: post
    /\ is_digit d1 = true /\ white w1 /\ white w2 /\ is_digit d2 = true.

(** A field that is absent, or a string of the shape [P]. *)
Definition string_like_or_absent (P : string -> Prop) (v : value) : Prop :=
  v = VUndefined \/ exists s, v = VString s /\ P s.

(** An image source as a view can give it: a non-empty string, or a
    number. *)
Definition image_source (v : value) : Prop :=
  (exists s, v = VString s /\ s <> "") \/ (exists n, v = VNumber n).

(** The record [parseMarkerFromEntry] returns for an entry it accepts. *)
Definition marker_record (entry name : value) (link : string) : value :=
  VObject (<["link" := VString link]> (<["name" := name]> (own_props entry))).

(** The bucket of the registry a marker record goes to. *)
Definition bucket_of (marker : value) : string :=
  if truthy (get marker "mapName") then the_string (get marker "mapName")
  else "notDefinedMap".

(** The marker records a document contributes: those of the entries of its
    [marker] list that are accepted, in order; none when the document has
    no slug, no title or no such list. *)
Definition markers_of (file : VFile) : list value :=
  match slug file, get (frontmatter file) "marker" with
  | Some slug, VArray entries =>
      if truthy (VString slug) && truthy (get (frontmatter file) "title")
      then omap (fun entry =>
                   match parseMarkerFromEntry entry (get (frontmatter file) "title") slug with
                   | Ok (Some marker) => Some marker
                   | _ => None
                   end)
             entries
      else []
  | _, _ => []
  end.

(** The markers of [l] that go to the bucket [key]. *)
Definition going_to (key : string) (l : list value) : list value :=
  List.filter (fun marker => String.eqb (bucket_of marker) key) l.

(** The unit a map declaration renders: its own, or the default. *)
Definition rendered_unit (mapData : value) : string :=
  the_string (nullish (get mapData "unit") (VString C.map.default.unit)).

(** The number of commas of a string. *)
Definition commas (s : string) : nat :=
  length (List.filter (Ascii.eqb ",") (chars s)).



(** The segments of a path, in order. *)
Fixpoint segments (l : list Client.LatLng) : list (Client.LatLng * Client.LatLng) :=
  match l with
  | a :: ((b :: _) as rest) => (a, b) :: segments rest
  | _ => []
  end.

(** The length of a path on a map of the given scale: the lengths of its
    segments, scaled, added up from the first one. *)
Definition path_length (scale : number) (l : list Client.LatLng) : number :=
  fold_left
    (fun acc '(o, t) => Number.add acc (Number.mul (Client.distance t o) scale))
    (segments l) (Number.ofZ 0).

(** Clicks on the map at the points [ps], one after the other. *)
Fixpoint clickAll (ps : list Client.LatLng) (c : Client.MeasureControl)
    : Exc Client.MeasureControl :=
  match ps with
  | [] => Ok c
  | p :: rest => c' ← Client.mapClicked p c; clickAll rest c'
  end.

(** The nodes below a tree: those the visitor of the transform can be
    called on. *)
Definition below (tree : Node) : list Node := tail (nodes tree).

Section Children.

Variable load : string -> Exc value.
Variable resolveRelative : string -> string -> string.
Variable transformLink : string -> string -> list string -> string.

(** What [visit] puts in the place of a child: the element its visitor
    returns, or else the child with its own children visited. *)
Definition visited_child (markerMap : gmap string (list value)) (ctx : BuildCtx)
    (file : VFile) (node : Node) : Exc Node :=
  leafletElement ←
    (if bool_decide (tagName node = Some "code")
     then visitor load resolveRelative transformLink markerMap ctx file node
     else mret None);
  node' ← visit load resolveRelative transformLink markerMap ctx file node;
  mret (default node' leafletElement).

End Children.

(** The events the control bar reacts to: a click on the button of a
    control, a click on the map, a click on a circle marker of the measure
    tool, a move of the mouse over the map, and new settings. *)
Inductive BarEvent : Type :=
  | ButtonClick (i : nat)
  | BarMapClick (l : Client.LatLng)
  | BarVertexClick (j : nat)
  | MouseMove (l : Client.LatLng)
  | BarSettings (t : value).

(** [f] on the measure tools of the bar. *)
Definition on_measure (f : Client.MeasureControl -> Client.MeasureControl)
    (k : Client.ControlContainer) : Client.ControlContainer :=
  {| Client.controls :=
       map (fun s => match s with
                     | Client.Measure i c => Client.Measure i (f c)
                     | _ => s
                     end) (Client.controls k);
     Client.activeIndex := Client.activeIndex k |}.

Definition handle (e : BarEvent) (k : Client.ControlContainer)
    : Exc Client.ControlContainer :=
  match e with
  | ButtonClick i => Ok (Client.ControlContainer.buttonClicked i k)
  | BarMapClick l => Client.ControlContainer.click l k
  | BarVertexClick j => Ok (on_measure (Client.vertexClicked j) k)
  | MouseMove l =>
      Ok (on_measure
            (fun c => if Client.mousemove c then Client.renderPreview l c else c) k)
  | BarSettings t => Ok (Client.ControlContainer.updateSettings t k)
  end.

(** The states of the bar after [onAdd] and any sequence of events. *)
Inductive bar_reachable : Client.ControlContainer -> Prop :=
  | bar_added :
      bar_reachable (Client.ControlContainer.onAdd Client.ControlContainer.create)
  | bar_handle (e : BarEvent) (k k' : Client.ControlContainer) :
      bar_reachable k -> handle e k = Ok k' -> bar_reachable k'.

(** What holds of the bar in every reachable state: it holds the pan tool
    and the measure tool, in this order; the tool at [activeIndex], and no
    other, is selected; the mouse is followed while the measure tool is
    selected; the measure tool is [Ready] while it is not selected, and in
    a state [measure_ok]. *)
Definition bar_ok (k : Client.ControlContainer) : Prop :=
  exists selected options c,
    Client.controls k = [Client.Pan 0 selected options; Client.Measure 1 c]
    /\ (Client.activeIndex k = 0%nat \/ Client.activeIndex k = 1%nat)
    /\ selected = Nat.eqb (Client.activeIndex k) 0
    /\ Client.isSelected c = Nat.eqb (Client.activeIndex k) 1
    /\ Client.mousemove c = Client.isSelected c
    /\ (Client.isSelected c = false -> Client.state c = Client.Ready)
    /\ measure_ok c.

(** ** Sample documents *)

Module Sample.

Definition obj (fields : list (string * value)) : value :=
  VObject (list_to_map fields).
Definition num (z : Z) : value := VNumber (Number.ofZ z).

(** [{type: "leaflet-map", image: "town.png"}] *)
Definition view_without_scale : value :=
  obj [("type", VString "leaflet-map"); ("image", VString "town.png")].

(** [{type: "leaflet-map", image: "town.png", scale: 1}] *)
Definition view_town : value :=
  obj [("type", VString "leaflet-map"); ("image", VString "town.png");
       ("scale", num 1)].

(** [{type: "leaflet-map", scale: 1}]: the image is missing. *)
Definition view_without_image : value :=
  obj [("type", VString "leaflet-map"); ("scale", num 1)].



(** [{..., minZoom: 0, maxZoom: 2, defaultZoom: 5}] *)
Definition view_zoom_5 : value :=
  obj [("type", VString "leaflet-map"); ("image", VString "town.png");
       ("scale", num 1); ("minZoom", num 0); ("maxZoom", num 2);
       ("defaultZoom", num 5)].

(** [{..., maxZoom: 1, minZoom: 3}] *)
Definition view_max_below_min : value :=
  obj [("type", VString "leaflet-map"); ("image", VString "town.png");
       ("scale", num 1); ("maxZoom", num 1); ("minZoom", num 3)].

(** [{..., scale: 2, unit: "ft"}] *)
Definition view_feet : value :=
  obj [("type", VString "leaflet-map"); ("image", VString "town.png");
       ("minZoom", num 1); ("maxZoom", num 3); ("defaultZoom", num 1);
       ("scale", num 2); ("unit", VString "ft")].

Definition block (views : list value) : value := obj [("views", VArray views)].

(** A fenced block tagged [base] with the given body. *)
Definition code_block (body : string) : Node :=
  mkNode "element" (Some "code") None
    (Some {[ "dataLanguage" := VString "base" ]})
    (Some [mkNode "text" None (Some body) None None]).

Definition root (kids : list Node) : Node :=
  mkNode "root" None None None (Some kids).

(** A loader that knows the documents of [table] by their text and throws
    on any other text, as the YAML loader does on text it cannot parse. *)
Definition load_from (table : list (string * value)) (text : string) : Exc value :=
  match List.find (fun entry => String.eqb (fst entry) text) table with
  | Some entry => Ok (snd entry)
  | None => Throw (YAMLException "end of the stream or a document separator is expected")
  end.

Definition resolveRelative (current target : string) : string := target.
Definition transformLink (current target : string) (all : list string) : string :=
  target.

Definition ctx : BuildCtx := {| allSlugs := ["index"; "inn"] |}.

Definition page : VFile :=
  {| path := "content/index.md"; slug := Some "index"; frontmatter := VUndefined |}.

(** A document titled [Inn] that declares the markers [entries]. *)
Definition inn (entries : list value) : VFile :=
  {| path := "content/inn.md"; slug := Some "inn";
     frontmatter := obj [("title", VString "Inn"); ("marker", VArray entries)] |}.


(** A schema with one required field that any value satisfies. *)
Definition lenient_schema : gmap string SchemaEntry :=
  {[ "f" := {| validator := fun _ => Ok true; required := true |} ]}.

Definition getImageMeta (src : string) : Exc (Z * Z) := Ok (800, 600).

End Sample.

Module Scenario.
Import Sample.

(** The text and the document of a block with the views [invalid, valid]. *)
Definition two_views_text : string :=
  "views: [{type: leaflet-map, scale: 1}, {type: leaflet-map, image: town.png, scale: 1}]".
Definition two_views : value := block [view_without_image; view_town].

Definition no_scale_text : string :=
  "views: [{type: leaflet-map, image: town.png}]".
Definition no_scale : value := block [view_without_scale].

Definition feet_text : string :=
  "views: [{type: leaflet-map, image: town.png, minZoom: 1, maxZoom: 3, defaultZoom: 1, scale: 2, unit: ft}]".
Definition feet : value := block [view_feet].

Definition town_text : string :=
  "views: [{type: leaflet-map, image: town.png, scale: 1}]".
Definition town : value := block [view_town].


Definition load : string -> Exc value :=
  load_from [ (two_views_text, two_views); (no_scale_text, no_scale);
              (feet_text, feet); (town_text, town) ].


(** The registry after the document [inn] with the markers [entries]. *)
Definition registry_of (entries : list (list (string * value)))
    : Exc (gmap string (list value)) :=
  registry_after [inn (map obj entries)].



(** A view whose [mapName] is the name of an inherited property, and a
    loader that answers with it. *)
Definition view_constructor : value :=
  obj [("type", VString "leaflet-map"); ("mapName", VString "constructor");
       ("image", VString "town.png"); ("scale", num 1)].
Definition load_constructor : string -> Exc value :=
  load_from [("constructor", block [view_constructor])].

(** A record with the one field [g]. *)
Definition record_g : value := obj [("g", VString "x")].


(** The registry after a document with a marker at [coordinates]. *)
Definition registry_with (coordinates : string) : Exc (gmap string (list value)) :=
  registry_after [inn [obj [("coordinates", VString coordinates)]]].

(** The map container rendered for the block [text] on [page], with the
    registry an extraction pass has returned. *)
Definition container_of (registry : Exc (gmap string (list value))) (text : string)
    : option Node :=
  match registry with
  | Ok markerMap =>
      match buildMapData load resolveRelative transformLink markerMap ctx page
              (code_block text) with
      | Ok (Some wrapper) => head (default [] (children wrapper))
      | _ => None
      end
  | Throw _ => None
  end.

Definition point (a b : Z) : Client.LatLng :=
  {| Client.lat := Number.ofZ a; Client.lng := Number.ofZ b |}.

(** The measure tool of a map with scale [1] and unit [km], added to the
    map and selected. *)
Definition tool : Client.MeasureControl :=
  Client.setSelected true
    (Client.updateSettings (obj [("scale", VString "1"); ("unit", VString "km")])
       (Client.onAdded Client.create)).

(** The clicks of the measurement scenario: two points, the last vertex,
    and two more clicks on the map. *)
Definition measured : Exc (list Client.MeasureControl) :=
  c1 ← Client.mapClicked (point 0 0) tool;
  c2 ← Client.mapClicked (point 3 4) c1;
  let c3 := Client.vertexClicked 1 c2 in
  c4 ← Client.mapClicked (point 3 4) c3;
  c5 ← Client.mapClicked (point 7 7) c4;
  mret [c1; c2; c3; c4; c5].

End Scenario.

Module Further.
Import Sample.

(** A marker entry with every field, and the record stored for it. *)
Definition full_entry : value :=
  obj [("coordinates", VString "12, 34"); ("icon", VString "lucide-map-pin");
       ("colour", VString "#ff0000"); ("minZoom", num 1); ("mapName", VString "town")].

(** A document whose [marker] is one object, not a list. *)
Definition single_marker : VFile :=
  {| path := "content/inn.md"; slug := Some "inn";
     frontmatter :=
       obj [("title", VString "Inn");
            ("marker", obj [("coordinates", VString "1,2")])] |}.

(** A page without a slug. *)
Definition page_without_slug : VFile :=
  {| path := "content/index.md"; slug := None; frontmatter := VUndefined |}.

(** A tree with one block that holds the map [town]. *)
Definition tree_with_map : Node := root [code_block Scenario.town_text].

(** The data set of a map with scale 2 and unit [ft]. *)
Definition feet_dataset : value :=
  match Scenario.container_of (Ok LEAFLET_MAP_PLUGIN_DATA) Scenario.feet_text with
  | Some container => dataset container
  | None => VUndefined
  end.

End Further.

(** * Lemmas *)


(** ** Order on numbers *)

Section NumberOrder.
Import Number.

Lemma compare_opp (a b : number) (c : comparison) :
  SFcompare a b = Some c -> SFcompare b a = Some (CompOpp c).
Proof.
  destruct a as [sa|sa| |sa ma ea], b as [sb|sb| |sb mb eb]; simpl;
    try discriminate;
    try (destruct sa; try destruct sb; intros [= <-]; reflexivity).
  rewrite (Z.compare_antisym ea eb), !Pos.compare_cont_spec; simpl.
  rewrite (Pos.compare_antisym ma mb).
  destruct sa, sb; intros [= <-]; try reflexivity;
    destruct (ea ?= eb); simpl; try reflexivity;
    destruct (ma ?= mb)%positive; reflexivity.
Qed.

Lemma compare_total (a b : number) :
  isNaN a = false -> isNaN b = false -> exists c, SFcompare a b = Some c.
Proof.
  destruct a, b; simpl; try discriminate; intros _ _; eauto.
Qed.

Lemma compare_refl (a : number) : isNaN a = false -> SFcompare a a = Some Eq.
Proof.
  destruct a as [s|s| |s m e]; simpl; try discriminate; intros _;
    try (destruct s; reflexivity).
  rewrite Z.compare_refl, Pos.compare_cont_spec, Pos.compare_refl.
  destruct s; reflexivity.
Qed.

Lemma finite_not_nan (a : number) : isFinite a = true -> isNaN a = false.
Proof. destruct a; simpl; congruence. Qed.

(** What [Math.max] returns on two numbers that compare. *)
Lemma max_cases (a b : number) :
  isNaN a = false -> isNaN b = false ->
  (ltb a b = true /\ max a b = b)
  \/ (ltb a b = false /\ eqb (max a b) a = true /\ (max a b = a \/ max a b = b)).
Proof.
  intros Ha Hb. unfold max. rewrite Ha, Hb; simpl.
  destruct (ltb a b) eqn:Hlt; [left; auto|right; split; [reflexivity|]].
  destruct (is_neg_zero a && is_pos_zero b) eqn:Hz.
  - destruct a as [[]| | |], b as [[]| | |]; simpl in Hz; try discriminate.
    split; [reflexivity|auto].
  - split; [|auto]. unfold eqb, SFeqb. now rewrite compare_refl.
Qed.

Lemma min_cases (a b : number) :
  isNaN a = false -> isNaN b = false ->
  (ltb b a = true /\ min a b = b)
  \/ (ltb b a = false /\ eqb (min a b) a = true /\ (min a b = a \/ min a b = b)).
Proof.
  intros Ha Hb. unfold min. rewrite Ha, Hb; simpl.
  destruct (ltb b a) eqn:Hlt; [left; auto|right; split; [reflexivity|]].
  destruct (is_pos_zero a && is_neg_zero b) eqn:Hz.
  - destruct a as [[]| | |], b as [[]| | |]; simpl in Hz; try discriminate.
    split; [reflexivity|auto].
  - split; [|auto]. unfold eqb, SFeqb. now rewrite compare_refl.
Qed.

Lemma not_ltb_leb (a b : number) :
  isNaN a = false -> isNaN b = false -> ltb a b = false -> leb b a = true.
Proof.
  intros Ha Hb. unfold ltb, leb, SFltb, SFleb.
  destruct (compare_total a b Ha Hb) as [c Hc].
  rewrite Hc, (compare_opp _ _ _ Hc). now destruct c.
Qed.

Lemma ltb_leb (a b : number) : ltb a b = true -> leb a b = true.
Proof.
  unfold ltb, leb, SFltb, SFleb. destruct (SFcompare a b) as [[]|]; congruence.
Qed.

Lemma leb_refl (a : number) : isNaN a = false -> leb a a = true.
Proof. intros Ha. unfold leb, SFleb. now rewrite compare_refl. Qed.

Lemma leb_not_ltb (a b : number) : leb a b = true -> ltb b a = false.
Proof.
  unfold ltb, leb, SFltb, SFleb.
  destruct (SFcompare a b) as [c|] eqn:Hc; [|discriminate].
  rewrite (compare_opp _ _ _ Hc). now destruct c.
Qed.

(** Two numbers that are [===] are the same number, or two zeros. *)
Lemma eqb_cases (a b : number) :
  eqb a b = true ->
  a = b \/ (exists s s', a = S754_zero s /\ b = S754_zero s').
Proof.
  unfold eqb, SFeqb.
  destruct a as [sa|sa| |sa ma ea], b as [sb|sb| |sb mb eb]; simpl;
    try discriminate; try (destruct sa; discriminate);
    try (destruct sb; discriminate).
  - intros _. right. eauto.
  - destruct sa, sb; try discriminate; auto.
  - rewrite Pos.compare_cont_spec; simpl.
    destruct sa, sb; try discriminate;
      destruct (ea ?= eb) eqn:He; try discriminate;
      destruct (ma ?= mb)%positive eqn:Hm; try discriminate;
      apply Z.compare_eq in He; apply Pos.compare_eq in Hm; subst; auto.
Qed.

Lemma eqb_compare_r (a a' b : number) :
  eqb a a' = true -> SFcompare b a = SFcompare b a'.
Proof.
  intros H. destruct (eqb_cases _ _ H) as [->|(s & s' & -> & ->)]; [reflexivity|].
  now destruct b.
Qed.

Lemma eqb_trans (a b c : number) :
  eqb a b = true -> eqb b c = true -> eqb a c = true.
Proof.
  intros Hab Hbc. unfold eqb, SFeqb in *.
  now rewrite <- (eqb_compare_r _ _ a Hbc).
Qed.

Lemma eqb_refl (a : number) : isNaN a = false -> eqb a a = true.
Proof. intros Ha. unfold eqb, SFeqb. now rewrite compare_refl. Qed.

Lemma max_not_nan (a b : number) :
  isNaN a = false -> isNaN b = false -> isNaN (max a b) = false.
Proof.
  intros Ha Hb.
  destruct (max_cases a b Ha Hb) as [[_ ->]|[_ [_ [-> | ->]]]]; assumption.
Qed.

Lemma max_ge_r (a b : number) :
  isNaN a = false -> isNaN b = false -> leb b (max a b) = true.
Proof.
  intros Ha Hb. destruct (max_cases a b Ha Hb) as [[_ ->]|[Hlt [_ [-> | ->]]]].
  - now apply leb_refl.
  - now apply not_ltb_leb.
  - now apply leb_refl.
Qed.

Lemma clamp_clamped (v lo hi : number) :
  isNaN v = false -> isNaN lo = false -> isNaN hi = false ->
  leb lo hi = true ->
  eqb (clamp v lo hi) (clamped v lo hi) = true
  /\ leb lo (clamp v lo hi) = true /\ leb (clamp v lo hi) hi = true.
Proof.
  intros Hv Hlo Hhi Hle. unfold clamp, clamped.
  pose proof (max_not_nan v lo Hv Hlo) as Hx.
  pose proof (max_ge_r v lo Hv Hlo) as Hxlo.
  set (x := max v lo) in *.
  assert (Hr : min x hi = x \/ min x hi = hi).
  { destruct (min_cases x hi Hx Hhi) as [[_ ->]|[_ [_ H]]]; auto. }
  split; [|split].
  - destruct (max_cases v lo Hv Hlo) as [[Hlt Hm]|[Hlt [He _]]]; fold x in Hm || fold x in He; rewrite Hlt.
    + rewrite Hm.
      destruct (min_cases lo hi Hlo Hhi) as [[Hc _]|[_ [He _]]]; [|exact He].
      now rewrite (leb_not_ltb _ _ Hle) in Hc.
    + assert (Hsame : ltb hi x = ltb hi v).
      { unfold ltb, SFltb. now rewrite (eqb_compare_r _ _ hi He). }
      rewrite <- Hsame.
      destruct (min_cases x hi Hx Hhi) as [[Hc ->]|[Hc [Hm _]]]; rewrite Hc.
      * now apply eqb_refl.
      * now apply (eqb_trans _ x).
  - destruct Hr as [-> | ->]; assumption.
  - destruct (min_cases x hi Hx Hhi) as [[_ ->]|[Hc [_ [-> | ->]]]].
    + now apply leb_refl.
    + now apply not_ltb_leb.
    + now apply leb_refl.
Qed.

End NumberOrder.

(** ** Calls in a loop *)

Section Loops.

Lemma mapM_Ok {A B} (f : A -> Exc B) (l : list A) (l' : list B) :
  mapM f l = Ok l' <-> Forall2 (fun x y => f x = Ok y) l l'.
Proof.
  revert l'. induction l as [|x l IH]; intros l'; simpl.
  - split; [intros [= <-]; constructor|intros H; now inversion H].
  - split.
    + destruct (f x) as [y|e] eqn:Hx; simpl; [|discriminate].
      destruct (mapM f l) as [ys|e] eqn:Hl; simpl; [|discriminate].
      intros [= <-]. constructor; [exact Hx|now apply IH].
    + intros H. inversion H as [|? y ? ys Hy Hys]; subst.
      apply IH in Hys. rewrite Hy, Hys. reflexivity.
Qed.

Lemma mapM_Throw {A B} (f : A -> Exc B) (l : list A) :
  (exists e, mapM f l = Throw e) <-> exists x, x ∈ l /\ exists e, f x = Throw e.
Proof.
  induction l as [|x l IH]; simpl.
  - split; [intros [e [=]]|intros (x & Hx & _); inversion Hx].
  - destruct (f x) as [y|e] eqn:Hx; simpl.
    + destruct (mapM f l) as [ys|e] eqn:Hl; simpl.
      * split; [intros [e [=]]|].
        intros (x' & Hin & e & He). apply elem_of_cons in Hin as [->|Hin]; [congruence|].
        destruct (proj2 IH) as [e' [=]]. eauto.
      * split; [|eauto]. intros _.
        destruct (proj1 IH) as (x' & Hin & He); [eauto|].
        exists x'. split; [now apply list_elem_of_further|exact He].
    + split; [|eauto]. intros _. exists x. split; [apply list_elem_of_here|eauto].
Qed.

(** A callback that returns on every element makes the loop return. *)
Lemma mapM_returns {A B} (f : A -> Exc B) (l : list A) :
  (forall x, x ∈ l -> exists y, f x = Ok y) -> exists ys, mapM f l = Ok ys.
Proof.
  intros H. destruct (mapM f l) as [ys|e] eqn:Hm; [eauto|].
  destruct (proj1 (mapM_Throw f l)) as (x & Hx & e' & He); [eauto|].
  destruct (H x Hx) as [y Hy]. congruence.
Qed.

Lemma mapM_pure {A B} (f : A -> Exc B) (g : A -> B) (l : list A) :
  (forall x, x ∈ l -> f x = Ok (g x)) -> mapM f l = Ok (map g l).
Proof.
  intros H. apply mapM_Ok. induction l as [|x l IH]; simpl; constructor.
  - apply H, list_elem_of_here.
  - apply IH. intros y Hy. apply H. now apply list_elem_of_further.
Qed.

(** The answers of a loop, where every call returns. *)
Lemma mapM_omap {A B} (f : A -> Exc (option B)) (l : list A) (ys : list (option B)) :
  mapM f l = Ok ys ->
  omap id ys
  = omap (fun x => match f x with Ok (Some y) => Some y | _ => None end) l.
Proof.
  intros H. apply mapM_Ok in H. induction H as [|x y l ys Hx _ IH]; [reflexivity|].
  cbn [omap list_omap]. rewrite Hx, IH. now destruct y.
Qed.

Lemma foldM_app {A S} (f : S -> A -> Exc S) (s : S) (l1 l2 : list A) :
  foldM f s (l1 ++ l2) = s' ← foldM f s l1; foldM f s' l2.
Proof.
  revert s. induction l1 as [|x l1 IH]; intros s; simpl; [reflexivity|].
  destruct (f s x) as [s'|e]; simpl; [apply IH|reflexivity].
Qed.

End Loops.

(** ** The schema validator *)

Lemma is_undefined_spec (v : value) : is_undefined v = true <-> v = VUndefined.
Proof. destruct v; simpl; split; congruence. Qed.

Lemma undefined_dec (v : value) : v = VUndefined \/ v <> VUndefined.
Proof. destruct v; auto; right; discriminate. Qed.

Lemma total_true (test : value -> bool) (v : value) :
  total test v = Ok true <-> test v = true.
Proof. unfold total. split; [now intros [= ->]|now intros ->]. Qed.

(** The answers are all [true] exactly when every call answers [true]. *)
Lemma every_answer {A} (f : A -> Exc bool) (l : list A) :
  (answers ← mapM f l; Ok (forallb (fun b : bool => b) answers)) = Ok true
  <-> forall x, x ∈ l -> f x = Ok true.
Proof.
  induction l as [|x l IH]; simpl.
  - split; [intros _ x Hx; inversion Hx|reflexivity].
  - destruct (f x) as [b|e] eqn:Hx; simpl.
    + destruct (mapM f l) as [ys|e] eqn:Hl; simpl in *.
      * destruct b; simpl.
        -- rewrite IH. split.
           ++ intros H y Hy. apply elem_of_cons in Hy as [->|Hy]; auto.
           ++ intros H y Hy. apply H. now apply list_elem_of_further.
        -- split; [discriminate|]. intros H.
           specialize (H x (list_elem_of_here _ _)). congruence.
      * split; [discriminate|]. intros H.
        assert (Hbad : Throw e = Ok true); [|discriminate].
        apply IH. intros y Hy. apply H. now apply list_elem_of_further.
    + split; [discriminate|]. intros H.
      specialize (H x (list_elem_of_here _ _)). congruence.
Qed.

(** What the generated validator computes. *)
Lemma schemaValidator_spec (schema : gmap string SchemaEntry) (value : value) :
  schemaValidatorFactory schema value = Ok true <->
  isNonEmptyObject value = true /\
  forall key entry, schema !! key = Some entry ->
    (get value key = VUndefined /\ required entry = false)
    \/ validator entry (get value key) = Ok true.
Proof.
  unfold schemaValidatorFactory.
  destruct (isNonEmptyObject value); cbn [negb];
    [|split; [discriminate|intros [? _]; discriminate]].
  rewrite every_answer. split.
  - intros H. split; [reflexivity|]. intros key entry Hk.
    specialize (H (key, entry) (proj2 (elem_of_map_to_list _ _ _) Hk)).
    cbv beta iota in H.
    destruct (is_undefined (get value key)) eqn:Hu; cbn [andb] in H; [|now right].
    destruct (required entry); cbn [negb] in H; [now right|].
    left. now apply is_undefined_spec in Hu.
  - intros [_ H] [key entry] Hin. apply elem_of_map_to_list in Hin.
    destruct (H _ _ Hin) as [[H1 H2]|H1].
    + rewrite H1, H2. reflexivity.
    + destruct (is_undefined (get value key) && negb (required entry)); auto.
Qed.

(** The generated validator returns when the validators of the schema
    return on the fields of the value. *)
Lemma schemaValidator_returns (schema : gmap string SchemaEntry) (value : value) :
  (forall key entry, schema !! key = Some entry ->
     exists b, validator entry (get value key) = Ok b) ->
  exists b, schemaValidatorFactory schema value = Ok b.
Proof.
  intros H. unfold schemaValidatorFactory.
  destruct (isNonEmptyObject value); cbn [negb]; [|eauto].
  destruct (mapM_returns
              (fun '(key, validate) =>
                 if is_undefined (get value key) && negb (required validate)
                 then Ok true else validator validate (get value key))
              (map_to_list schema)) as [ys Hys].
  - intros [key entry] Hin. apply elem_of_map_to_list in Hin.
    destruct (_ && _); [eauto|]. now apply (H key entry).
  - rewrite Hys. simpl. eauto.
Qed.

(** The validator of the markers throws nothing. *)
Lemma marker_schema_returns (entry : value) :
  exists b, SchemaValidator.marker entry = Ok b.
Proof.
  apply schemaValidator_returns. intros key e Hk.
  apply elem_of_list_to_map_2 in Hk.
  repeat (apply elem_of_cons in Hk as [[= -> ->]|Hk]);
    try (eexists; reflexivity).
  apply elem_of_nil in Hk. destruct Hk.
Qed.

(** ** The registry of markers *)

Section Registry.

Lemma stringValidator_spec (v : value) :
  stringValidator v = true -> exists s, v = VString s.
Proof.
  unfold stringValidator. destruct v; simpl; try discriminate. eauto.
Qed.

Lemma inherited_implicit : inherited "notDefinedMap" = false.
Proof. reflexivity. Qed.

Lemma registry_ok_init : registry_ok LEAFLET_MAP_PLUGIN_DATA.
Proof.
  unfold LEAFLET_MAP_PLUGIN_DATA. split; [|split; [|split]].
  - rewrite lookup_singleton_eq. eauto.
  - rewrite lookup_singleton_eq. simpl. intros r Hr. inversion Hr.
  - intros key bucket r Hk Hne. rewrite lookup_singleton_ne in Hk by congruence.
    discriminate.
  - intros key [b Hk]. destruct (decide (key = "notDefinedMap")) as [->|Hne].
    + reflexivity.
    + rewrite lookup_singleton_ne in Hk by congruence. discriminate.
Qed.

Lemma truthy_string (s : string) : truthy (VString s) = true <-> s <> "".
Proof.
  simpl. rewrite negb_true_iff. split.
  - intros H ->. discriminate.
  - intros H. apply String.eqb_neq. exact H.
Qed.

(** What [storeMarker] does in a registry that has the implicit bucket:
    the marker goes to the end of its bucket, which is created when there
    is none, unless the name of the bucket is that of an inherited
    property. *)
Lemma storeMarker_spec (markerMap : gmap string (list value)) (marker : value) :
  is_Some (markerMap !! "notDefinedMap") ->
  storeMarker markerMap marker
  = match markerMap !! bucket_of marker with
    | Some bucket => Ok (<[bucket_of marker := bucket ++ [marker]]> markerMap)
    | None =>
        if inherited (bucket_of marker) then Throw TypeError
        else Ok (<[bucket_of marker := [marker]]> markerMap)
    end.
Proof.
  intros [imp Himp]. unfold storeMarker, bucket_of, push, member.
  destruct (truthy (get marker "mapName")); cbn [negb].
  - set (k := the_string (get marker "mapName")).
    destruct (markerMap !! k) as [b|] eqn:Hb; cbv beta iota zeta.
    + now rewrite Hb.
    + destruct (inherited k) eqn:Hk; cbv beta iota zeta.
      * now rewrite Hb.
      * rewrite lookup_insert_eq. cbn [app]. now rewrite insert_insert_eq.
  - now rewrite Himp.
Qed.

(** The bucket a marker goes to, for a marker whose [mapName] is a string
    or absent. *)
Lemma bucket_of_cases (marker : value) :
  string_or_absent (get marker "mapName") ->
  (bucket_of marker = "notDefinedMap" /\ truthy (get marker "mapName") = false)
  \/ (get marker "mapName" = VString (bucket_of marker) /\ bucket_of marker <> "").
Proof.
  unfold bucket_of. intros [Hu|[s Hs]].
  - rewrite Hu. now left.
  - rewrite Hs. destruct (truthy (VString s)) eqn:Ht; [right|now left].
    split; [reflexivity|]. now apply truthy_string.
Qed.

Lemma storeMarker_ok (markerMap markerMap' : gmap string (list value)) (marker : value) :
  registry_ok markerMap -> string_or_absent (get marker "mapName") ->
  storeMarker markerMap marker = Ok markerMap' ->
  registry_ok markerMap'.
Proof.
  intros (Hsome & Himp & Hnamed & Hown) Hname.
  rewrite storeMarker_spec by exact Hsome.
  set (k := bucket_of marker).
  assert (Hnew : (match markerMap !! k with
                  | Some bucket => Ok (<[k := bucket ++ [marker]]> markerMap)
                  | None => if inherited k then Throw TypeError
                            else Ok (<[k := [marker]]> markerMap)
                  end) = Ok markerMap' ->
                 inherited k = false
                 /\ markerMap' = <[k := default [] (markerMap !! k) ++ [marker]]> markerMap).
  { destruct (markerMap !! k) as [b|] eqn:Hb.
    - intros [= <-]. split; [apply Hown; rewrite Hb; eauto|reflexivity].
    - destruct (inherited k); [discriminate|]. intros [= <-]. auto. }
  intros Hst. apply Hnew in Hst as [Hk ->]. clear Hnew.
  assert (Hmarker : (k = "notDefinedMap" /\
                       (truthy (get marker "mapName") = false
                        \/ get marker "mapName" = VString "notDefinedMap"))
                    \/ (k <> "notDefinedMap" /\ get marker "mapName" = VString k /\ k <> "")).
  { destruct (bucket_of_cases marker Hname) as [[H1 H2]|[H1 H2]]; fold k in H1, H2.
    - left. auto.
    - destruct (decide (k = "notDefinedMap")) as [E|E]; [left|right; auto].
      split; [exact E|]. right. now rewrite <- E. }
  split; [|split; [|split]].
  - destruct (decide (k = "notDefinedMap")) as [E|E].
    + rewrite E, lookup_insert_eq. eauto.
    + now rewrite lookup_insert_ne.
  - intros r. destruct (decide (k = "notDefinedMap")) as [E|E].
    + rewrite E, lookup_insert_eq. cbn [default]. intros Hin.
      apply elem_of_app in Hin as [Hin|Hin]; [now apply Himp|].
      apply list_elem_of_singleton in Hin. subst r.
      destruct Hmarker as [[_ H]|[H _]]; [exact H|congruence].
    + rewrite lookup_insert_ne by exact E. apply Himp.
  - intros key bucket r Hkey Hne Hin.
    destruct (decide (key = k)) as [->|Hkk].
    + rewrite lookup_insert_eq in Hkey. injection Hkey as <-.
      apply elem_of_app in Hin as [Hin|Hin].
      * destruct (markerMap !! k) as [b|] eqn:Hb; [|inversion Hin].
        now apply (Hnamed k b).
      * apply list_elem_of_singleton in Hin. subst r.
        destruct Hmarker as [[H _]|(_ & H1 & H2)]; [congruence|auto].
    + rewrite lookup_insert_ne in Hkey by congruence. now apply (Hnamed key bucket).
  - intros key [b Hkey]. destruct (decide (key = k)) as [->|Hkk]; [exact Hk|].
    rewrite lookup_insert_ne in Hkey by congruence. apply Hown. eauto.
Qed.

Lemma get_marker_entry (entry name : value) (link key : string) :
  key <> "link" -> key <> "name" -> key <> "length" ->
  get (VObject (<["link" := VString link]> (<["name" := name]> (own_props entry)))) key
  = get entry key.
Proof.
  intros H1 H2 H3. unfold get at 1. simpl own_props.
  rewrite !lookup_insert_ne by congruence.
  destruct entry; try reflexivity.
  unfold get. apply String.eqb_neq in H3. now rewrite H3.
Qed.

(** [parseMarkerFromEntry] throws nothing, and what it returns for an entry
    it accepts. *)
Lemma parseMarkerFromEntry_cases (entry name : value) (link : string) :
  parseMarkerFromEntry entry name link = Ok None
  \/ parseMarkerFromEntry entry name link = Ok (Some (marker_record entry name link)).
Proof.
  unfold parseMarkerFromEntry, marker_record.
  destruct (isProperEntry entry); cbn [negb]; [|now left].
  destruct (marker_schema_returns entry) as [[|] ->]; simpl; auto.
Qed.

Lemma parseMarkerFromEntry_Some (entry name : value) (link : string) (marker : value) :
  parseMarkerFromEntry entry name link = Ok (Some marker)
  <-> marker = marker_record entry name link
      /\ isProperEntry entry = true /\ SchemaValidator.marker entry = Ok true.
Proof.
  unfold parseMarkerFromEntry, marker_record.
  destruct (isProperEntry entry); cbn [negb].
  - destruct (SchemaValidator.marker entry) as [[|]|e]; simpl.
    + split; [intros [= <-]; auto|intros (-> & _); reflexivity].
    + split; [discriminate|intros (_ & _ & [=])].
    + split; [discriminate|intros (_ & _ & [=])].
  - split; [discriminate|intros (_ & [=] & _)].
Qed.

Lemma parseMarkerFromEntry_mapName (entry name : value) (link : string) (marker : value) :
  parseMarkerFromEntry entry name link = Ok (Some marker) ->
  string_or_absent (get marker "mapName").
Proof.
  intros H. apply parseMarkerFromEntry_Some in H as (-> & _ & Hv).
  unfold marker_record. rewrite get_marker_entry by discriminate.
  apply schemaValidator_spec in Hv as [_ Hv].
  destruct (Hv "mapName" (optional Validator.string) eq_refl) as [[Hu _]|Hs].
  - now left.
  - right. apply total_true in Hs. now apply stringValidator_spec.
Qed.

(** The markers [buildMarkerData] stores are those of [markers_of]. *)
Lemma buildMarkerData_foldM (file : VFile) (markerMap : gmap string (list value)) :
  buildMarkerData file markerMap = foldM storeMarker markerMap (markers_of file).
Proof.
  unfold buildMarkerData, markers_of.
  destruct (slug file) as [s|]; [|reflexivity].
  destruct (get (frontmatter file) "marker") as [| | | | |entries|]; try reflexivity.
  assert (Hparsed : forall title,
            (parsed ← mapM (fun entry => parseMarkerFromEntry entry title s) entries;
             foldM storeMarker markerMap (omap id parsed))
            = foldM storeMarker markerMap
                (omap (fun entry =>
                         match parseMarkerFromEntry entry title s with
                         | Ok (Some marker) => Some marker
                         | _ => None
                         end) entries)).
  { intros title.
    destruct (mapM_returns (fun entry => parseMarkerFromEntry entry title s) entries)
      as [ys Hys].
    - intros entry _. destruct (parseMarkerFromEntry_cases entry title s) as [->| ->]; eauto.
    - rewrite Hys. cbn [mbind Exc_bind]. now rewrite (mapM_omap _ _ _ Hys). }
  destruct (truthy (VString s)) eqn:Hs; cbn [negb orb andb]; [|reflexivity].
  destruct (truthy (frontmatter file)) eqn:Hf; cbn [negb orb].
  - destruct (truthy (get (frontmatter file) "title")); cbn [negb]; [apply Hparsed|reflexivity].
  - (* a falsy front matter has no title *)
    destruct (frontmatter file); try discriminate; reflexivity.
Qed.

Lemma markers_of_mapName (file : VFile) :
  Forall (fun marker => string_or_absent (get marker "mapName")) (markers_of file).
Proof.
  unfold markers_of.
  destruct (slug file) as [s|]; [|constructor].
  destruct (get (frontmatter file) "marker") as [| | | | |entries|]; try constructor.
  destruct (_ && _); [|constructor].
  apply Forall_forall. intros r Hr. apply list_elem_of_omap in Hr as (e & _ & He).
  destruct (parseMarkerFromEntry e _ s) as [[marker|]|err] eqn:Hp; try discriminate.
  injection He as ->. now apply parseMarkerFromEntry_mapName in Hp.
Qed.

Lemma going_to_app (key : string) (l1 l2 : list value) :
  going_to key (l1 ++ l2) = going_to key l1 ++ going_to key l2.
Proof. unfold going_to. apply List.filter_app. Qed.

(** The markers of a list, stored one after the other in a registry built
    by the plugin: the first one that names an inherited property throws;
    when there is none, every bucket gets its markers, in order. *)
Lemma foldM_storeMarker (l : list value) (markerMap : gmap string (list value)) :
  registry_ok markerMap ->
  Forall (fun marker => string_or_absent (get marker "mapName")) l ->
  if existsb (fun marker => inherited (bucket_of marker)) l
  then foldM storeMarker markerMap l = Throw TypeError
  else exists markerMap',
         foldM storeMarker markerMap l = Ok markerMap'
         /\ registry_ok markerMap'
         /\ forall key,
              markerMap' !! key
              = match markerMap !! key, going_to key l with
                | None, [] => None
                | bucket, new => Some (default [] bucket ++ new)
                end.
Proof.
  revert markerMap. induction l as [|r l IH]; intros mm Hok Hall.
  - simpl. exists mm. split; [reflexivity|]. split; [exact Hok|].
    intros key. destruct (mm !! key); simpl; [now rewrite app_nil_r|reflexivity].
  - inversion Hall as [|? ? Hr Hl]; subst.
    cbn [existsb foldM]. pose proof Hok as (Hsome & _ & _ & Hown).
    pose proof (storeMarker_spec mm r Hsome) as Hspec.
    destruct (inherited (bucket_of r)) eqn:Hi; cbn [orb].
    + destruct (mm !! bucket_of r) as [b|] eqn:Hb; [|now rewrite Hspec].
      rewrite (Hown (bucket_of r)) in Hi by (rewrite Hb; eauto). discriminate.
    + set (mm1 := <[bucket_of r := default [] (mm !! bucket_of r) ++ [r]]> mm).
      assert (Hmm1 : storeMarker mm r = Ok mm1)
        by (rewrite Hspec; subst mm1; now destruct (mm !! bucket_of r)).
      rewrite Hmm1. cbn [mbind Exc_bind].
      specialize (IH mm1 (storeMarker_ok mm mm1 r Hok Hr Hmm1) Hl).
      destruct (existsb _ l); [exact IH|].
      destruct IH as (mm' & Hfold & Hok' & Hlook).
      exists mm'. split; [exact Hfold|]. split; [exact Hok'|].
      intros key. rewrite Hlook. subst mm1. unfold going_to. cbn [List.filter].
      destruct (String.eqb_spec (bucket_of r) key) as [<-|Hne].
      * rewrite lookup_insert_eq.
        destruct (mm !! bucket_of r); cbn [default id app];
          rewrite <- ?app_assoc; reflexivity.
      * rewrite lookup_insert_ne by exact Hne.
        destruct (mm !! key); reflexivity.
Qed.

Lemma buildMarkerData_spec (file : VFile) (markerMap : gmap string (list value)) :
  registry_ok markerMap ->
  if existsb (fun marker => inherited (bucket_of marker)) (markers_of file)
  then buildMarkerData file markerMap = Throw TypeError
  else exists markerMap',
         buildMarkerData file markerMap = Ok markerMap'
         /\ registry_ok markerMap'
         /\ forall key,
              markerMap' !! key
              = match markerMap !! key, going_to key (markers_of file) with
                | None, [] => None
                | bucket, new => Some (default [] bucket ++ new)
                end.
Proof.
  intros Hok. rewrite buildMarkerData_foldM.
  apply foldM_storeMarker; [exact Hok|apply markers_of_mapName].
Qed.

Lemma buildMarkerData_ok (file : VFile) (markerMap markerMap' : gmap string (list value)) :
  registry_ok markerMap -> buildMarkerData file markerMap = Ok markerMap' ->
  registry_ok markerMap'.
Proof.
  intros Hok Hb. pose proof (buildMarkerData_spec file markerMap Hok) as H.
  destruct (existsb _ _); [congruence|].
  destruct H as (mm & Hmm & Hok' & _). congruence.
Qed.

Lemma registry_after_snoc (files : list VFile) (file : VFile) :
  registry_after (files ++ [file])
  = markerMap ← registry_after files; buildMarkerData file markerMap.
Proof.
  unfold registry_after. rewrite foldM_app.
  destruct (foldM _ _ files) as [mm|e]; simpl; [|reflexivity].
  now destruct (buildMarkerData file mm).
Qed.

Lemma registry_after_ok (files : list VFile) (markerMap : gmap string (list value)) :
  registry_after files = Ok markerMap -> registry_ok markerMap.
Proof.
  revert markerMap. induction files as [|file files IH] using rev_ind; intros mm.
  - intros [= <-]. apply registry_ok_init.
  - rewrite registry_after_snoc.
    destruct (registry_after files) as [mm0|e]; simpl; [|discriminate].
    apply buildMarkerData_ok. now apply IH.
Qed.

(** The registry after a list of documents. *)
Lemma registry_after_spec (files : list VFile) :
  if existsb (fun marker => inherited (bucket_of marker)) (concat (map markers_of files))
  then registry_after files = Throw TypeError
  else exists markerMap,
         registry_after files = Ok markerMap
         /\ forall key,
              markerMap !! key
              = match going_to key (concat (map markers_of files)) with
                | [] => if String.eqb key "notDefinedMap" then Some [] else None
                | new => Some new
                end.
Proof.
  induction files as [|file files IH] using rev_ind.
  - simpl. exists LEAFLET_MAP_PLUGIN_DATA. split; [reflexivity|].
    intros key. unfold LEAFLET_MAP_PLUGIN_DATA.
    destruct (String.eqb_spec key "notDefinedMap") as [->|Hne].
    + now rewrite lookup_singleton_eq.
    + now rewrite lookup_singleton_ne.
  - rewrite registry_after_snoc, map_app, concat_app, existsb_app. simpl.
    rewrite app_nil_r.
    destruct (existsb _ (concat (map markers_of files))); cbn [orb].
    + now rewrite IH.
    + destruct IH as (mm & Hmm & Hlook). rewrite Hmm. cbn [mbind Exc_bind].
      pose proof (buildMarkerData_spec file mm (registry_after_ok _ _ Hmm)) as Hb.
      destruct (existsb _ (markers_of file)); [exact Hb|].
      destruct Hb as (mm' & Hmm' & _ & Hlook'). exists mm'. split; [exact Hmm'|].
      intros key. rewrite Hlook', Hlook, going_to_app.
      destruct (going_to key (concat (map markers_of files))) as [|x l]; simpl.
      * destruct (String.eqb key "notDefinedMap"); simpl; [|reflexivity].
        destruct (going_to key (markers_of file)); reflexivity.
      * reflexivity.
Qed.

End Registry.

(** ** The parser of map blocks *)

Section MapParser.

(** The fields of the candidate [parseView] builds. *)
Lemma candidate_fields (v1 v2 v3 v4 v5 v6 v7 v8 v9 : value) :
  let object := VObject (list_to_map
    [ ("name", v1); ("image", v2); ("height", v3); ("minZoom", v4);
      ("maxZoom", v5); ("defaultZoom", v6); ("zoomDelta", v7);
      ("scale", v8); ("unit", v9) ]) in
  get object "name" = v1 /\ get object "image" = v2 /\ get object "height" = v3
  /\ get object "minZoom" = v4 /\ get object "maxZoom" = v5
  /\ get object "defaultZoom" = v6 /\ get object "zoomDelta" = v7
  /\ get object "scale" = v8 /\ get object "unit" = v9.
Proof. vm_compute. repeat split. Qed.

Lemma parseView_Some (view mapData : value) :
  parseView view = Ok (Some mapData) ->
  mapData = candidate view /\ SchemaValidator.map mapData = Ok true
  /\ isProperEntry view = true /\ is_string (get view "type") "leaflet-map" = true.
Proof.
  unfold parseView.
  destruct (isProperEntry view); cbn [negb]; [|discriminate].
  destruct (truthy (get view "type")); cbn [negb orb]; [|discriminate].
  destruct (is_string (get view "type") "leaflet-map"); cbn [negb]; [|discriminate].
  cbv zeta. destruct (SchemaValidator.map (candidate view)) as [[|]|e] eqn:Hv;
    cbn [mbind Exc_bind negb]; [|discriminate|discriminate].
  intros [= <-]. auto.
Qed.

Lemma candidate_scale (view : value) :
  get (candidate view) "scale"
  = VNumber (Number.parseFloat (toString (nullish (get view "scale") (VString "")))).
Proof. unfold candidate. apply candidate_fields. Qed.


Lemma numberValidator_spec (v : value) :
  numberValidator v = true -> exists n, v = VNumber n /\ Number.isFinite n = true.
Proof. destruct v; simpl; try discriminate. eauto. Qed.

Lemma valid_map_numbers (mapData : value) :
  SchemaValidator.map mapData = Ok true ->
  finite_or_absent (get mapData "height")
  /\ finite_or_absent (get mapData "minZoom")
  /\ finite_or_absent (get mapData "maxZoom")
  /\ finite_or_absent (get mapData "defaultZoom")
  /\ finite_or_absent (get mapData "zoomDelta")
  /\ finite_or_absent (get mapData "scale").
Proof.
  intros Hv. apply schemaValidator_spec in Hv as [_ Hv].
  assert (H : forall key, mapSchema !! key = Some (optional Validator.number) ->
              finite_or_absent (get mapData key)).
  { intros key Hk. destruct (Hv _ _ Hk) as [[Hu _]|Hn]; [now left|right].
    apply total_true in Hn. now apply numberValidator_spec. }
  repeat split; try (apply H; reflexivity).
  destruct (Hv "zoomDelta" (optional Validator.positiveNumber) eq_refl) as [[Hu _]|Hn];
    [now left|right].
  apply total_true in Hn. unfold positiveNumberValidator in Hn.
  apply andb_true_iff in Hn as [Hn _]. now apply numberValidator_spec.
Qed.

End MapParser.

(** The first answer of a loop that is not [null]. *)
Lemma head_answers_first {A B} (f : A -> Exc (option B)) (pre post : list A)
    (x : A) (y : B) :
  Forall (fun a => f a = Ok None) pre -> f x = Ok (Some y) ->
  (forall a, a ∈ post -> exists r, f a = Ok r) ->
  (parsed ← mapM f (pre ++ x :: post); mret (head (omap id parsed))) = Ok (Some y).
Proof.
  intros Hpre Hx Hpost.
  destruct (mapM_returns f post Hpost) as [ys Hys].
  induction Hpre as [|a pre Ha _ IH]; simpl.
  - now rewrite Hx, Hys.
  - rewrite Ha. simpl. simpl in IH.
    destruct (mapM f (pre ++ x :: post)) as [zs|e]; simpl in *; [exact IH|discriminate].
Qed.

Lemma head_answers_none {A B} (f : A -> Exc (option B)) (l : list A) :
  Forall (fun a => f a = Ok None) l ->
  (parsed ← mapM f l; mret (head (omap id parsed))) = Ok None.
Proof.
  intros H. induction H as [|a l Ha _ IH]; [reflexivity|]. simpl. rewrite Ha. simpl.
  destruct (mapM f l) as [zs|e]; simpl in *; [exact IH|discriminate].
Qed.

Lemma declared_or_finite (mapData : value) (key : string) (d : number) :
  finite_or_absent (get mapData key) -> Number.isNaN d = false ->
  the_number (nullish (get mapData key) (VNumber d)) = declared_or mapData key d
  /\ Number.isNaN (declared_or mapData key d) = false.
Proof.
  unfold declared_or. intros [->|(n & -> & Hn)] Hd; simpl; [auto|].
  split; [reflexivity|]. now apply finite_not_nan.
Qed.

(** ** The check of the client *)

Section ClientSide.
Import Client.

Lemma isMapDataSet_unit (t : value) :
  truthy (get t "unit") = false -> isMapDataSet t = false.
Proof.
  intros H. unfold isMapDataSet. rewrite H. simpl.
  rewrite !orb_true_r. reflexivity.
Qed.

End ClientSide.

(** ** The transform of a tree *)

Section Transform.

Variable load : string -> Exc value.
Variable resolveRelative : string -> string -> string.
Variable transformLink : string -> string -> list string -> string.
Variable markerMap : gmap string (list value).
Variable ctx : BuildCtx.
Variable file : VFile.

Local Abbreviation visitor' := (visitor load resolveRelative transformLink markerMap ctx file).
Local Abbreviation visit' := (visit load resolveRelative transformLink markerMap ctx file).

Lemma visitor_throws (node : Node) (e : Error) :
  is_string (prop node "dataLanguage") "base" = true ->
  load (source node) = Throw e ->
  visitor' node = Throw e.
Proof.
  intros Hbase Hload. unfold visitor, buildMapData, parseMapFromNode.
  rewrite Hbase, Hload. reflexivity.
Qed.







End Transform.

(** ** The measure tool *)

Section Measure.
Import Client.

Lemma removelast_snoc {A} (l : list A) (x : A) : removelast (l ++ [x]) = l.
Proof. apply removelast_last. Qed.

(** The fields [cleanLastElement] leaves alone. *)
Lemma cleanLastElement_fields (c : MeasureControl) :
  let c' := cleanLastElement c in
  state c' = state c /\ pathItems c' = pathItems c /\ distance_ c' = distance_ c
  /\ lastElement c' = lastElement c /\ added c' = added c /\ options c' = options c
  /\ length (points c') = length (points c).
Proof.
  unfold cleanLastElement. destruct (lastElement c) eqn:H; simpl; rewrite ?H;
    repeat split; auto. apply length_alter.
Qed.

(** What [renderPath] does once a vertex has been pushed on the path. *)
Lemma renderPath_snoc (c : MeasureControl) (l : list LatLng) (t : LatLng) :
  pathItems c = l ++ [t] ->
  let c' := renderPath c in
  state c' = state c /\ pathItems c' = l ++ [t] /\ added c' = added c
  /\ options c' = options c
  /\ distance_ c' =
       match last l with
       | Some o => Number.add (distance_ c) (Number.mul (distance t o) (scale c))
       | None => distance_ c
       end
  /\ lastElement c' = Some (length (points c))
  /\ points c' = points (cleanLastElement c)
                 ++ [ {| at_ := t; listening := true; shown := true; tooltip := None |} ]
  /\ pathLine c' = l ++ [t].
Proof.
  intros Hp. pose proof (cleanLastElement_fields c) as H. cbv zeta in H.
  unfold renderPath. revert H. generalize (cleanLastElement c). intros c1.
  intros (Hs & Hi & Hd & Hl & Ha & Ho & Hn). cbn.
  rewrite Hi, Hp, last_snoc. cbn. rewrite removelast_snoc.
  destruct (last l); cbn; rewrite ?Hs, ?Hi, ?Hd, ?Ha, ?Ho, ?Hn, ?Hp; repeat split; auto.
  unfold scale; cbn. now rewrite Ho.
Qed.

(** [renderPreview] touches the preview only. *)
Lemma renderPreview_fields (t : LatLng) (c : MeasureControl) :
  let c' := renderPreview t c in
  state c' = state c /\ pathItems c' = pathItems c /\ distance_ c' = distance_ c
  /\ lastElement c' = lastElement c /\ points c' = points c /\ added c' = added c
  /\ pathLine c' = pathLine c /\ options c' = options c.
Proof.
  unfold renderPreview.
  destruct (state c) eqn:Hs, (last (pathItems c)); cbn; rewrite ?Hs; repeat split; auto.
Qed.

(** What [resetPath] leaves behind. *)
Lemma resetPath_fields (c : MeasureControl) :
  let c' := resetPath c in
  state c' = state c /\ pathItems c' = [] /\ distance_ c' = Number.ofZ 0
  /\ pathLine c' = [] /\ previewLine c' = [] /\ previewShown c' = false
  /\ added c' = added c /\ lastElement c' = lastElement c
  /\ cursor c' = cursor c /\ mousemove c' = mousemove c
  /\ points c' = map hide (points (cleanLastElement c))
  /\ Forall (fun p => shown p = false) (points c').
Proof.
  unfold resetPath, cleanLastElement. 
  assert (Hh : forall l, Forall (fun p => shown p = false) (map hide l)).
  { intros l. apply Forall_forall. intros p Hp.
    apply list_elem_of_fmap in Hp as (q & -> & _). reflexivity. }
  destruct (lastElement c) eqn:H; simpl; rewrite ?H; repeat split; auto; apply Hh.
Qed.

(** After [cleanLastElement] no circle marker listens, when only the last
    element did. *)
Lemma cleanLastElement_silent (c : MeasureControl) :
  (forall j p, points c !! j = Some p -> listening p = true -> lastElement c = Some j) ->
  Forall (fun p => listening p = false) (points (cleanLastElement c)).
Proof.
  intros Honly. apply Forall_lookup. intros j p Hj.
  unfold cleanLastElement in Hj. destruct (lastElement c) as [i|] eqn:Hlast; cbn in Hj.
  - destruct (decide (i = j)) as [->|Hne].
    + rewrite list_lookup_alter_eq in Hj. destruct (points c !! j); [|discriminate].
      injection Hj as <-. reflexivity.
    + rewrite list_lookup_alter_ne in Hj by exact Hne.
      destruct (listening p) eqn:Hl; [|reflexivity].
      specialize (Honly j p Hj Hl). congruence.
  - destruct (listening p) eqn:Hl; [|reflexivity].
    specialize (Honly j p Hj Hl). congruence.
Qed.

Lemma measure_ok_added (options : value) :
  measure_ok (onAdded (set_options options create)).
Proof.
  split; [reflexivity|]. split; [|split].
  - intros _. cbn. auto.
  - intros H. now destruct H.
  - intros j p Hj. cbn in Hj. rewrite lookup_nil in Hj. discriminate.
Qed.

(** The push of a vertex, in [Ready] or in [Measuring]. *)
Lemma measure_ok_push (t : LatLng) (c : MeasureControl) :
  added c = true ->
  (forall j p, points c !! j = Some p -> listening p = true -> lastElement c = Some j) ->
  let c0 := renderPath (set_pathItems (pathItems c ++ [t]) (set_state Measuring c)) in
  measure_ok (renderPreview t (set_preview (previewTooltip c0) (previewAt c0) true c0)).
Proof.
  intros Hadd Honly c0.
  set (c1 := set_pathItems (pathItems c ++ [t]) (set_state Measuring c)) in *.
  destruct (renderPath_snoc c1 (pathItems c) t eq_refl)
    as (Rs & Rp & Ra & _ & _ & Rl & Rpts & _).
  destruct (renderPreview_fields t
              (set_preview (previewTooltip c0) (previewAt c0) true c0))
    as (Ps & Pp & _ & Pl & Ppts & Pa & _).
  pose proof (cleanLastElement_silent c1 Honly) as Hsilent.
  pose proof (cleanLastElement_fields c1) as (_ & _ & _ & _ & _ & _ & Hlen).
  fold c0 in Rs, Rp, Ra, Rl, Rpts.
  cbv zeta in *. unfold measure_ok. rewrite Pa, Ps, Pl, Ppts, Pp. cbn.
  rewrite Ra, Rs, Rl, Rpts, Rp. cbn.
  split; [exact Hadd|]. split; [discriminate|]. split.
  - intros _. eexists _, _. split; [reflexivity|]. split.
    + change (points c) with (points c1). rewrite <- Hlen.
      apply list_lookup_middle. reflexivity.
    + split; [apply last_snoc|split; reflexivity].
  - intros j p Hj Hl. change (points c) with (points c1). rewrite <- Hlen.
    destruct (decide (j < length (points (cleanLastElement c1)))%nat) as [Hlt|Hge].
    + rewrite lookup_app_l in Hj by exact Hlt.
      rewrite Forall_lookup in Hsilent. specialize (Hsilent j p Hj). congruence.
    + apply lookup_lt_Some in Hj. rewrite length_app in Hj. cbn in Hj. f_equal. lia.
Qed.

(** After [resetPath] the tool is ready again. *)
Lemma measure_ok_reset (c : MeasureControl) :
  added c = true ->
  (forall j p, points c !! j = Some p -> listening p = true -> lastElement c = Some j) ->
  measure_ok (set_state Ready (resetPath c)).
Proof.
  intros Hadd Honly.
  pose proof (resetPath_fields c) as H. cbv zeta in H.
  pose proof (cleanLastElement_silent c Honly) as Hsilent.
  revert H. generalize (resetPath c). intros c1.
  intros (_ & Rp & Rd & _ & _ & _ & Ra & Rl & _ & _ & Rpts & Rh).
  assert (Hquiet : Forall (fun p => shown p = false /\ listening p = false) (points c1)).
  { rewrite Rpts. apply Forall_fmap. eapply Forall_impl; [exact Hsilent|].
    intros p Hp. cbn. auto. }
  unfold measure_ok. cbn.
  split; [now rewrite Ra|]. split; [auto|]. split; [intros H; now destruct H|].
  intros j p Hj Hl. rewrite Forall_lookup in Hquiet.
  destruct (Hquiet j p Hj) as [_ Hn]. congruence.
Qed.

Lemma measure_ok_mapClicked (t : LatLng) (c c' : MeasureControl) :
  measure_ok c -> mapClicked t c = Ok c' -> measure_ok c'.
Proof.
  intros (Hadd & Hready & Hbusy & Honly) Hstep.
  unfold mapClicked in Hstep. rewrite Hadd in Hstep. cbn -[renderPath renderPreview resetPath] in Hstep.
  destruct (state c) eqn:Hst.
  - injection Hstep as <-. now apply measure_ok_push.
  - injection Hstep as <-. now apply measure_ok_push.
  - injection Hstep as <-.
    destruct (Hbusy ltac:(congruence)) as (i & p & Hlast & Hp & Hl & Hs & Hlis).
    cbn in Hlast |- *. rewrite Hlast. unfold measure_ok. cbn.
    split; [exact Hadd|]. split; [discriminate|]. split.
    + intros _. exists i, (bindTooltip (getTooltip (set_state Done c) true) p).
      rewrite list_lookup_alter_eq, Hp. cbn. auto.
    + intros j q Hj Hq. destruct (decide (i = j)) as [->|Hne]; [exact Hlast|].
      rewrite list_lookup_alter_ne in Hj by exact Hne. now apply (Honly j q).
  - injection Hstep as <-. now apply measure_ok_reset.
Qed.

Lemma measure_ok_preview (l : LatLng) (c : MeasureControl) :
  measure_ok c -> measure_ok (renderPreview l c).
Proof.
  intros H. destruct (renderPreview_fields l c) as (Hs & Hp & Hd & Hl & Hpts & Ha & _).
  unfold measure_ok in *. rewrite Hs, Hp, Hd, Hl, Hpts, Ha. exact H.
Qed.

Lemma measure_ok_react (e : MeasureEvent) (c c' : MeasureControl) :
  measure_ok c -> react e c = Ok c' -> measure_ok c'.
Proof.
  intros Hok Hstep. destruct e as [t|i|t|n|n]; cbn in Hstep.
  - destruct (isSelected c); [now apply (measure_ok_mapClicked t c)|].
    now injection Hstep as <-.
  - injection Hstep as <-. pose proof Hok as (Hadd & Hready & Hbusy & Honly).
    unfold vertexClicked. destruct (points c !! i) as [p|] eqn:Hp; [|exact Hok].
    destruct (listening p && shown p) eqn:Hls; [|exact Hok].
    apply andb_true_iff in Hls as [Hl Hs].
    assert (Hst : state c <> Ready).
    { intros Hr. destruct (Hready Hr) as (_ & _ & Hq). rewrite Forall_lookup in Hq.
      destruct (Hq i p Hp). congruence. }
    split; [exact Hadd|]. split; [discriminate|]. split; [intros _; now apply Hbusy|exact Honly].
  - injection Hstep as <-. destruct (mousemove c); [now apply measure_ok_preview|exact Hok].
  - injection Hstep as <-. pose proof Hok as (Hadd & Hready & Hbusy & Honly).
    unfold setSelected. destruct (Bool.eqb (isSelected c) n); [exact Hok|].
    destruct n; [exact Hok|]. unfold onDeselected.
    now apply measure_ok_reset.
  - injection Hstep as <-. exact Hok.
Qed.

(** Every reachable state of the tool is well formed. *)
Lemma reachable_ok (c : MeasureControl) : reachable c -> measure_ok c.
Proof.
  induction 1 as [options|e c c' _ IH Hstep].
  - apply measure_ok_added.
  - now apply (measure_ok_react e c).
Qed.


End Measure.

(** * Lemmas for the further properties *)

(** ** White space *)

Section WhiteSpace.

Lemma trim_start_cons (a : ascii) (r1 : list ascii) :
  trim_start (a :: r1)
  = if is_space a then trim_start r1
    else match r1 with
         | b :: r2 =>
             if is_space2 a b then trim_start r2
             else match r2 with
                  | c :: r3 => if is_space3 a b c then trim_start r3 else a :: r1
                  | [] => a :: r1
                  end
         | [] => a :: r1
         end.
Proof. reflexivity. Qed.

Lemma remove_spaces_cons (a : ascii) (r1 : list ascii) :
  remove_spaces (a :: r1)
  = if is_space a then remove_spaces r1
    else match r1 with
         | b :: r2 =>
             if is_space2 a b then remove_spaces r2
             else match r2 with
                  | c :: r3 =>
                      if is_space3 a b c then remove_spaces r3
                      else a :: remove_spaces r1
                  | [] => a :: remove_spaces r1
                  end
         | [] => a :: remove_spaces r1
         end.
Proof. reflexivity. Qed.

Lemma trim_start_eq (l : list ascii) :
  trim_start l = match after_space l with
                 | Some rest => trim_start rest
                 | None => l
                 end.
Proof.
  destruct l as [|a r1]; [reflexivity|]. rewrite trim_start_cons. unfold after_space.
  destruct (is_space a); [reflexivity|].
  destruct r1 as [|b r2]; [reflexivity|].
  destruct (is_space2 a b); [reflexivity|].
  destruct r2 as [|c r3]; [reflexivity|].
  now destruct (is_space3 a b c).
Qed.

Lemma remove_spaces_eq (l : list ascii) :
  remove_spaces l = match after_space l with
                    | Some rest => remove_spaces rest
                    | None => match l with
                              | a :: r => a :: remove_spaces r
                              | [] => []
                              end
                    end.
Proof.
  destruct l as [|a r1]; [reflexivity|]. rewrite remove_spaces_cons. unfold after_space.
  destruct (is_space a); [reflexivity|].
  destruct r1 as [|b r2]; [reflexivity|].
  destruct (is_space2 a b); [reflexivity|].
  destruct r2 as [|c r3]; [reflexivity|].
  now destruct (is_space3 a b c).
Qed.

(** A white space character at the head of a string: its bytes, none of
    which is a comma, and what follows. *)
Lemma after_space_split (l rest : list ascii) :
  after_space l = Some rest ->
  exists w, l = w ++ rest /\ w <> []
            /\ Forall (fun c => Ascii.eqb "," c = false) w
            /\ forall l', after_space (w ++ l') = Some l'.
Proof.
  assert (Hcomma : forall (P : ascii -> bool) c,
            P c = true -> P ","%char = false -> Ascii.eqb "," c = false).
  { intros P c Hc Hn. destruct (Ascii.eqb_spec "," c) as [<-|]; congruence. }
  unfold after_space. destruct l as [|a r1]; [discriminate|].
  destruct (is_space a) eqn:Ha.
  { intros [= <-]. exists [a]. split; [reflexivity|]. split; [discriminate|].
    split; [|intros l'; cbn [app]; now rewrite Ha].
    constructor; [|constructor]. now apply (Hcomma is_space). }
  destruct r1 as [|b r2]; [discriminate|].
  destruct (is_space2 a b) eqn:Hab.
  { intros [= <-]. exists [a; b]. split; [reflexivity|]. split; [discriminate|].
    split; [|intros l'; cbn [app]; now rewrite Ha, Hab].
    constructor; [|constructor; [|constructor]].
    - apply (Hcomma (fun a => is_space2 a b)); [exact Hab|reflexivity].
    - apply (Hcomma (fun b => is_space2 a b)); [exact Hab|].
      unfold is_space2. now rewrite andb_false_r. }
  destruct r2 as [|c r3]; [discriminate|].
  destruct (is_space3 a b c) eqn:Habc; [|discriminate].
  intros [= <-]. exists [a; b; c]. split; [reflexivity|]. split; [discriminate|].
  split; [|intros l'; cbn [app]; now rewrite Ha, Hab, Habc].
  constructor; [|constructor; [|constructor; [|constructor]]].
  - apply (Hcomma (fun a => is_space3 a b c)); [exact Habc|reflexivity].
  - apply (Hcomma (fun b => is_space3 a b c)); [exact Habc|].
    unfold is_space3. change (is_byte 154 ","%char) with false.
    change (is_byte 128 ","%char) with false. change (is_byte 129 ","%char) with false.
    change (is_byte 187 ","%char) with false.
    now rewrite !andb_false_r.
  - apply (Hcomma (fun c => is_space3 a b c)); [exact Habc|].
    unfold is_space3. change (is_byte 128 ","%char) with false.
    change (is_byte 159 ","%char) with false. change (is_byte 191 ","%char) with false.
    change (char_in (ascii_of_N 128) (ascii_of_N 138) ","%char) with false.
    change (is_byte 168 ","%char) with false. change (is_byte 169 ","%char) with false.
    change (is_byte 175 ","%char) with false.
    cbn [orb]. now rewrite !andb_false_r.
Qed.

(** A digit and a comma are no white space, and start no white space
    character. *)
Lemma after_space_digit (c : ascii) (l : list ascii) :
  is_digit c = true \/ c = ","%char -> after_space (c :: l) = None.
Proof.
  intros H.
  assert (Hc : is_space c = false /\ (forall b, is_space2 c b = false)
               /\ forall b d, is_space3 c b d = false).
  { destruct H as [H| ->]; [|repeat split].
    destruct c as [b0 b1 b2 b3 b4 b5 b6 b7].
    destruct b0, b1, b2, b3, b4, b5, b6, b7; try discriminate; repeat split. }
  destruct Hc as (H1 & H2 & H3). cbn [after_space]. rewrite H1.
  destruct l as [|b [|d r]]; rewrite ?H2, ?H3; reflexivity.
Qed.

(** A run of ASCII spaces is white space. *)
Lemma white_spaces (w : list ascii) : Forall (fun c => is_space c = true) w -> white w.
Proof.
  induction 1 as [|c w Hc _ IH]; [apply white_nil|].
  apply (white_cons _ w); [|exact IH]. cbn [after_space]. now rewrite Hc.
Qed.

Lemma white_app (w l : list ascii) :
  white w -> trim_start (w ++ l) = trim_start l /\ remove_spaces (w ++ l) = remove_spaces l.
Proof.
  induction 1 as [|l0 rest Hl _ IH]; [split; reflexivity|].
  apply after_space_split in Hl as (w & -> & _ & _ & Hw).
  rewrite <- !app_assoc, trim_start_eq, remove_spaces_eq, Hw. exact IH.
Qed.

Lemma remove_spaces_digits (d l : list ascii) :
  Forall (fun c => is_digit c = true \/ c = ","%char) d ->
  remove_spaces (d ++ l) = d ++ remove_spaces l.
Proof.
  induction 1 as [|c d Hc _ IH]; [reflexivity|].
  cbn [app]. rewrite remove_spaces_eq, after_space_digit by exact Hc. now rewrite IH.
Qed.

(** The commas of a string are those of the string without its white
    space. *)
Lemma remove_spaces_commas (l : list ascii) :
  List.filter (Ascii.eqb ",") (remove_spaces l) = List.filter (Ascii.eqb ",") l.
Proof.
  assert (H : forall n l, (length l <= n)%nat ->
            List.filter (Ascii.eqb ",") (remove_spaces l) = List.filter (Ascii.eqb ",") l).
  { clear l. induction n as [|n IH]; intros l Hn.
    - destruct l; [reflexivity|simpl in Hn; lia].
    - rewrite remove_spaces_eq. destruct (after_space l) as [rest|] eqn:Hl.
      + apply after_space_split in Hl as (w & -> & Hne & Hw & _).
        rewrite List.filter_app. rewrite length_app in Hn.
        assert (List.filter (Ascii.eqb ",") w = []) as ->.
        { clear - Hw. induction Hw as [|c w Hc _ IH]; [reflexivity|].
          cbn [List.filter]. now rewrite Hc. }
        apply IH. destruct w; [congruence|]. simpl in Hn. lia.
      + destruct l as [|a r]; [reflexivity|]. cbn [List.filter].
        simpl in Hn. rewrite (IH r) by lia. reflexivity. }
  now apply (H (length l)).
Qed.

End WhiteSpace.

Section Matching.
Import RegExp RegExpSem.

Lemma lang_void_inv (l : list ascii) : lang Void l -> False.
Proof. intros H; inversion H. Qed.

Lemma lang_eps_inv (l : list ascii) : lang Eps l -> l = [].
Proof. intros H; now inversion H. Qed.

Lemma lang_class_inv (p : ascii -> bool) (l : list ascii) :
  lang (Class p) l -> exists c, l = [c] /\ p c = true.
Proof. intros H; inversion H; subst; eauto. Qed.

Lemma lang_cat_inv (a b : re) (l : list ascii) :
  lang (Cat a b) l -> exists l1 l2, l = l1 ++ l2 /\ lang a l1 /\ lang b l2.
Proof. intros H; inversion H; subst; eauto. Qed.

Lemma lang_alt_inv (a b : re) (l : list ascii) :
  lang (Alt a b) l -> lang a l \/ lang b l.
Proof. intros H; inversion H; subst; auto. Qed.

Lemma lang_cat_cons (a b : re) (c : ascii) (l1 l2 : list ascii) :
  lang a (c :: l1) -> lang b l2 -> lang (Cat a b) (c :: l1 ++ l2).
Proof. intros H1 H2. change (c :: l1 ++ l2) with ((c :: l1) ++ l2). now constructor. Qed.

Lemma nullable_lang (r : re) : nullable r = true <-> lang r [].
Proof.
  induction r; simpl.
  - split; intros H; [discriminate|now apply lang_void_inv in H].
  - split; intros H; [constructor|reflexivity].
  - split; intros H; [discriminate|].
    apply lang_class_inv in H as (c & H & _). discriminate.
  - rewrite andb_true_iff, IHr1, IHr2. split.
    + intros [H1 H2]. change (@nil ascii) with (@nil ascii ++ []). now constructor.
    + intros H. apply lang_cat_inv in H as (l1 & l2 & Heq & H1 & H2).
      destruct l1, l2; try discriminate. tauto.
  - rewrite orb_true_iff, IHr1, IHr2. split.
    + intros [H|H]; [now apply lang_alt_l|now apply lang_alt_r].
    + apply lang_alt_inv.
  - split; intros H; [constructor|reflexivity].
Qed.

Lemma lang_star_cons_inv (a : re) (c : ascii) (l : list ascii) :
  lang (Star a) (c :: l) ->
  exists l1 l2, l = l1 ++ l2 /\ lang a (c :: l1) /\ lang (Star a) l2.
Proof.
  intros H. remember (Star a) as r eqn:Hr. remember (c :: l) as w eqn:Hw.
  revert Hr Hw. induction H; intros Hr Hw; try discriminate.
  injection Hr as ->. destruct l1 as [|c' l1].
  - simpl in Hw. apply IHlang2; auto.
  - simpl in Hw. injection Hw as -> <-. eauto.
Qed.

Lemma deriv_lang (r : re) (c : ascii) (l : list ascii) :
  lang (deriv c r) l <-> lang r (c :: l).
Proof.
  revert l. induction r; intros l; simpl.
  - split; intros H; now apply lang_void_inv in H.
  - split; intros H; [now apply lang_void_inv in H|apply lang_eps_inv in H; discriminate].
  - destruct (p c) eqn:Hp; split; intros H.
    + apply lang_eps_inv in H as ->. now constructor.
    + apply lang_class_inv in H as (c' & [= <- ->] & _). constructor.
    + now apply lang_void_inv in H.
    + apply lang_class_inv in H as (c' & [= <- ->] & H). congruence.
  - destruct (nullable r1) eqn:Hn; split; intros H.
    + apply lang_alt_inv in H as [H|H].
      * apply lang_cat_inv in H as (l1 & l2 & -> & H1 & H2).
        apply lang_cat_cons; [now apply IHr1|auto].
      * change (c :: l) with ([] ++ c :: l). constructor; [now apply nullable_lang|now apply IHr2].
    + apply lang_cat_inv in H as (l1 & l2 & Heq & H1 & H2). destruct l1 as [|c' l1].
      * simpl in Heq. subst. apply lang_alt_r. now apply IHr2.
      * injection Heq as <- ->. apply lang_alt_l. constructor; [now apply IHr1|auto].
    + apply lang_cat_inv in H as (l1 & l2 & -> & H1 & H2).
      apply lang_cat_cons; [now apply IHr1|auto].
    + apply lang_cat_inv in H as (l1 & l2 & Heq & H1 & H2). destruct l1 as [|c' l1].
      * apply nullable_lang in H1. congruence.
      * injection Heq as <- ->. constructor; [now apply IHr1|auto].
  - split; intros H.
    + apply lang_alt_inv in H as [H|H]; [apply lang_alt_l; now apply IHr1|apply lang_alt_r; now apply IHr2].
    + apply lang_alt_inv in H as [H|H]; [apply lang_alt_l; now apply IHr1|apply lang_alt_r; now apply IHr2].
  - split; intros H.
    + apply lang_cat_inv in H as (l1 & l2 & -> & H1 & H2).
      change (c :: l1 ++ l2) with ((c :: l1) ++ l2).
      apply lang_star_cons; [now apply IHr|auto].
    + apply lang_star_cons_inv in H as (l1 & l2 & -> & H1 & H2).
      constructor; [now apply IHr|auto].
Qed.

Lemma matches_lang (r : re) (l : list ascii) : matches r l = true <-> lang r l.
Proof.
  unfold matches. revert r. induction l as [|c l IH]; intros r; simpl.
  - apply nullable_lang.
  - rewrite IH. apply deriv_lang.
Qed.

End Matching.

Section Patterns.
Import RegExp RegExpSem.

Lemma lang_star_any (l : list ascii) : lang (Star Any) l.
Proof.
  induction l as [|c l IH]; [constructor|].
  change (c :: l) with ([c] ++ l). constructor; [now constructor|exact IH].
Qed.

Lemma test_spec (lit : literal) (s : string) :
  test lit s = true <->
  exists pre mid post,
    chars s = pre ++ mid ++ post
    /\ lang (if ignore_case lit then fold_case (body lit) else body lit) mid
    /\ (anchored_start lit = true -> pre = [])
    /\ (anchored_end lit = true -> post = []).
Proof.
  unfold test. rewrite matches_lang. split.
  - intros H. apply lang_cat_inv in H as (pre & rest & -> & Hpre & H).
    apply lang_cat_inv in H as (mid & post & -> & Hmid & Hpost).
    exists pre, mid, post. repeat split; auto.
    + intros Ha. rewrite Ha in Hpre. now apply lang_eps_inv in Hpre.
    + intros Ha. rewrite Ha in Hpost. now apply lang_eps_inv in Hpost.
  - intros (pre & mid & post & -> & Hmid & Hpre & Hpost).
    constructor; [|constructor; auto].
    + destruct (anchored_start lit); [rewrite Hpre by easy; constructor|apply lang_star_any].
    + destruct (anchored_end lit); [rewrite Hpost by easy; constructor|apply lang_star_any].
Qed.

Lemma lang_star_class (p : ascii -> bool) (l : list ascii) :
  lang (Star (Class p)) l <-> all_in p l.
Proof.
  split.
  - intros H. remember (Star (Class p)) as r eqn:Hr. revert Hr.
    induction H; intros Hr; try discriminate; [constructor|].
    injection Hr as ->. apply lang_class_inv in H as (c & -> & Hc).
    constructor; auto. now apply IHlang2.
  - induction 1 as [|c l Hc _ IH]; [constructor|].
    change (c :: l) with ([c] ++ l). constructor; [now constructor|exact IH].
Qed.

Lemma lang_plus_class (p : ascii -> bool) (l : list ascii) :
  lang (Plus (Class p)) l <-> l <> [] /\ all_in p l.
Proof.
  unfold Plus. split.
  - intros H. apply lang_cat_inv in H as (l1 & l2 & -> & H1 & H2).
    apply lang_class_inv in H1 as (c & -> & Hc). apply lang_star_class in H2.
    split; [discriminate|now constructor].
  - intros [Hne H]. destruct H as [|c l Hc H]; [congruence|].
    change (c :: l) with ([c] ++ l). constructor; [now constructor|now apply lang_star_class].
Qed.

Lemma lang_fold_hexDigit (l : list ascii) :
  lang (fold_case C.regExp.hexDigit) l <-> exists c, l = [c] /\ is_hex c = true.
Proof.
  assert (Hp : forall c,
    (let p c := is_digit c || char_in "A" "F" c in p c || p (upper c) || p (lower c))
    = is_hex c).
  { intros [b0 b1 b2 b3 b4 b5 b6 b7].
    destruct b0, b1, b2, b3, b4, b5, b6, b7; reflexivity. }
  split.
  - intros H. apply lang_class_inv in H as (c & -> & Hc). exists c. split; [easy|].
    now rewrite <- Hp.
  - intros (c & -> & Hc). apply (lang_class _ c). now rewrite <- Hp in Hc.
Qed.

Lemma lang_hex3 (l : list ascii) :
  (let h := fold_case C.regExp.hexDigit in lang (Cat h (Cat h h)) l)
  <-> exists a b c, l = [a; b; c] /\ is_hex a = true /\ is_hex b = true /\ is_hex c = true.
Proof.
  cbv zeta. split.
  - intros H. apply lang_cat_inv in H as (l1 & l' & -> & H1 & H).
    apply lang_cat_inv in H as (l2 & l3 & -> & H2 & H3).
    apply lang_fold_hexDigit in H1 as (a & -> & Ha), H2 as (b & -> & Hb), H3 as (c & -> & Hc).
    exists a, b, c. auto.
  - intros (a & b & c & -> & Ha & Hb & Hc).
    change [a; b; c] with ([a] ++ [b] ++ [c]).
    apply lang_cat; [|apply lang_cat]; apply lang_fold_hexDigit; eauto.
Qed.

Lemma hexColourValidation_spec (s : string) :
  test C.regExp.hexColourValidation s = true <->
  exists pre a b c, chars s = pre ++ [a; b; c]
    /\ is_hex a = true /\ is_hex b = true /\ is_hex c = true.
Proof.
  rewrite test_spec.
  set (h := fold_case C.regExp.hexDigit).
  change (if ignore_case C.regExp.hexColourValidation
          then fold_case (body C.regExp.hexColourValidation)
          else body C.regExp.hexColourValidation)
    with (Cat (Cat h (Cat h h)) (Alt (Cat h (Cat h h)) Eps)).
  split.
  - intros (pre & mid & post & Hs & Hmid & _ & Hpost). rewrite Hpost in Hs by easy.
    rewrite app_nil_r in Hs.
    apply lang_cat_inv in Hmid as (l1 & l2 & -> & H1 & H2).
    apply lang_hex3 in H1 as (a & b & c & -> & Ha & Hb & Hc).
    apply lang_alt_inv in H2 as [H2|H2].
    + apply lang_hex3 in H2 as (a' & b' & c' & -> & Ha' & Hb' & Hc').
      exists (pre ++ [a; b; c]), a', b', c'. rewrite <- app_assoc. auto.
    + apply lang_eps_inv in H2 as ->. exists pre, a, b, c. auto.
  - intros (pre & a & b & c & Hs & Ha & Hb & Hc).
    exists pre, [a; b; c], []. rewrite app_nil_r. repeat split; auto; [|discriminate].
    change [a; b; c] with ([a; b; c] ++ []). constructor.
    + apply lang_hex3. exists a, b, c. auto.
    + apply lang_alt_r. constructor.
Qed.

Lemma iconValidation_spec (s : string) :
  test C.regExp.iconValidation s = true <->
  exists pre c post, chars s = pre ++ c :: post /\ is_lower c = true.
Proof.
  rewrite test_spec. simpl. split.
  - intros (pre & mid & post & Hs & Hmid & _ & _).
    apply lang_cat_inv in Hmid as (l1 & l' & -> & _ & H).
    apply lang_cat_inv in H as (l2 & l3 & -> & H2 & _).
    apply lang_plus_class in H2 as [Hne H2]. destruct H2 as [|c l2 Hc _]; [congruence|].
    exists (pre ++ l1), c, (l2 ++ l3 ++ post). split; [|exact Hc].
    rewrite Hs. now rewrite <- !app_assoc.
  - intros (pre & c & post & Hs & Hc).
    exists pre, [c], post. repeat split; auto; try discriminate.
    change [c] with ([] ++ [c] ++ []). constructor; [apply lang_alt_r; constructor|].
    constructor; [|constructor].
    apply lang_plus_class. split; [discriminate|]. now repeat constructor.
Qed.

Lemma is_byte_eq (n : N) (c : ascii) : is_byte n c = true -> c = ascii_of_N n.
Proof.
  unfold is_byte. intros H. apply N.eqb_eq in H. now rewrite <- H, ascii_N_embedding.
Qed.

(** A white space character at the head of a string is what [after_space]
    steps over. *)
Lemma after_space_lang (w : list ascii) :
  lang space w -> forall l, after_space (w ++ l) = Some l.
Proof.
  unfold space. intros H l.
  repeat (apply lang_alt_inv in H as [H|H]).
  - apply lang_class_inv in H as (a & -> & Ha). cbn [app after_space]. now rewrite Ha.
  - apply lang_cat_inv in H as (l1 & l2 & -> & H1 & H2).
    apply lang_class_inv in H1 as (a & -> & Ha), H2 as (b & -> & Hb).
    apply is_byte_eq in Ha as ->, Hb as ->. reflexivity.
  - apply lang_cat_inv in H as (l1 & l' & -> & H1 & H).
    apply lang_cat_inv in H as (l2 & l3 & -> & H2 & H3).
    apply lang_class_inv in H1 as (a & -> & Ha), H2 as (b & -> & Hb), H3 as (c & -> & Hc).
    apply is_byte_eq in Ha as ->, Hb as ->, Hc as ->. reflexivity.
  - apply lang_cat_inv in H as (l1 & l' & -> & H1 & H).
    apply lang_cat_inv in H as (l2 & l3 & -> & H2 & H3).
    apply lang_class_inv in H1 as (a & -> & Ha), H2 as (b & -> & Hb), H3 as (c & -> & Hc).
    apply is_byte_eq in Ha as ->, Hb as ->.
    cbn [app after_space].
    change (is_space (ascii_of_N 226)) with false.
    change (is_space2 (ascii_of_N 226) (ascii_of_N 128)) with false.
    cbv iota. unfold is_space3.
    change (is_byte 225 (ascii_of_N 226)) with false.
    change (is_byte 226 (ascii_of_N 226)) with true.
    change (is_byte 128 (ascii_of_N 128)) with true.
    cbn [andb orb]. now rewrite Hc.
  - apply lang_cat_inv in H as (l1 & l' & -> & H1 & H).
    apply lang_cat_inv in H as (l2 & l3 & -> & H2 & H3).
    apply lang_class_inv in H1 as (a & -> & Ha), H2 as (b & -> & Hb), H3 as (c & -> & Hc).
    apply is_byte_eq in Ha as ->, Hb as ->, Hc as ->. reflexivity.
  - apply lang_cat_inv in H as (l1 & l' & -> & H1 & H).
    apply lang_cat_inv in H as (l2 & l3 & -> & H2 & H3).
    apply lang_class_inv in H1 as (a & -> & Ha), H2 as (b & -> & Hb), H3 as (c & -> & Hc).
    apply is_byte_eq in Ha as ->, Hb as ->, Hc as ->. reflexivity.
  - apply lang_cat_inv in H as (l1 & l' & -> & H1 & H).
    apply lang_cat_inv in H as (l2 & l3 & -> & H2 & H3).
    apply lang_class_inv in H1 as (a & -> & Ha), H2 as (b & -> & Hb), H3 as (c & -> & Hc).
    apply is_byte_eq in Ha as ->, Hb as ->, Hc as ->. reflexivity.
Qed.

Lemma lang_bytes3 (p q r : ascii -> bool) (a b c : ascii) :
  p a = true -> q b = true -> r c = true ->
  lang (Cat (Class p) (Cat (Class q) (Class r))) [a; b; c].
Proof.
  intros Ha Hb Hc. change [a; b; c] with ([a] ++ [b] ++ [c]).
  constructor; [now constructor|]. constructor; now constructor.
Qed.

(** What [after_space] steps over is a white space character. *)
Lemma lang_after_space (l rest : list ascii) :
  after_space l = Some rest -> exists w, l = w ++ rest /\ lang space w.
Proof.
  unfold after_space, space. destruct l as [|a r1]; [discriminate|].
  destruct (is_space a) eqn:Ha.
  { intros [= <-]. exists [a]. split; [reflexivity|]. apply lang_alt_l. now constructor. }
  destruct r1 as [|b r2]; [discriminate|].
  destruct (is_space2 a b) eqn:Hab.
  { intros [= <-]. exists [a; b]. split; [reflexivity|].
    apply andb_true_iff in Hab as [H1 H2].
    apply lang_alt_r, lang_alt_l. change [a; b] with ([a] ++ [b]).
    constructor; now constructor. }
  destruct r2 as [|c r3]; [discriminate|].
  destruct (is_space3 a b c) eqn:Habc; [|discriminate].
  intros [= <-]. exists [a; b; c]. split; [reflexivity|].
  unfold is_space3 in Habc.
  repeat (apply orb_true_iff in Habc as [Habc|Habc]);
    apply andb_true_iff in Habc as [Habc Hc];
    apply andb_true_iff in Habc as [H1 H2].
  - apply lang_alt_r, lang_alt_r, lang_alt_l. now apply lang_bytes3.
  - apply lang_alt_r, lang_alt_r, lang_alt_r, lang_alt_l. now apply lang_bytes3.
  - apply lang_alt_r, lang_alt_r, lang_alt_r, lang_alt_r, lang_alt_l.
    now apply lang_bytes3.
  - apply lang_alt_r, lang_alt_r, lang_alt_r, lang_alt_r, lang_alt_r, lang_alt_l.
    now apply lang_bytes3.
  - apply lang_alt_r, lang_alt_r, lang_alt_r, lang_alt_r, lang_alt_r, lang_alt_r.
    now apply lang_bytes3.
Qed.

(** [\s*] matches the strings of white space. *)
Lemma lang_star_space (w : list ascii) : lang (Star space) w <-> white w.
Proof.
  split.
  - intros H. remember (Star space) as r eqn:Hr. revert Hr.
    induction H; intros Hr; try discriminate; [constructor|].
    injection Hr as ->. apply (white_cons _ l2); [now apply after_space_lang|].
    now apply IHlang2.
  - induction 1 as [|l rest Hl _ IH]; [constructor|].
    apply lang_after_space in Hl as (w & -> & Hw). now constructor.
Qed.

Lemma coordinatesValidation_spec (s : string) :
  test C.regExp.coordinatesValidation s = true <->
  exists pre d1 w1 w2 d2 post,
    chars s = pre ++ d1 :: w1 ++ ","%char :: w2 ++ d2 :: post
    /\ is_digit d1 = true /\ white w1 /\ white w2 /\ is_digit d2 = true.
Proof.
  rewrite test_spec.
  change (if ignore_case C.regExp.coordinatesValidation
          then fold_case (body C.regExp.coordinatesValidation)
          else body C.regExp.coordinatesValidation)
    with (Cat (Plus (Class is_digit))
            (Cat (Star space)
               (Cat (Chr ",") (Cat (Star space) (Plus (Class is_digit)))))).
  split.
  - intros (pre & mid & post & Hs & Hmid & _ & _).
    apply lang_cat_inv in Hmid as (ds1 & l & -> & H1 & H).
    apply lang_cat_inv in H as (w1 & l' & -> & Hw1 & H).
    apply lang_cat_inv in H as (cm & l & -> & Hc & H).
    apply lang_cat_inv in H as (w2 & ds2 & -> & Hw2 & H2).
    apply lang_class_inv in Hc as (c & -> & Hc). apply Ascii.eqb_eq in Hc as <-.
    apply lang_star_space in Hw1, Hw2.
    apply lang_plus_class in H1 as [Hne1 H1], H2 as [Hne2 H2].
    destruct H2 as [|d2 ds2 Hd2 _]; [congruence|].
    destruct (exists_last Hne1) as (ds1' & d1 & ->).
    apply Forall_app in H1 as [_ H1]. apply Forall_inv in H1.
    exists (pre ++ ds1'), d1, w1, w2, d2, (ds2 ++ post). repeat split; auto.
    rewrite Hs. now repeat (rewrite <- ?app_assoc; simpl).
  - intros (pre & d1 & w1 & w2 & d2 & post & Hs & Hd1 & Hw1 & Hw2 & Hd2).
    exists pre, (d1 :: w1 ++ ","%char :: w2 ++ [d2]), post.
    split; [rewrite Hs; now repeat (rewrite <- ?app_assoc; simpl)|].
    split; [|split; discriminate].
    change (d1 :: w1 ++ ","%char :: w2 ++ [d2])
      with ([d1] ++ w1 ++ [","%char] ++ w2 ++ [d2]).
    constructor; [apply lang_plus_class; split; [discriminate|now repeat constructor]|].
    constructor; [now apply lang_star_space|].
    constructor; [now constructor|].
    constructor; [now apply lang_star_space|].
    apply lang_plus_class; split; [discriminate|now repeat constructor].
Qed.

End Patterns.

Section Strings.

Lemma append_empty (a b : string) : a +:+ b = "" <-> a = "" /\ b = "".
Proof. destruct a; simpl; split; [tauto|now intros [_ ->]|discriminate|now intros [? _]]. Qed.

Lemma chars_append (a b : string) : chars (a +:+ b) = chars a ++ chars b.
Proof. unfold chars. induction a as [|c a IH]; simpl; [reflexivity|]. now rewrite IH. Qed.

Lemma chars_str (l : list ascii) : chars (str l) = l.
Proof. apply list_ascii_of_string_of_list_ascii. Qed.

Lemma str_chars (s : string) : str (chars s) = s.
Proof. apply string_of_list_ascii_of_string. Qed.

Lemma chars_empty (s : string) : chars s = [] <-> s = "".
Proof. destruct s; simpl; split; intros H; try reflexivity; discriminate. Qed.

Lemma digits_of_nonempty (n : N) : digits_of n <> "".
Proof.
  unfold digits_of, NilZero.string_of_uint.
  destruct (N.to_uint n); simpl; discriminate.
Qed.

Lemma Number_toString_nonempty (x : number) : Number.toString x <> "".
Proof.
  destruct x as [s|s| |s m e]; [discriminate|destruct s; discriminate|discriminate|].
  - unfold Number.toString.
    destruct (Number.fraction m e) as [num den].
    destruct (Number.shortest 20 m e (Number.magnitude num den) 1) as [[d n] k].
    intros H. apply append_empty in H as [_ H].
    destruct (_ && _) in H.
    { apply append_empty in H as [H _]. now apply digits_of_nonempty in H. }
    destruct (_ && _) in H.
    { apply append_empty in H as [_ H]. discriminate. }
    destruct (_ && _) in H; [discriminate|].
    destruct (k =? 1) in H.
    + apply append_empty in H as [H _]. now apply digits_of_nonempty in H.
    + apply append_empty in H as [_ H]. discriminate.
Qed.

End Strings.

Section Entries.

Lemma own_props_values (v x : value) (key : string) :
  own_props v !! key = Some x -> In x (Object_values v).
Proof.
  intros H. unfold Object_values. apply list_elem_of_In, list_elem_of_fmap.
  exists (key, x). split; [reflexivity|]. now apply elem_of_map_to_list.
Qed.

Lemma digits_of_head (n : N) : exists c rest, digits_of n = String c rest /\ is_digit c = true.
Proof.
  unfold digits_of, NilZero.string_of_uint.
  destruct (N.to_uint n); simpl; eauto.
Qed.

(** An array has no own property whose name does not start with a digit. *)
Lemma array_get (l : list value) (key : string) :
  (forall c rest, key = String c rest -> is_digit c = false) ->
  own_props (VArray l) !! key = None.
Proof.
  intros Hkey. simpl. apply not_elem_of_list_to_map_1.
  intros H. apply list_elem_of_fmap in H as ([k x] & -> & H).
  apply elem_of_lookup_imap in H as (i & y & [= -> ->] & _).
  destruct (digits_of_head (N.of_nat i)) as (c & rest & Heq & Hc).
  specialize (Hkey _ _ Heq). congruence.
Qed.

Lemma proper_values (entry : value) (key : string) :
  isProperEntry entry = true ->
  get entry key = VUndefined
  \/ (exists s, get entry key = VString s)
  \/ (exists n, get entry key = VNumber n).
Proof.
  unfold isProperEntry. destruct (isNonEmptyObject entry); simpl; [|discriminate].
  rewrite forallb_forall. intros H.
  assert (Hown : forall x, own_props entry !! key = Some x ->
            (exists s, x = VString s) \/ (exists n, x = VNumber n)).
  { intros x Hx. specialize (H _ (own_props_values _ _ _ Hx)).
    destruct x; simpl in H; try discriminate; eauto. }
  unfold get.
  destruct entry; try (destruct (own_props _ !! key) as [x|] eqn:Hx; simpl;
                       [right; now apply Hown|now left]).
  destruct (String.eqb key "length"); [right; right; eauto|].
  destruct (own_props _ !! key) as [x|] eqn:Hx; simpl; [right; now apply Hown|now left].
Qed.


Lemma stringValidator_iff (v : value) :
  stringValidator v = true <-> exists s, v = VString s.
Proof.
  split; [apply stringValidator_spec|]. now intros [s ->].
Qed.

Lemma numberValidator_iff (v : value) :
  numberValidator v = true <-> exists n, v = VNumber n /\ Number.isFinite n = true.
Proof.
  split; [apply numberValidator_spec|]. now intros (n & -> & H).
Qed.

Lemma positiveNumberValidator_iff (v : value) :
  positiveNumberValidator v = true <->
  exists n, v = VNumber n /\ Number.isFinite n = true /\ Number.ltb (Number.ofZ 0) n = true.
Proof.
  unfold positiveNumberValidator. rewrite andb_true_iff, numberValidator_iff. split.
  - intros [(n & -> & Hn) Hp]. eauto.
  - intros (n & -> & Hn & Hp). eauto.
Qed.

Lemma optional_or (test : value -> bool) (v : value) :
  ((v = VUndefined /\ required (optional (total test)) = false)
   \/ validator (optional (total test)) v = Ok true)
  <-> (v = VUndefined \/ test v = true).
Proof.
  cbn [validator required optional]. rewrite total_true.
  split; [intros [[-> _]|H]; auto|intros [->|H]; auto].
Qed.

Lemma required_or (validate : ValidatorFunction) (v : value) :
  ((v = VUndefined /\ required {| validator := validate; required := true |} = false)
   \/ validator {| validator := validate; required := true |} v = Ok true)
  <-> validate v = Ok true.
Proof. split; [intros [[_ H]|H]; [discriminate|exact H]|intros H; right; exact H]. Qed.

(** What the schema of maps accepts. *)
Lemma map_schema_spec (mapData : value) :
  SchemaValidator.map mapData = Ok true <->
  isNonEmptyObject mapData = true
  /\ string_or_absent (get mapData "name")
  /\ sourcevalidator (get mapData "image") = Ok true
  /\ finite_or_absent (get mapData "height")
  /\ finite_or_absent (get mapData "minZoom")
  /\ finite_or_absent (get mapData "maxZoom")
  /\ finite_or_absent (get mapData "defaultZoom")
  /\ positive_or_absent (get mapData "zoomDelta")
  /\ finite_or_absent (get mapData "scale")
  /\ string_or_absent (get mapData "unit").
Proof.
  unfold SchemaValidator.map. rewrite schemaValidator_spec.
  unfold string_or_absent, finite_or_absent, positive_or_absent.
  rewrite <- !stringValidator_iff, <- !numberValidator_iff, <- positiveNumberValidator_iff.
  split.
  - intros [Hne H]. split; [exact Hne|].
    pose proof (proj1 (optional_or _ _) (H "name" _ eq_refl)) as H1.
    pose proof (proj1 (required_or _ _) (H "image" _ eq_refl)) as H2.
    pose proof (proj1 (optional_or _ _) (H "height" _ eq_refl)) as H3.
    pose proof (proj1 (optional_or _ _) (H "minZoom" _ eq_refl)) as H4.
    pose proof (proj1 (optional_or _ _) (H "maxZoom" _ eq_refl)) as H5.
    pose proof (proj1 (optional_or _ _) (H "defaultZoom" _ eq_refl)) as H6.
    pose proof (proj1 (optional_or _ _) (H "zoomDelta" _ eq_refl)) as H7.
    pose proof (proj1 (optional_or _ _) (H "scale" _ eq_refl)) as H8.
    pose proof (proj1 (optional_or _ _) (H "unit" _ eq_refl)) as H9.
    exact (conj H1 (conj H2 (conj H3 (conj H4 (conj H5 (conj H6 (conj H7 (conj H8 H9)))))))).
  - intros (Hne & H1 & H2 & H3 & H4 & H5 & H6 & H7 & H8 & H9). split; [exact Hne|].
    intros key entry Hk. unfold mapSchema in Hk. apply elem_of_list_to_map_2 in Hk.
    repeat (apply elem_of_cons in Hk as [[= -> ->]|Hk]);
      [apply optional_or; exact H1|apply required_or; exact H2|apply optional_or; exact H3
      |apply optional_or; exact H4|apply optional_or; exact H5|apply optional_or; exact H6
      |apply optional_or; exact H7|apply optional_or; exact H8|apply optional_or; exact H9
      |inversion Hk].
Qed.

End Entries.

Section AcceptedEntries.

Lemma colourValidator_iff (v : value) :
  colourValidator v = true <-> exists s, v = VString s /\ ends_with_three_hex_digits s.
Proof.
  unfold colourValidator. destruct v; try (split; [discriminate|intros (? & [=] & _)]).
  rewrite hexColourValidation_spec. split; [eauto|]. now intros (? & [= <-] & H).
Qed.

Lemma iconValidator_iff (v : value) :
  iconValidator v = true <-> exists s, v = VString s /\ holds_a_lowercase_letter s.
Proof.
  unfold iconValidator. destruct v; try (split; [discriminate|intros (? & [=] & _)]).
  rewrite iconValidation_spec. split; [eauto|]. now intros (? & [= <-] & H).
Qed.

Lemma coordinatesValidator_iff (v : value) :
  coordinatesValidator v = true <-> exists s, v = VString s /\ holds_a_coordinate_pair s.
Proof.
  unfold coordinatesValidator. destruct v; try (split; [discriminate|intros (? & [=] & _)]).
  rewrite coordinatesValidation_spec. split; [eauto|]. now intros (? & [= <-] & H).
Qed.

(** What the schema of markers accepts. *)
Lemma marker_schema_spec (entry : value) :
  SchemaValidator.marker entry = Ok true <->
  isNonEmptyObject entry = true
  /\ string_or_absent (get entry "mapName")
  /\ (exists s, get entry "coordinates" = VString s /\ holds_a_coordinate_pair s)
  /\ string_like_or_absent holds_a_lowercase_letter (get entry "icon")
  /\ string_like_or_absent ends_with_three_hex_digits (get entry "colour")
  /\ finite_or_absent (get entry "minZoom").
Proof.
  unfold SchemaValidator.marker. rewrite schemaValidator_spec.
  unfold string_or_absent, finite_or_absent, string_like_or_absent.
  rewrite <- !stringValidator_iff, <- !numberValidator_iff, <- colourValidator_iff,
    <- iconValidator_iff, <- coordinatesValidator_iff.
  split.
  - intros [Hne H]. split; [exact Hne|].
    pose proof (proj1 (optional_or _ _) (H "mapName" _ eq_refl)) as H1.
    pose proof (proj1 (total_true _ _)
                  (proj1 (required_or _ _) (H "coordinates" _ eq_refl))) as H2.
    pose proof (proj1 (optional_or _ _) (H "icon" _ eq_refl)) as H3.
    pose proof (proj1 (optional_or _ _) (H "colour" _ eq_refl)) as H4.
    pose proof (proj1 (optional_or _ _) (H "minZoom" _ eq_refl)) as H5.
    exact (conj H1 (conj H2 (conj H3 (conj H4 H5)))).
  - intros (Hne & H1 & H2 & H3 & H4 & H5). split; [exact Hne|].
    intros key e Hk. unfold markerSchema in Hk. apply elem_of_list_to_map_2 in Hk.
    repeat (apply elem_of_cons in Hk as [[= -> ->]|Hk]);
      [apply optional_or; exact H1|apply required_or, total_true; exact H2
      |apply optional_or; exact H3|apply optional_or; exact H4
      |apply optional_or; exact H5|inversion Hk].
Qed.

(** On what a proper entry holds, [sourcevalidator] throws nothing. *)
Lemma sourcevalidator_proper (v : value) :
  (v = VUndefined \/ (exists s, v = VString s) \/ (exists n, v = VNumber n)) ->
  (exists b, sourcevalidator v = Ok b)
  /\ (sourcevalidator v = Ok true <-> image_source v).
Proof.
  unfold image_source, sourcevalidator, call_toString.
  intros [->|[[s ->]|[n ->]]]; cbn [hides_toString mbind Exc_bind toString].
  - split; [eauto|]. split; [discriminate|]. intros [(? & [=] & _)|(? & [=])].
  - split; [eauto|]. split.
    + intros [= H]. apply truthy_string in H. eauto.
    + intros [(? & [= <-] & H)|(? & [=])]. apply truthy_string in H. now rewrite H.
  - split; [eauto|]. split; [eauto|]. intros _.
    now rewrite (proj2 (truthy_string _) (Number_toString_nonempty n)).
Qed.

(** The validator of the maps throws nothing on the candidate of a proper
    entry. *)
Lemma map_schema_returns (view : value) :
  isProperEntry view = true -> exists b, SchemaValidator.map (candidate view) = Ok b.
Proof.
  intros Hp. apply schemaValidator_returns. intros key e Hk.
  unfold mapSchema in Hk. apply elem_of_list_to_map_2 in Hk.
  repeat (apply elem_of_cons in Hk as [[= -> ->]|Hk]);
    try (eexists; reflexivity); [|inversion Hk].
  cbn [validator]. unfold candidate.
  match goal with |- context [get (VObject (list_to_map
      [(_, ?v1); (_, ?v2); (_, ?v3); (_, ?v4); (_, ?v5); (_, ?v6); (_, ?v7);
       (_, ?v8); (_, ?v9)])) "image"] =>
    destruct (candidate_fields v1 v2 v3 v4 v5 v6 v7 v8 v9) as (_ & E & _)
  end.
  rewrite E. apply sourcevalidator_proper, proper_values, Hp.
Qed.

Lemma parseView_cases (view : value) :
  parseView view = Ok None \/ parseView view = Ok (Some (candidate view)).
Proof.
  unfold parseView.
  destruct (isProperEntry view) eqn:Hp; cbn [negb]; [|now left].
  destruct (negb (truthy (get view "type")) || _); [now left|].
  cbv zeta. destruct (map_schema_returns view Hp) as [[|] ->];
    cbn [mbind Exc_bind negb]; auto.
Qed.

Lemma parseView_returns (view : value) : exists r, parseView view = Ok r.
Proof. destruct (parseView_cases view) as [->| ->]; eauto. Qed.

Lemma parseFloat_empty : Number.parseFloat "" = Number.NaN.
Proof. reflexivity. Qed.


End AcceptedEntries.

Section ContainerDataSet.

Variable resolveRelative : string -> string -> string.
Variable transformLink : string -> string -> list string -> string.

Lemma truthy_printed_number (n : number) :
  truthy (VString (toString (VNumber n))) = true.
Proof. apply truthy_string, Number_toString_nonempty. Qed.

(** The data set of a map container, field by field. *)
Lemma container_dataset (print : value -> string) (ctx : BuildCtx)
    (currentSlug : string) (mapData : value) (ms : list value) :
  SchemaValidator.map mapData = Ok true ->
  let container := mapContainer resolveRelative transformLink ctx currentSlug mapData ms in
  let t := dataset_by print container in
  exists h z s,
  Client.isNonEmptyObject t = true
  /\ get t "src" = VString (print (VString
       (transformLink currentSlug (toString (get mapData "image")) (allSlugs ctx))))
  /\ get t "height" = VString (print (VNumber h))
  /\ get t "minZoom" = VString (print (VNumber (minZoom mapData)))
  /\ get t "maxZoom" = VString (print (VNumber (maxZoom mapData)))
  /\ get t "defaultZoom" = VString (print (VNumber (clamp
       (the_number (nullish (get mapData "defaultZoom") (VNumber (minZoom mapData))))
       (minZoom mapData) (maxZoom mapData))))
  /\ get t "zoomDelta" = VString (print (VNumber z))
  /\ get t "scale" = VString (print (VNumber s))
  /\ get t "unit" = VString (print (VString (rendered_unit mapData))).
Proof.
  intros Hvalid container t. subst t container. unfold mapContainer, rendered_unit.
  apply map_schema_spec in Hvalid as (_ & _ & _ & Hh & _ & _ & _ & Hz & Hs & Hu).
  assert (Hn : forall v d, finite_or_absent v -> exists n, nullish v (VNumber d) = VNumber n).
  { intros v d [->|(n & -> & _)]; simpl; eauto. }
  destruct (Hn _ C.map.default.height Hh) as [h ->].
  destruct (Hn (get mapData "zoomDelta") C.map.default.zoomDelta) as [z ->].
  { destruct Hz as [->|(n & -> & H & _)]; [now left|right; eauto]. }
  destruct (Hn _ C.map.default.scale Hs) as [s ->].
  assert (Hunit : exists u, nullish (get mapData "unit") (VString C.map.default.unit) = VString u).
  { destruct Hu as [->|(u & ->)]; simpl; eauto. }
  destruct Hunit as [u ->].
  exists h, z, s.
  generalize (transformLink currentSlug (toString (get mapData "image")) (allSlugs ctx)).
  generalize (map (fun marker => buildMarkerElement resolveRelative marker currentSlug (minZoom mapData))
     ms).
  generalize (clamp (the_number (nullish (get mapData "defaultZoom") (VNumber (minZoom mapData))))
        (minZoom mapData) (maxZoom mapData)).
  generalize (maxZoom mapData). generalize (minZoom mapData).
  intros a b c kids src.
  vm_compute; repeat split.
Qed.

Lemma container_accepted (ctx : BuildCtx) (currentSlug : string) (mapData : value)
    (ms : list value) :
  SchemaValidator.map mapData = Ok true ->
  Client.isMapDataSet
    (dataset (mapContainer resolveRelative transformLink ctx currentSlug mapData ms))
  = negb (String.eqb (transformLink currentSlug (toString (get mapData "image")) (allSlugs ctx)) "")
    && negb (String.eqb (rendered_unit mapData) "").
Proof.
  intros Hvalid.
  destruct (container_dataset toString ctx currentSlug mapData ms Hvalid)
    as (h & z & s & H0 & H1 & H2 & H3 & H4 & H5 & H6 & H7 & H8).
  unfold Client.isMapDataSet, dataset.
  rewrite H0, H1, H2, H3, H4, H5, H6, H7, H8.
  rewrite !truthy_printed_number.
  cbn [negb orb toString truthy]. 
  destruct (String.eqb _ ""); [reflexivity|]. cbn [negb orb andb].
  now destruct (String.eqb _ "").
Qed.

End ContainerDataSet.

Section MarkerDataSet.

Variable resolveRelative : string -> string -> string.

Lemma is_prefix_spec (p l : list ascii) :
  is_prefix p l = true <-> exists rest, l = p ++ rest.
Proof.
  revert l. induction p as [|a p IH]; intros l; simpl.
  - split; eauto.
  - destruct l as [|b l]; [split; [discriminate|intros [? H]; discriminate]|].
    rewrite andb_true_iff, Ascii.eqb_eq, IH. split.
    + intros [-> [rest ->]]. eauto.
    + intros [rest [= -> ->]]. eauto.
Qed.

(** Removing the first occurrence of [pat] leaves nothing only of [pat]
    itself and of the empty string. *)
Lemma replace_first_empty (pat l : list ascii) :
  replace_first pat [] l = [] <-> l = [] \/ l = pat.
Proof.
  split.
  - intros H. destruct l as [|c r]; [now left|right].
    simpl in H. destruct (is_prefix pat (c :: r)) eqn:Hp; [|discriminate].
    apply is_prefix_spec in Hp as [rest Hrest].
    rewrite Hrest in H |- *. simpl in H. rewrite drop_app_length in H. subst.
    now rewrite app_nil_r.
  - intros [-> | ->].
    + destruct pat; reflexivity.
    + destruct pat as [|a p]; [reflexivity|].
      unfold replace_first.
      assert (Hp : is_prefix (a :: p) (a :: p) = true)
        by (apply is_prefix_spec; exists []; now rewrite app_nil_r).
      rewrite Hp. simpl. now rewrite drop_all.
Qed.

Lemma replace_first_prefix (pat rest : list ascii) :
  replace_first pat [] (pat ++ rest) = rest.
Proof.
  assert (Hp : is_prefix pat (pat ++ rest) = true) by (apply is_prefix_spec; eauto).
  destruct (pat ++ rest) eqn:E; simpl; rewrite Hp; rewrite <- E;
    now rewrite drop_app_length.
Qed.

Lemma coordinate_pair_nonempty (s : string) : holds_a_coordinate_pair s -> s <> "".
Proof.
  intros (pre & d1 & w1 & w2 & d2 & post & H & _) ->. destruct pre; discriminate.
Qed.

Lemma three_hex_digits_nonempty (s : string) : ends_with_three_hex_digits s -> s <> "".
Proof. intros (pre & a & b & c & H & _) ->. destruct pre; discriminate. Qed.

Lemma lowercase_letter_nonempty (s : string) : holds_a_lowercase_letter s -> s <> "".
Proof. intros (pre & c & post & H & _) ->. destruct pre; discriminate. Qed.

Lemma nullish_string (v : value) (d s : string) :
  nullish v (VString d) = VString s -> s <> d -> v = VString s.
Proof. destruct v; simpl; intros H Hne; try discriminate; try exact H; congruence. Qed.

Lemma marker_record_name (entry name : value) (link : string) :
  get (marker_record entry name link) "name" = name
  /\ get (marker_record entry name link) "link" = VString link.
Proof.
  unfold marker_record, get. simpl own_props.
  rewrite lookup_insert_eq. rewrite lookup_insert_ne by discriminate.
  now rewrite lookup_insert_eq.
Qed.

(** The icon a marker record renders. *)
Lemma marker_element_dataset (print : value -> string) (entry : value)
    (title link currentSlug : string) (mapMinZoom : number) :
  SchemaValidator.marker entry = Ok true ->
  let marker := marker_record entry (VString title) link in
  let t := dataset_by print (buildMarkerElement resolveRelative marker currentSlug mapMinZoom) in
  exists coordinates icon colour z,
    nullish (get entry "icon") (VString C.marker.default.icon) = VString icon
    /\ icon <> ""
    /\ Client.isNonEmptyObject t = true
    /\ get t "name" = VString (print (VString title))
    /\ get t "link" = VString (print (VString (resolveRelative currentSlug link)))
    /\ get t "coordinates" = VString (print (VString coordinates)) /\ coordinates <> ""
    /\ get t "icon"
       = VString (print (VString (str (replace_first (chars "lucide-") [] (chars icon)))))
    /\ get t "colour" = VString (print (VString colour)) /\ colour <> ""
    /\ get t "minZoom" = VString (print (VNumber z)).
Proof.
  intros Hv marker t. subst t. unfold buildMarkerElement.
  destruct (marker_record_name entry (VString title) link) as [Hname Hlink].
  fold marker in Hname, Hlink. rewrite Hname, Hlink.
  subst marker. unfold marker_record. rewrite !get_marker_entry by discriminate.
  apply marker_schema_spec in Hv as (_ & _ & (c & Hc & Hcp) & Hi & Hcol & Hz).
  rewrite Hc.
  assert (Hicon : exists icon, nullish (get entry "icon") (VString C.marker.default.icon)
                               = VString icon /\ icon <> "").
  { destruct Hi as [->|(i & -> & Hi')]; simpl; [eexists; split; [reflexivity|discriminate]|].
    exists i. split; [reflexivity|now apply lowercase_letter_nonempty]. }
  destruct Hicon as (icon & Hicon & Hine). rewrite Hicon.
  assert (Hcolour : exists colour, nullish (get entry "colour") (VString C.marker.default.colour)
                               = VString colour /\ colour <> "").
  { destruct Hcol as [->|(i & -> & Hi')]; simpl; [eexists; split; [reflexivity|discriminate]|].
    exists i. split; [reflexivity|now apply three_hex_digits_nonempty]. }
  destruct Hcolour as (colour & Hcolour & Hcne). rewrite Hcolour.
  assert (Hzoom : exists z, nullish (get entry "minZoom") (VNumber mapMinZoom) = VNumber z).
  { destruct Hz as [->|(n & -> & _)]; simpl; eauto. }
  destruct Hzoom as (z & ->).
  exists c, icon, colour, z.
  split; [reflexivity|]. split; [exact Hine|].
  assert (Hcne' : c <> "") by now apply coordinate_pair_nonempty.
  cbn [the_string].
  generalize (resolveRelative currentSlug link).
  generalize (str (replace_first (chars "lucide-") [] (chars icon))).
  intros i l. clear - Hcne Hcne'.
  vm_compute. repeat split; assumption.
Qed.

Lemma marker_element_accepted (entry : value) (title link currentSlug : string)
    (mapMinZoom : number) :
  SchemaValidator.marker entry = Ok true -> title <> "" ->
  Client.isMarkerDataSet
    (dataset (buildMarkerElement resolveRelative
                (marker_record entry (VString title) link) currentSlug mapMinZoom)) = true
  <-> resolveRelative currentSlug link <> "" /\ get entry "icon" <> VString "lucide-".
Proof.
  intros Hv Ht.
  destruct (marker_element_dataset toString entry title link currentSlug mapMinZoom Hv)
    as (c & icon & colour & z & Hicon & Hine & H0 & H1 & H2 & H3 & Hc & H4 & H5 & Hcol & H6).
  unfold Client.isMarkerDataSet, dataset.
  rewrite H0, H1, H2, H3, H4, H5, H6. rewrite truthy_printed_number.
  cbn [toString negb].
  rewrite (proj2 (truthy_string title) Ht), (proj2 (truthy_string c) Hc),
    (proj2 (truthy_string colour) Hcol).
  cbn [negb orb]. rewrite !orb_false_r. rewrite negb_true_iff, orb_false_iff, !negb_false_iff.
  rewrite !truthy_string.
  assert (Hi : str (replace_first (chars "lucide-") [] (chars icon)) <> ""
               <-> get entry "icon" <> VString "lucide-").
  { rewrite <- chars_empty, chars_str, replace_first_empty, chars_empty.
    split.
    - intros H Heq. rewrite Heq in Hicon. injection Hicon as <-. apply H. now right.
    - intros H [->|Heq]; [congruence|]. apply H.
      assert (Hl : icon = "lucide-") by (rewrite <- (str_chars icon), Heq; reflexivity).
      rewrite <- Hl. apply (nullish_string _ _ _ Hicon). rewrite Hl. discriminate. }
  now rewrite Hi.
Qed.

End MarkerDataSet.

Section Coordinates.
Import Client.

Lemma split_on_length (sep : ascii) (l : list ascii) :
  length (split_on sep l) = S (length (List.filter (Ascii.eqb sep) l)).
Proof.
  induction l as [|c r IH]; [reflexivity|]. simpl.
  rewrite (Ascii.eqb_sym sep c). destruct (Ascii.eqb c sep); simpl.
  - now rewrite IH.
  - destruct (split_on sep r); simpl in *; [discriminate|exact IH].
Qed.

Lemma parseCoordinates_length (e : string) :
  length (map (fun t => Number.parseInt (str t))
            (split_on "," (remove_spaces (chars e))))
  = S (commas e).
Proof.
  rewrite length_map, split_on_length, remove_spaces_commas. reflexivity.
Qed.

Lemma parseCoordinates_spec (e : string) :
  parseCoordinates e
  = if Nat.eqb (commas e) 1
    then Ok (map (fun t => Number.parseInt (str t))
               (split_on "," (remove_spaces (chars e))))
    else Throw (ErrorOf "Coordinates not properly validated").
Proof.
  unfold parseCoordinates. rewrite parseCoordinates_length.
  change (S (commas e) =? 2)%nat with (commas e =? 1)%nat.
  now destruct (commas e =? 1)%nat.
Qed.

Lemma span_all {A} (p : A -> bool) (l rest : list A) :
  Forall (fun c => p c = true) l ->
  (match rest with [] => True | c :: _ => p c = false end) ->
  span p (l ++ rest) = (l, rest).
Proof.
  intros Hl Hrest. induction Hl as [|c l Hc _ IH]; simpl.
  - destruct rest as [|c r]; [reflexivity|]. simpl. now rewrite Hrest.
  - now rewrite Hc, IH.
Qed.

Lemma ofDecimal_integer (n : N) :
  Number.ofDecimal false n 0 = Number.ofZ (Z.of_N n).
Proof.
  destruct n as [|p]; [reflexivity|]. unfold Number.ofDecimal, Number.ofZ.
  simpl Z.of_N. unfold binary_normalize.
  replace (Z.to_pos (Z.pos p * 10 ^ 0)) with p; [reflexivity|].
  rewrite Z.pow_0_r, Z.mul_1_r. reflexivity.
Qed.

(** [parseInt] of a run of digits is the integer the digits write. *)
Lemma parseInt_digits (ds : list ascii) :
  ds <> [] -> all_in is_digit ds ->
  Number.parseInt (str ds) = Number.ofZ (Z.of_N (decimal_of ds)).
Proof.
  intros Hne Hds. unfold Number.parseInt. rewrite chars_str.
  destruct ds as [|d ds]; [congruence|]. apply Forall_cons in Hds as [Hd Hds].
  rewrite trim_start_eq, after_space_digit by now left.
  assert (Hsign : Ascii.eqb d "-" = false /\ Ascii.eqb d "+" = false).
  { destruct d as [b0 b1 b2 b3 b4 b5 b6 b7].
    destruct b0, b1, b2, b3, b4, b5, b6, b7; try discriminate; split; reflexivity. }
  destruct Hsign as [-> ->].
  assert (Hhex : is_prefix (chars "0x") (d :: ds) || is_prefix (chars "0X") (d :: ds) = false).
  { change (chars "0x") with ["0"; "x"]%char. change (chars "0X") with ["0"; "X"]%char.
    destruct ds as [|x ds]; cbn [is_prefix]; [now rewrite !andb_false_r|].
    apply Forall_cons in Hds as [Hx _].
    assert (Ascii.eqb "x" x = false /\ Ascii.eqb "X" x = false) as [-> ->].
    { destruct x as [b0 b1 b2 b3 b4 b5 b6 b7].
      destruct b0, b1, b2, b3, b4, b5, b6, b7; try discriminate; split; reflexivity. }
    now rewrite !andb_false_r. }
  rewrite Hhex.
  rewrite <- (app_nil_r (d :: ds)) at 1.
  rewrite (span_all is_digit (d :: ds) []); [|now constructor|exact I].
  apply ofDecimal_integer.
Qed.

Lemma split_on_pair (d1 d2 : list ascii) :
  all_in is_digit d1 -> all_in is_digit d2 ->
  split_on "," (d1 ++ ","%char :: d2) = [d1; d2].
Proof.
  assert (Hnc : forall c, is_digit c = true -> Ascii.eqb c "," = false).
  { intros [b0 b1 b2 b3 b4 b5 b6 b7].
    destruct b0, b1, b2, b3, b4, b5, b6, b7; try discriminate; reflexivity. }
  assert (Hd2 : forall d, all_in is_digit d -> split_on "," d = [d]).
  { induction 1 as [|c l Hc _ IH]; [reflexivity|]. simpl.
    now rewrite (Hnc c Hc), IH. }
  intros H1 H2. induction H1 as [|c l Hc _ IH]; simpl.
  - now rewrite Hd2.
  - now rewrite (Hnc c Hc), IH.
Qed.

Lemma remove_spaces_pair (d1 w1 w2 d2 : list ascii) :
  all_in is_digit d1 -> white w1 -> white w2 -> all_in is_digit d2 ->
  remove_spaces (d1 ++ w1 ++ ","%char :: w2 ++ d2) = d1 ++ ","%char :: d2.
Proof.
  intros H1 Hw1 Hw2 H2.
  assert (Hd : forall d, all_in is_digit d ->
            Forall (fun c => is_digit c = true \/ c = ","%char) d).
  { intros d H. eapply Forall_impl; [exact H|]. intros c Hc. now left. }
  rewrite remove_spaces_digits by now apply Hd.
  rewrite (proj2 (white_app w1 _ Hw1)).
  change (","%char :: w2 ++ d2) with ([","%char] ++ w2 ++ d2).
  rewrite remove_spaces_digits by (constructor; [now right|constructor]).
  rewrite (proj2 (white_app w2 _ Hw2)).
  rewrite <- (app_nil_r d2) at 1. rewrite remove_spaces_digits by now apply Hd.
  cbn [remove_spaces app]. now rewrite app_nil_r.
Qed.

Lemma parseCoordinates_pair (e : string) (d1 w1 w2 d2 : list ascii) :
  chars e = d1 ++ w1 ++ ","%char :: w2 ++ d2 ->
  d1 <> [] -> d2 <> [] ->
  all_in is_digit d1 -> white w1 -> white w2 -> all_in is_digit d2 ->
  parseCoordinates e
  = Ok [Number.ofZ (Z.of_N (decimal_of d1)); Number.ofZ (Z.of_N (decimal_of d2))].
Proof.
  intros He Hn1 Hn2 H1 Hw1 Hw2 H2. unfold parseCoordinates.
  rewrite He, remove_spaces_pair, split_on_pair by assumption.
  simpl. now rewrite !parseInt_digits.
Qed.

End Coordinates.

Section Distance.
Import Number.

Lemma binary_round_aux_sign (s : bool) (m e : Z) (l : location) :
  binary_round_aux prec emax (negb s) m e l = SFopp (binary_round_aux prec emax s m e l).
Proof.
  unfold binary_round_aux.
  destruct (shr_fexp prec emax m e l) as [mrs' e'].
  destruct (shr_fexp prec emax _ e' loc_Exact) as [mrs'' e''].
  destruct (shr_m mrs''); [reflexivity| |reflexivity].
  now destruct (_ <=? _).
Qed.

Lemma binary_round_sign (s : bool) (m : positive) (e : Z) :
  binary_round prec emax (negb s) m e = SFopp (binary_round prec emax s m e).
Proof.
  unfold binary_round. destruct (shl_align m e _) as [mz ez].
  apply binary_round_aux_sign.
Qed.

(** The two differences of two numbers are equal or opposite. *)
Lemma sub_swap (a b : number) : sub a b = sub b a \/ sub a b = SFopp (sub b a).
Proof.
  unfold sub.
  destruct a as [sa|sa| |sa ma ea], b as [sb|sb| |sb mb eb]; simpl;
    try (destruct sa, sb; simpl; auto; fail);
    try (destruct sa; simpl; auto; fail);
    try (destruct sb; simpl; auto; fail); auto.
  rewrite (Z.min_comm eb ea).
  set (A := cond_Zopp sa _). set (B := cond_Zopp sb _).
  replace (B - A) with (- (A - B)) by lia.
  destruct (A - B) as [|p|p]; simpl; [now left|right|right].
  - apply (binary_round_sign true).
  - apply (binary_round_sign false).
Qed.

Lemma square_opp (x : number) : mul (SFopp x) (SFopp x) = mul x x.
Proof.
  unfold mul. destruct x as [s|s| |s m e]; simpl; try reflexivity.
  - now destruct s.
  - now destruct s.
  - now destruct s.
Qed.

Lemma square_swap (a b : number) :
  mul (sub a b) (sub a b) = mul (sub b a) (sub b a).
Proof. destruct (sub_swap a b) as [->| ->]; [reflexivity|apply square_opp]. Qed.

Lemma binary_round_aux_not_negative (m e : Z) (l : location) :
  SFltb (binary_round_aux prec emax false m e l) (ofZ 0) = false.
Proof.
  unfold binary_round_aux.
  destruct (shr_fexp prec emax m e l) as [mrs' e'].
  destruct (shr_fexp prec emax _ e' loc_Exact) as [mrs'' e''].
  destruct (shr_m mrs''); [reflexivity| |reflexivity].
  now destruct (_ <=? _).
Qed.

(** A square root is never below zero. *)
Lemma sqrt_not_negative (x : number) : ltb (sqrt x) (ofZ 0) = false.
Proof.
  unfold ltb, sqrt. destruct x as [s|s| |s m e]; simpl; try reflexivity.
  - now destruct s.
  - destruct s; [reflexivity|].
    destruct (SFsqrt_core_binary prec emax (Z.pos m) e) as [[mz ez] lz].
    apply binary_round_aux_not_negative.
Qed.

End Distance.

Section Path.
Import Client.

Lemma segments_snoc (l : list LatLng) (p : LatLng) :
  segments (l ++ [p])
  = segments l ++ match last l with Some o => [(o, p)] | None => [] end.
Proof.
  induction l as [|a l IH]; [reflexivity|].
  destruct l as [|b l]; [reflexivity|].
  change (segments ((a :: b :: l) ++ [p])) with ((a, b) :: segments ((b :: l) ++ [p])).
  rewrite IH. reflexivity.
Qed.

Lemma path_length_snoc (scale : number) (l : list LatLng) (p : LatLng) :
  path_length scale (l ++ [p])
  = match last l with
    | Some o => Number.add (path_length scale l) (Number.mul (distance p o) scale)
    | None => path_length scale l
    end.
Proof.
  unfold path_length. rewrite segments_snoc, fold_left_app.
  now destruct (last l).
Qed.

Lemma clickAll_snoc (ps : list LatLng) (p : LatLng) (c : MeasureControl) :
  clickAll (ps ++ [p]) c = c' ← clickAll ps c; mapClicked p c'.
Proof.
  revert c. induction ps as [|q ps IH]; intros c; simpl.
  - now destruct (mapClicked p c).
  - destruct (mapClicked q c) as [c'|e]; simpl; [apply IH|reflexivity].
Qed.

(** A click that adds a vertex. *)
Lemma mapClicked_vertex (t : LatLng) (c : MeasureControl) :
  added c = true -> state c = Ready \/ state c = Measuring ->
  exists c', mapClicked t c = Ok c'
    /\ state c' = Measuring /\ added c' = true /\ options c' = options c
    /\ pathItems c' = pathItems c ++ [t] /\ pathLine c' = pathItems c ++ [t]
    /\ distance_ c' =
         match last (pathItems c) with
         | Some o => Number.add (distance_ c) (Number.mul (distance t o) (scale c))
         | None => distance_ c
         end.
Proof.
  intros Hadded Hst. unfold mapClicked. rewrite Hadded. cbn [negb].
  assert (Hgo : forall c0, pathItems c0 = pathItems c ++ [t] ->
            state c0 = Measuring -> distance_ c0 = distance_ c ->
            options c0 = options c -> added c0 = true ->
            let c' := renderPreview t
                        (set_preview (previewTooltip (renderPath c0))
                           (previewAt (renderPath c0)) true (renderPath c0)) in
            state c' = Measuring /\ added c' = true /\ options c' = options c
            /\ pathItems c' = pathItems c ++ [t] /\ pathLine c' = pathItems c ++ [t]
            /\ distance_ c' =
                 match last (pathItems c) with
                 | Some o => Number.add (distance_ c) (Number.mul (distance t o) (scale c))
                 | None => distance_ c
                 end).
  { intros c0 Hp Hs Hd Ho Ha c'.
    destruct (renderPath_snoc c0 _ _ Hp) as (Rs & Rp & Ra & Ro & Rd & _ & _ & Rl).
    destruct (renderPreview_fields t
                (set_preview (previewTooltip (renderPath c0))
                   (previewAt (renderPath c0)) true (renderPath c0)))
      as (Ps & Pp & Pd & _ & _ & Pa & Pl & Po).
    subst c'. rewrite Ps, Pp, Pd, Pa, Pl, Po. simpl.
    rewrite Rs, Rp, Ra, Ro, Rd, Rl, Hs, Hd, Ha, Ho.
    unfold scale. rewrite Ho. auto 10. }
  destruct Hst as [Hst|Hst]; rewrite Hst; eexists; (split; [reflexivity|]);
    apply Hgo; reflexivity || exact Hadded.
Qed.

(** A click that adds a vertex draws it: the new circle marker is the last
    element, and it listens. *)
Lemma mapClicked_draws (t : LatLng) (c : MeasureControl) :
  added c = true -> state c = Ready \/ state c = Measuring ->
  exists c', mapClicked t c = Ok c'
    /\ lastElement c' = Some (length (points c))
    /\ points c' !! length (points c)
       = Some {| at_ := t; listening := true; shown := true; tooltip := None |}.
Proof.
  intros Hadded Hst. unfold mapClicked. rewrite Hadded. cbn [negb].
  assert (Hgo : forall c0, pathItems c0 = pathItems c ++ [t] ->
            points c0 = points c ->
            let c' := renderPreview t
                        (set_preview (previewTooltip (renderPath c0))
                           (previewAt (renderPath c0)) true (renderPath c0)) in
            lastElement c' = Some (length (points c))
            /\ points c' !! length (points c)
               = Some {| at_ := t; listening := true; shown := true; tooltip := None |}).
  { intros c0 Hp Hpts c'.
    destruct (renderPath_snoc c0 _ _ Hp) as (_ & _ & _ & _ & _ & Rl & Rpts & _).
    destruct (renderPreview_fields t
                (set_preview (previewTooltip (renderPath c0))
                   (previewAt (renderPath c0)) true (renderPath c0)))
      as (_ & _ & _ & Pl & Ppts & _).
    pose proof (cleanLastElement_fields c0) as (_ & _ & _ & _ & _ & _ & Hlen).
    subst c'. rewrite Pl, Ppts. cbn [lastElement points set_preview].
    rewrite Rl, Rpts, Hpts. split; [reflexivity|].
    rewrite <- Hpts, <- Hlen. apply list_lookup_middle. reflexivity. }
  destruct Hst as [Hst|Hst]; rewrite Hst; eexists; (split; [reflexivity|]);
    apply Hgo; reflexivity.
Qed.

(** A click on a circle marker that listens sets [Finishing]; a click on
    one that does not changes nothing. *)
Lemma vertexClicked_listening (i : nat) (c : MeasureControl) (p : CircleMarker) :
  points c !! i = Some p -> listening p = true -> shown p = true ->
  vertexClicked i c = set_state Finishing c.
Proof. intros Hp Hl Hs. unfold vertexClicked. now rewrite Hp, Hl, Hs. Qed.

Lemma vertexClicked_other (j : nat) (c : MeasureControl) :
  (forall p, points c !! j = Some p -> listening p = true -> False) ->
  vertexClicked j c = c.
Proof.
  intros H. unfold vertexClicked. destruct (points c !! j) as [p|] eqn:Hp; [|reflexivity].
  destruct (listening p) eqn:Hl; [|reflexivity]. destruct (H p eq_refl Hl).
Qed.


Lemma clickAll_path (ps : list LatLng) (c : MeasureControl) :
  added c = true -> state c = Ready -> pathItems c = [] -> distance_ c = Number.ofZ 0 ->
  exists c', clickAll ps c = Ok c'
    /\ added c' = true /\ options c' = options c
    /\ pathItems c' = ps
    /\ distance_ c' = path_length (scale c) ps
    /\ state c' = match ps with [] => Ready | _ => Measuring end
    /\ (ps <> [] -> pathLine c' = ps).
Proof.
  intros Hadded Hst Hp Hd.
  induction ps as [|p ps IH] using rev_ind.
  - exists c. simpl. repeat split; auto. congruence.
  - destruct IH as (c1 & Hc1 & Ha1 & Ho1 & Hp1 & Hd1 & Hs1 & _).
    destruct (mapClicked_vertex p c1 Ha1) as (c' & Hc' & Hs' & Ha' & Ho' & Hp' & Hl' & Hd').
    { rewrite Hs1. destruct ps; auto. }
    exists c'. rewrite clickAll_snoc, Hc1. simpl. split; [exact Hc'|].
    split; [exact Ha'|]. split; [congruence|]. split; [congruence|].
    split.
    { rewrite Hd', Hp1, Hd1, path_length_snoc.
      unfold scale. now rewrite Ho1. }
    split; [destruct ps; exact Hs'|].
    intros _. congruence.
Qed.

End Path.

Section Bar.
Import Client.

Local Ltac conjuncts := repeat match goal with |- _ /\ _ => split end.

Lemma cleanLastElement_pointer (c : MeasureControl) :
  isSelected (cleanLastElement c) = isSelected c
  /\ mousemove (cleanLastElement c) = mousemove c
  /\ cursor (cleanLastElement c) = cursor c.
Proof. unfold cleanLastElement. now destruct (lastElement c). Qed.

Lemma resetPath_pointer (c : MeasureControl) :
  isSelected (resetPath c) = isSelected c
  /\ mousemove (resetPath c) = mousemove c
  /\ cursor (resetPath c) = cursor c.
Proof.
  unfold resetPath. cbv zeta.
  pose proof (cleanLastElement_pointer (set_distance (Number.ofZ 0) (set_pathItems [] c)))
    as H.
  revert H. generalize (cleanLastElement (set_distance (Number.ofZ 0) (set_pathItems [] c))).
  intros c2 H. exact H.
Qed.

Lemma renderPath_pointer (c : MeasureControl) :
  isSelected (renderPath c) = isSelected c
  /\ mousemove (renderPath c) = mousemove c
  /\ cursor (renderPath c) = cursor c.
Proof.
  unfold renderPath.
  destruct (cleanLastElement_pointer c) as (H1 & H2 & H3).
  revert H1 H2 H3. generalize (cleanLastElement c). intros c0 H1 H2 H3. cbn.
  destruct (last (pathItems c0)); cbn; [|auto].
  destruct (last (removelast (pathItems c0))); cbn; auto.
Qed.

Lemma renderPreview_pointer (t : LatLng) (c : MeasureControl) :
  isSelected (renderPreview t c) = isSelected c
  /\ mousemove (renderPreview t c) = mousemove c
  /\ cursor (renderPreview t c) = cursor c.
Proof.
  unfold renderPreview. destruct (state c); auto.
  destruct (last (pathItems c)); auto.
Qed.

Lemma set_state_pointer (s : MeasureState) (c : MeasureControl) :
  isSelected (set_state s c) = isSelected c /\ mousemove (set_state s c) = mousemove c
  /\ cursor (set_state s c) = cursor c.
Proof. repeat split. Qed.

Lemma mapClicked_pointer (t : LatLng) (c c' : MeasureControl) :
  mapClicked t c = Ok c' ->
  isSelected c' = isSelected c /\ mousemove c' = mousemove c /\ cursor c' = cursor c.
Proof.
  unfold mapClicked. destruct (added c); cbn [negb]; [|discriminate].
  assert (Hpush : forall c0,
            isSelected c0 = isSelected c -> mousemove c0 = mousemove c ->
            cursor c0 = cursor c ->
            forall c2,
            c2 = renderPreview t
                   (set_preview (previewTooltip (renderPath c0)) (previewAt (renderPath c0))
                      true (renderPath c0)) ->
            isSelected c2 = isSelected c /\ mousemove c2 = mousemove c
            /\ cursor c2 = cursor c).
  { intros c0 H1 H2 H3 c2' ->.
    pose proof (renderPath_pointer c0) as R. revert R. generalize (renderPath c0).
    intros c1 (R1 & R2 & R3).
    pose proof (renderPreview_pointer t
                  (set_preview (previewTooltip c1) (previewAt c1) true c1)) as P.
    revert P.
    generalize (renderPreview t (set_preview (previewTooltip c1) (previewAt c1) true c1)).
    intros c2 (P1 & P2 & P3). cbn in P1, P2, P3.
    repeat split; congruence. }
  destruct (state c); intros [= <-].
  - exact (Hpush (set_pathItems (pathItems c ++ [t]) (set_state Measuring c))
             eq_refl eq_refl eq_refl _ eq_refl).
  - exact (Hpush (set_pathItems (pathItems c ++ [t]) (set_state Measuring c))
             eq_refl eq_refl eq_refl _ eq_refl).
  - destruct (lastElement c); repeat split.
  - destruct (set_state_pointer Ready (resetPath c)) as (-> & -> & ->).
    apply resetPath_pointer.
Qed.

Lemma setSelected_pointer (n : bool) (c : MeasureControl) :
  mousemove c = isSelected c ->
  isSelected (setSelected n c) = n /\ mousemove (setSelected n c) = n.
Proof.
  intros H. unfold setSelected.
  destruct (Bool.eqb (isSelected c) n) eqn:E.
  - apply Bool.eqb_prop in E. rewrite H. auto.
  - destruct n; [cbn; auto|].
    unfold onDeselected. cbv zeta.
    pose proof (resetPath_pointer (set_pointer "" false (set_isSelected false c))) as Hr.
    revert Hr. generalize (resetPath (set_pointer "" false (set_isSelected false c))).
    intros c2 (H1 & H2 & _). cbn. rewrite H1, H2. auto.
Qed.

Lemma setSelected_false_ready (c : MeasureControl) :
  (isSelected c = false -> state c = Ready) ->
  state (setSelected false c) = Ready.
Proof.
  intros H. unfold setSelected. destruct (isSelected c); [reflexivity|now apply H].
Qed.

Lemma vertexClicked_ready (j : nat) (c : MeasureControl) :
  measure_ok c -> state c = Ready -> vertexClicked j c = c.
Proof.
  intros (_ & Hready & _) Hst. unfold vertexClicked.
  destruct (points c !! j) as [p|] eqn:Hp; [|reflexivity].
  destruct (Hready Hst) as (_ & _ & Hall).
  rewrite Forall_lookup in Hall. destruct (Hall _ _ Hp) as [Hs Hl].
  now rewrite Hs, Hl.
Qed.

Lemma vertexClicked_pointer (j : nat) (c : MeasureControl) :
  isSelected (vertexClicked j c) = isSelected c
  /\ mousemove (vertexClicked j c) = mousemove c.
Proof.
  unfold vertexClicked. destruct (points c !! j) as [p|]; [|auto].
  destruct (listening p && shown p); auto.
Qed.

Lemma mapClicked_returns (l : LatLng) (c : MeasureControl) :
  added c = true -> exists c', mapClicked l c = Ok c'.
Proof.
  intros H. unfold mapClicked. rewrite H. cbn [negb]. destruct (state c); eauto.
Qed.

Lemma mapClicked_selected_state (l : LatLng) (c c' : MeasureControl) :
  mapClicked l c = Ok c' -> isSelected c = true ->
  isSelected c' = false -> state c' = Ready.
Proof.
  intros H Hsel Hc'. apply mapClicked_pointer in H as (H & _). congruence.
Qed.

Lemma onDeselected_fields (c : MeasureControl) :
  let d := onDeselected c in
  isSelected d = isSelected c /\ state d = Ready /\ pathItems d = []
  /\ distance_ d = Number.ofZ 0 /\ Forall (fun p => shown p = false) (points d).
Proof.
  unfold onDeselected. cbv zeta.
  pose proof (resetPath_fields (set_pointer "" false c))
    as (_ & Rp & Rd & _ & _ & _ & _ & _ & _ & _ & _ & Rh).
  pose proof (resetPath_pointer (set_pointer "" false c)) as (Rs & _ & _).
  revert Rp Rd Rh Rs. generalize (resetPath (set_pointer "" false c)).
  intros c0 Rp Rd Rh Rs. cbn in *. auto.
Qed.

(** Deselecting and selecting the measure tool again. *)
Lemma reselect_fields (c : MeasureControl) :
  isSelected c = true ->
  let c' := setSelected true (setSelected false c) in
  isSelected c' = true /\ state c' = Ready /\ pathItems c' = []
  /\ distance_ c' = Number.ofZ 0 /\ Forall (fun p => shown p = false) (points c')
  /\ cursor c' = "crosshair".
Proof.
  intros Hsel. unfold setSelected at 2. rewrite Hsel. cbn [Bool.eqb].
  pose proof (onDeselected_fields (set_isSelected false c)) as (Ds & Dst & Dp & Dd & Dh).
  revert Ds Dst Dp Dd Dh. generalize (onDeselected (set_isSelected false c)).
  intros d Ds Dst Dp Dd Dh. cbn in Ds.
  unfold setSelected. rewrite Ds. cbn. auto 10.
Qed.

Lemma bar_ok_added : bar_ok (ControlContainer.onAdd ControlContainer.create).
Proof.
  exists true, (options create), (onAdded create).
  split; [reflexivity|]. split; [now left|]. split; [reflexivity|].
  split; [reflexivity|]. split; [reflexivity|]. split; [reflexivity|].
  apply (measure_ok_added (options create)).
Qed.

Lemma bar_ok_select (s : nat) (k : ControlContainer) :
  bar_ok k -> (s = 0 \/ s = 1)%nat -> bar_ok (ControlContainer.onSelectCallback s k).
Proof.
  intros (sel & o & c & Hc & Ha & Hsel & Hm & Hmouse & Hready & Hok) Hs.
  unfold ControlContainer.onSelectCallback. rewrite Hc.
  assert (Hset : forall n, let c' := setSelected n c in
            isSelected c' = n /\ mousemove c' = n /\ measure_ok c'
            /\ (n = false -> state c' = Ready)).
  { intros n c'. destruct (setSelected_pointer n c Hmouse) as [H1 H2].
    split; [exact H1|]. split; [exact H2|]. split.
    - apply (measure_ok_react (Select n) c c' Hok eq_refl).
    - intros ->. now apply setSelected_false_ready. }
  destruct Ha as [Ha|Ha], Hs as [-> | ->]; rewrite Ha in *; cbn in Hsel, Hm; subst sel; cbn.
  - (* pan to pan *)
    exists true, o, c. rewrite Hm in *. cbn. conjuncts; auto.
  - (* pan to measure *)
    destruct (Hset true) as (H1 & H2 & H3 & _).
    exists false, o, (setSelected true c). cbn.
    conjuncts; auto; try congruence.
  - (* measure to pan *)
    destruct (Hset false) as (H1 & H2 & H3 & H4).
    exists true, o, (setSelected false c). cbn.
    conjuncts; auto; try congruence.
  - (* measure to measure *)
    destruct (Hset false) as (H1 & H2 & H3 & H4).
    assert (Hagain : mousemove (setSelected false c) = isSelected (setSelected false c))
      by congruence.
    destruct (setSelected_pointer true _ Hagain) as [G1 G2].
    exists false, o, (setSelected true (setSelected false c)). cbn.
    conjuncts; auto; try congruence.
    apply (measure_ok_react (Select true) _ _ H3 eq_refl).
Qed.

Lemma bar_ok_handle (e : BarEvent) (k k' : ControlContainer) :
  bar_ok k -> handle e k = Ok k' -> bar_ok k'.
Proof.
  intros Hk. pose proof Hk as (sel & o & c & Hc & Ha & Hsel & Hm & Hmouse & Hready & Hok).
  destruct e as [i|l|j|l|t]; cbn [handle].
  - intros [= <-]. unfold ControlContainer.buttonClicked. rewrite Hc.
    destruct i as [|[|i]]; cbn; [apply bar_ok_select; auto|apply bar_ok_select; auto|exact Hk].
  - unfold ControlContainer.click. rewrite Hc. cbn.
    assert (Hpan : (if sel then Ok (Pan 0 sel o) else Ok (Pan 0 sel o)) = Ok (Pan 0 sel o))
      by now destruct sel.
    rewrite Hpan. cbn.
    destruct (isSelected c) eqn:Hs; cbn.
    + destruct (mapClicked l c) as [c'|err] eqn:Hclick; cbn; [|discriminate].
      intros [= <-]. exists sel, o, c'. cbn.
      destruct (mapClicked_pointer _ _ _ Hclick) as (P1 & P2 & _).
      conjuncts; auto; try congruence.
      apply (measure_ok_mapClicked l c c' Hok Hclick).
    + intros [= <-]. exists sel, o, c. cbn. conjuncts; auto; congruence.
  - intros [= <-]. unfold on_measure. rewrite Hc. cbn.
    destruct (vertexClicked_pointer j c) as [P1 P2].
    exists sel, o, (vertexClicked j c). cbn. conjuncts; auto; try congruence.
    + intros Hs. rewrite P1 in Hs. rewrite vertexClicked_ready; auto.
    + apply (measure_ok_react (VertexClick j) c _ Hok eq_refl).
  - intros [= <-]. unfold on_measure. rewrite Hc. cbn.
    destruct (mousemove c) eqn:Hmm; [|exists sel, o, c; cbn; conjuncts; auto; congruence].
    destruct (renderPreview_pointer l c) as (P1 & P2 & _).
    destruct (renderPreview_fields l c) as (Ps & _).
    exists sel, o, (renderPreview l c). cbn. conjuncts; auto; try congruence.
    now apply measure_ok_preview.
  - intros [= <-]. unfold ControlContainer.updateSettings. rewrite Hc. cbn.
    eexists sel, _, (updateSettings t c). cbn. conjuncts; auto.
Qed.

Lemma bar_reachable_ok (k : ControlContainer) : bar_reachable k -> bar_ok k.
Proof.
  induction 1 as [|e k k' _ IH Hh]; [apply bar_ok_added|].
  now apply (bar_ok_handle e k k').
Qed.

End Bar.

Section MarkerRecords.

(** An accepted marker entry is a plain object. *)
Lemma marker_entry_object (entry : value) :
  SchemaValidator.marker entry = Ok true -> exists m, entry = VObject m.
Proof.
  intros Hv. apply marker_schema_spec in Hv as (Hne & _ & (s & Hs & _) & _).
  destruct entry; try discriminate; [|eauto].
  unfold get in Hs. simpl String.eqb in Hs. cbv iota in Hs.
  rewrite array_get in Hs; [discriminate|].
  intros c rest [= <- _]. reflexivity.
Qed.

Lemma marker_record_get (m : gmap string value) (name : value) (link key : string) :
  key <> "name" -> key <> "link" ->
  get (marker_record (VObject m) name link) key = get (VObject m) key.
Proof.
  intros H1 H2. unfold marker_record, get. simpl own_props.
  now rewrite !lookup_insert_ne by congruence.
Qed.

End MarkerRecords.

Section MarkerRecordFields.

Lemma marker_record_fields_of (entry name : value) (link : string) (marker : value) :
  parseMarkerFromEntry entry name link = Ok (Some marker) ->
  get marker "name" = name
  /\ get marker "link" = VString link
  /\ forall key, key <> "name" -> key <> "link" -> get marker key = get entry key.
Proof.
  intros Hparse. apply parseMarkerFromEntry_Some in Hparse as (-> & _ & Hv).
  destruct (marker_record_name entry name link) as [H1 H2].
  split; [exact H1|]. split; [exact H2|].
  intros key Hn Hl. destruct (marker_entry_object entry Hv) as [m ->].
  now apply marker_record_get.
Qed.

End MarkerRecordFields.

Section Outcomes.

Variable load : string -> Exc value.
Variable resolveRelative : string -> string -> string.
Variable transformLink : string -> string -> list string -> string.
Variable markerMap : gmap string (list value).
Variable ctx : BuildCtx.
Variable file : VFile.

Local Abbreviation visitor' := (visitor load resolveRelative transformLink markerMap ctx file).
Local Abbreviation visit' := (visit load resolveRelative transformLink markerMap ctx file).
Local Abbreviation child' :=
  (visited_child load resolveRelative transformLink markerMap ctx file).

(** [visit] on a node with children, by [visited_child]. *)
Lemma visit_children ty tag val props (kids : list Node) :
  visit' (mkNode ty tag val props (Some kids))
  = kids' ← mapM child' kids; mret (mkNode ty tag val props (Some kids')).
Proof.
  simpl. f_equal.
  induction kids as [|kid rest IH]; [reflexivity|].
  rewrite IH. simpl. unfold visited_child.
  destruct (if bool_decide (tagName kid = Some "code") then visitor' kid else mret None)
    as [leafletElement|e]; simpl; [|reflexivity].
  destruct (visit' kid) as [node'|e]; simpl; reflexivity.
Qed.


Lemma below_leaf ty tag val props : below (mkNode ty tag val props None) = [].
Proof. reflexivity. Qed.


(** The parser throws only what the loader throws. *)
Lemma parseMapFromNode_returns (node : Node) (entry : value) :
  load (source node) = Ok entry -> exists r, parseMapFromNode load node = Ok r.
Proof.
  intros He. unfold parseMapFromNode. rewrite He. cbn [mbind Exc_bind].
  destruct (get entry "views") as [| | | | |views|]; try (eexists; reflexivity).
  destruct (negb _); [eexists; reflexivity|].
  destruct (mapM_returns parseView views) as [parsed ->];
    [intros view _; apply parseView_returns|].
  eexists. reflexivity.
Qed.

Lemma parseMapFromNode_throws (node : Node) (e : Error) :
  parseMapFromNode load node = Throw e <-> load (source node) = Throw e.
Proof.
  destruct (load (source node)) as [entry|e0] eqn:Hload.
  - destruct (parseMapFromNode_returns node entry Hload) as [r ->].
    split; discriminate.
  - unfold parseMapFromNode. rewrite Hload. cbn [mbind Exc_bind].
    split; intros [= ->]; reflexivity.
Qed.




End Outcomes.

Section Initialisation.
Import Client.

Variable resolveRelative : string -> string -> string.

Lemma filter_all {A} (p : A -> bool) (l : list A) :
  Forall (fun x => p x = true) l -> List.filter p l = l.
Proof. induction 1 as [|x l Hx _ IH]; simpl; [reflexivity|]. now rewrite Hx, IH. Qed.

Lemma marker_element_selected (marker : value) (currentSlug : string) (z : number) :
  let o := buildMarkerElement resolveRelative marker currentSlug z in
  bool_decide (tagName o = Some "div") && has_class "leaflet-marker" o = true.
Proof.
  unfold buildMarkerElement.
  generalize (get marker "name") (resolveRelative currentSlug (the_string (get marker "link")))
    (get marker "coordinates")
    (str (replace_first (chars "lucide-") []
       (chars (the_string (nullish (get marker "icon") (VString C.marker.default.icon))))))
    (nullish (get marker "colour") (VString C.marker.default.colour))
    (nullish (get marker "minZoom") (VNumber z)).
  intros. vm_compute. reflexivity.
Qed.






Lemma get_own (t : value) (key : string) :
  key <> "length" -> truthy (get t key) = true -> own_props t !! key = Some (get t key).
Proof.
  intros Hk. unfold get.
  assert (H : forall o : option value,
            truthy (default VUndefined o) = true -> o = Some (default VUndefined o)).
  { intros [v|]; simpl; [reflexivity|discriminate]. }
  destruct t; try apply H.
  apply String.eqb_neq in Hk. rewrite Hk. apply H.
Qed.

Lemma isMapDataSet_fields (t : value) :
  isMapDataSet t = true ->
  truthy (get t "src") = true /\ truthy (get t "scale") = true
  /\ truthy (get t "unit") = true.
Proof.
  unfold isMapDataSet. rewrite negb_true_iff, !orb_false_iff, !negb_false_iff. tauto.
Qed.

End Initialisation.

Section MarkerLists.



End MarkerLists.

(** * The properties of the specification *)

(** C1 (code defect).  A view that omits [scale] never passes validation:
    the parser coerces the missing scale with [parseFloat] of the empty
    string, which is [NaN], and the schema refuses a scale that is not
    finite.  So a block whose views all omit [scale] yields no map
    declaration, and the transform builds no container for it, where the
    claim expects a container whose [data-scale] is the default 1. *)
Theorem C1_omitted_scale_yields_no_map
  (load : string -> Exc value) (resolveRelative : string -> string -> string)
  (transformLink : string -> string -> list string -> string)
  (markerMap : gmap string (list value)) (ctx : BuildCtx) (file : VFile)
  (node : Node) (entry : value) (views : list value)
  (Hload : load (source node) = Ok entry)
  (Hviews : get entry "views" = VArray views)
  (Hscale : Forall (fun view => get view "scale" = VUndefined) views) :
  Forall (fun view => parseView view = Ok None) views
  /\ parseMapFromNode load node = Ok None
  /\ buildMapData load resolveRelative transformLink markerMap ctx file node = Ok None.
Proof.
  assert (Hnone : Forall (fun view => parseView view = Ok None) views).
  { eapply Forall_impl; [exact Hscale|]. intros view Hs.
    destruct (parseView_cases view) as [Hp|Hp]; [exact Hp|].
    apply parseView_Some in Hp as (_ & Hv & _).
    apply valid_map_numbers in Hv as (_ & _ & _ & _ & _ & Hsc).
    rewrite candidate_scale, Hs in Hsc. vm_compute in Hsc.
    destruct Hsc as [Hsc|(n & [= <-] & Hfin)]; discriminate. }
  assert (Hparse : parseMapFromNode load node = Ok None).
  { unfold parseMapFromNode. rewrite Hload. cbn [mbind Exc_bind]. rewrite Hviews.
    destruct (isNonEmptyObject entry); cbn [negb]; [|reflexivity].
    now apply head_answers_none. }
  split; [exact Hnone|]. split; [exact Hparse|].
  unfold buildMapData. now rewrite Hparse.
Qed.

Lemma C1_witness :
  Scenario.load (source (Sample.code_block Scenario.no_scale_text)) = Ok Scenario.no_scale
  /\ get Scenario.no_scale "views" = VArray [Sample.view_without_scale]
  /\ Forall (fun view => get view "scale" = VUndefined) [Sample.view_without_scale]
  /\ buildMapData Scenario.load Sample.resolveRelative Sample.transformLink
       LEAFLET_MAP_PLUGIN_DATA Sample.ctx Sample.page
       (Sample.code_block Scenario.no_scale_text) = Ok None.
Proof.
  assert (H1 : Scenario.load (source (Sample.code_block Scenario.no_scale_text))
               = Ok Scenario.no_scale) by (vm_compute; reflexivity).
  assert (H2 : get Scenario.no_scale "views" = VArray [Sample.view_without_scale])
    by (vm_compute; reflexivity).
  assert (H3 : Forall (fun view => get view "scale" = VUndefined) [Sample.view_without_scale])
    by (repeat constructor).
  repeat (split; [assumption|]).
  exact (proj2 (proj2 (C1_omitted_scale_yields_no_map Scenario.load Sample.resolveRelative
    Sample.transformLink LEAFLET_MAP_PLUGIN_DATA Sample.ctx Sample.page _ _ _ H1 H2 H3))).
Defined.

(** C2 (amended).  The parser returns the declaration of the first view, in
    list order, whose candidate passes validation: the views before it, which
    fail, are passed over.  It finds no map only when no view validates. *)
Theorem C2_first_valid_view_wins
  (load : string -> Exc value) (node : Node) (entry : value) (views : list value)
  (Hload : load (source node) = Ok entry)
  (Hentry : isNonEmptyObject entry = true)
  (Hviews : get entry "views" = VArray views) :
  (forall pre view post mapData,
      views = pre ++ view :: post ->
      Forall (fun v => parseView v = Ok None) pre ->
      parseView view = Ok (Some mapData) ->
      parseMapFromNode load node = Ok (Some mapData))
  /\ (Forall (fun v => parseView v = Ok None) views ->
      parseMapFromNode load node = Ok None).
Proof.
  unfold parseMapFromNode. rewrite Hload. cbn [mbind Exc_bind].
  rewrite Hviews, Hentry. cbn [negb].
  split.
  - intros pre view post mapData -> Hpre Hview.
    apply head_answers_first; [exact Hpre|exact Hview|].
    intros v _. apply parseView_returns.
  - intros Hall. now apply head_answers_none.
Qed.

Lemma C2_counterexample :
  parseView Sample.view_without_image = Ok None
  /\ parseView Sample.view_town = Ok (Some (candidate Sample.view_town))
  /\ Scenario.load (source (Sample.code_block Scenario.two_views_text))
     = Ok (Sample.block [Sample.view_without_image; Sample.view_town])
  /\ parseMapFromNode Scenario.load (Sample.code_block Scenario.two_views_text)
     = Ok (Some (candidate Sample.view_town)).
Proof. vm_compute. repeat split. Qed.

Lemma C2_witness :
  Scenario.load (source (Sample.code_block Scenario.two_views_text)) = Ok Scenario.two_views
  /\ isNonEmptyObject Scenario.two_views = true
  /\ get Scenario.two_views "views" = VArray [Sample.view_without_image; Sample.view_town]
  /\ parseMapFromNode Scenario.load (Sample.code_block Scenario.two_views_text)
     = Ok (Some (candidate Sample.view_town)).
Proof.
  assert (H1 : Scenario.load (source (Sample.code_block Scenario.two_views_text))
               = Ok Scenario.two_views) by (vm_compute; reflexivity).
  assert (H2 : isNonEmptyObject Scenario.two_views = true) by (vm_compute; reflexivity).
  assert (H3 : get Scenario.two_views "views"
               = VArray [Sample.view_without_image; Sample.view_town])
    by (vm_compute; reflexivity).
  repeat (split; [assumption|]).
  apply (proj1 (C2_first_valid_view_wins Scenario.load _ _ _ H1 H2 H3)
           [Sample.view_without_image] Sample.view_town []).
  - reflexivity.
  - repeat constructor.
  - vm_compute. reflexivity.
Defined.

(** C3 (code defect).  For a validated declaration without [unit], or with
    an empty one, the container carries [data-unit] as the empty string; the data set read back
    from the container has an empty [unit], the required-attribute check of
    the client refuses it, and the initialisation returns before the image
    is asked for, whatever the image would have answered. *)
Theorem C3_default_unit_is_rejected
  (resolveRelative : string -> string -> string)
  (transformLink : string -> string -> list string -> string)
  (ctx : BuildCtx) (currentSlug : string) (mapData : value) (ms : list value)
  (getImageMeta : string -> Exc (Z * Z)) (n : list value)
  (Hvalid : SchemaValidator.map mapData = Ok true)
  (Hunit : get mapData "unit" = VUndefined \/ get mapData "unit" = VString "") :
  let container := mapContainer resolveRelative transformLink ctx currentSlug mapData ms in
  prop container "data-unit" = VString ""
  /\ get (dataset container) "unit" = VString ""
  /\ Client.isMapDataSet (dataset container) = false
  /\ Client.initialiseMap getImageMeta (dataset container) n = Ok None.
Proof.
  intros container.
  assert (Hprop : prop container "data-unit" = VString "").
  { subst container. unfold prop, mapContainer, element. simpl properties.
    destruct Hunit as [Hunit|Hunit]; rewrite Hunit; reflexivity. }
  assert (Hds : forall print,
            get (dataset_by print container) "unit" = VString (print (VString ""))).
  { intros print. subst container. unfold mapContainer.
    destruct (valid_map_numbers _ Hvalid) as (Hh & _ & _ & _ & Hz & Hs).
    assert (Hdefault : nullish (get mapData "unit") (VString C.map.default.unit) = VString "")
      by (destruct Hunit as [Hunit|Hunit]; rewrite Hunit; reflexivity).
    rewrite Hdefault.
    generalize (transformLink currentSlug (toString (get mapData "image")) (allSlugs ctx)).
    generalize (map (fun marker => buildMarkerElement resolveRelative marker currentSlug (minZoom mapData))
       ms).
    generalize (clamp (the_number (nullish (get mapData "defaultZoom") (VNumber (minZoom mapData))))
          (minZoom mapData) (maxZoom mapData)).
    generalize (maxZoom mapData). generalize (minZoom mapData).
    intros a b c kids src.
    destruct Hh as [->|(h & -> & _)], Hz as [->|(z & -> & _)], Hs as [->|(s & -> & _)];
      vm_compute; reflexivity. }
  specialize (Hds toString). change (get (dataset container) "unit" = VString "") in Hds.
  split; [exact Hprop|]. split; [exact Hds|].
  assert (Hfalse : Client.isMapDataSet (dataset container) = false).
  { apply isMapDataSet_unit. now rewrite Hds. }
  split; [exact Hfalse|]. unfold Client.initialiseMap. now rewrite Hfalse.
Qed.

Lemma C3_witness :
  SchemaValidator.map (candidate Sample.view_town) = Ok true
  /\ (get (candidate Sample.view_town) "unit" = VUndefined
      \/ get (candidate Sample.view_town) "unit" = VString "")
  /\ Client.initialiseMap Sample.getImageMeta
       (dataset (mapContainer Sample.resolveRelative Sample.transformLink
                   Sample.ctx "index" (candidate Sample.view_town) []))
       [] = Ok None.
Proof.
  assert (H1 : SchemaValidator.map (candidate Sample.view_town) = Ok true)
    by (vm_compute; reflexivity).
  assert (H2 : get (candidate Sample.view_town) "unit" = VUndefined
               \/ get (candidate Sample.view_town) "unit" = VString "")
    by (left; vm_compute; reflexivity).
  repeat (split; [assumption|]).
  exact (proj2 (proj2 (proj2 (C3_default_unit_is_rejected Sample.resolveRelative
    Sample.transformLink Sample.ctx "index" _ [] Sample.getImageMeta [] H1 H2)))).
Defined.

(** The failing input of C3 through the whole pipeline. *)
Example default_unit_map_is_never_initialised :
  match Scenario.container_of (Ok LEAFLET_MAP_PLUGIN_DATA) Scenario.town_text with
  | Some container =>
      prop container "data-scale" = Sample.num 1
      /\ prop container "data-unit" = VString ""
      /\ Client.isMapDataSet (dataset container) = false
      /\ Client.initialiseMap Sample.getImageMeta (dataset container)
           (Client.getMarkerData container) = Ok None
  | None => False
  end.
Proof. vm_compute. repeat split. Qed.

(** A view with a scale and no unit validates and renders with scale 1. *)
Example town_map_renders :
  match Scenario.container_of (Ok LEAFLET_MAP_PLUGIN_DATA) Scenario.town_text with
  | Some container =>
      map (prop container) ["data-height"; "data-zoom-delta"; "data-scale"; "data-unit"]
      = [Sample.num 600; VNumber C.map.default.zoomDelta; Sample.num 1; VString ""]
  | None => False
  end.
Proof. vm_compute. reflexivity. Qed.




(** C5.  For every validated map declaration the container carries: as
    minimum zoom the declared [minZoom], or 0 when absent; as maximum zoom
    the larger of the declared [maxZoom] (2 when absent) and the effective
    minimum; as default zoom the declared [defaultZoom] (the effective
    minimum when absent) brought into the interval from the effective minimum
    to the effective maximum.  Numbers are compared as [===] does. *)
Theorem C5_effective_zoom
  (resolveRelative : string -> string -> string)
  (transformLink : string -> string -> list string -> string)
  (ctx : BuildCtx) (currentSlug : string) (mapData : value) (ms : list value)
  (Hvalid : SchemaValidator.map mapData = Ok true) :
  let container := mapContainer resolveRelative transformLink ctx currentSlug mapData ms in
  let effectiveMin := declared_or mapData "minZoom" (Number.ofZ 0) in
  let declaredMax := declared_or mapData "maxZoom" (Number.ofZ 2) in
  exists effectiveMax effectiveDefault,
    prop container "data-min-zoom" = VNumber effectiveMin
    /\ prop container "data-max-zoom" = VNumber effectiveMax
    /\ prop container "data-default-zoom" = VNumber effectiveDefault
    /\ effectiveMax = Number.max declaredMax effectiveMin
    /\ Number.eqb effectiveMax (larger declaredMax effectiveMin) = true
    /\ Number.leb effectiveMin effectiveMax = true
    /\ effectiveDefault
       = clamp (declared_or mapData "defaultZoom" effectiveMin) effectiveMin effectiveMax
    /\ Number.eqb effectiveDefault
         (clamped (declared_or mapData "defaultZoom" effectiveMin) effectiveMin effectiveMax)
       = true
    /\ Number.leb effectiveMin effectiveDefault = true
    /\ Number.leb effectiveDefault effectiveMax = true.
Proof.
  intros container effectiveMin declaredMax.
  destruct (valid_map_numbers _ Hvalid) as (_ & Hmin & Hmax & Hdef & _).
  destruct (declared_or_finite mapData "minZoom" (Number.ofZ 0) Hmin eq_refl) as [Emin Nmin].
  destruct (declared_or_finite mapData "maxZoom" (Number.ofZ 2) Hmax eq_refl) as [Emax Nmax].
  destruct (declared_or_finite mapData "defaultZoom" effectiveMin Hdef Nmin) as [Edef Ndef].
  fold effectiveMin in Emin, Nmin. fold declaredMax in Emax, Nmax.
  assert (HminZoom : minZoom mapData = effectiveMin) by exact Emin.
  assert (HmaxZoom : maxZoom mapData = Number.max declaredMax effectiveMin).
  { unfold maxZoom. fold C.map.default.maxZoom. now rewrite HminZoom, <- Emax. }
  exists (maxZoom mapData),
    (clamp (the_number (nullish (get mapData "defaultZoom") (VNumber (minZoom mapData))))
       (minZoom mapData) (maxZoom mapData)).
  split; [subst container; unfold prop, mapContainer, element; simpl properties;
          rewrite <- HminZoom; reflexivity|].
  split; [reflexivity|]. split; [reflexivity|].
  rewrite HminZoom, Edef, HmaxZoom.
  pose proof (max_not_nan _ _ Nmax Nmin) as Nx.
  pose proof (max_ge_r _ _ Nmax Nmin) as Hle.
  split; [reflexivity|]. split; [|split; [exact Hle|split; [reflexivity|]]].
  - unfold larger.
    destruct (max_cases _ _ Nmax Nmin) as [[Hlt ->]|[Hlt [He _]]]; rewrite Hlt.
    + now apply eqb_refl.
    + exact He.
  - now apply clamp_clamped.
Qed.

Lemma C5_witness :
  SchemaValidator.map (candidate Sample.view_zoom_5) = Ok true
  /\ prop (mapContainer Sample.resolveRelative Sample.transformLink
             Sample.ctx "index" (candidate Sample.view_zoom_5) [])
          "data-min-zoom" = Sample.num 0.
Proof.
  assert (H : SchemaValidator.map (candidate Sample.view_zoom_5) = Ok true)
    by (vm_compute; reflexivity).
  split; [exact H|].
  destruct (C5_effective_zoom Sample.resolveRelative Sample.transformLink
              Sample.ctx "index" _ [] H)
    as (effectiveMax & effectiveDefault & Hmin & _).
  exact Hmin.
Defined.

(** The two declarations of the specification. *)
Example zoom_0_2_5 :
  let container :=
    mapContainer Sample.resolveRelative Sample.transformLink
      Sample.ctx "index" (candidate Sample.view_zoom_5) [] in
  parseView Sample.view_zoom_5 = Ok (Some (candidate Sample.view_zoom_5))
  /\ prop container "data-min-zoom" = Sample.num 0
  /\ prop container "data-max-zoom" = Sample.num 2
  /\ prop container "data-default-zoom" = Sample.num 2.
Proof. vm_compute. repeat split. Qed.

Example zoom_max_below_min :
  let container :=
    mapContainer Sample.resolveRelative Sample.transformLink
      Sample.ctx "index" (candidate Sample.view_max_below_min) [] in
  parseView Sample.view_max_below_min = Ok (Some (candidate Sample.view_max_below_min))
  /\ prop container "data-min-zoom" = Sample.num 3
  /\ prop container "data-max-zoom" = Sample.num 3
  /\ prop container "data-default-zoom" = Sample.num 3.
Proof. vm_compute. repeat split. Qed.




(** A marker whose [mapName] is the name of an inherited property makes
    the extraction pass throw, and a map with such a name makes the render
    throw. *)
Example inherited_names_throw :
  Scenario.registry_of [[("coordinates", VString "1,2"); ("mapName", VString "constructor")]]
  = Throw TypeError
  /\ parseView Scenario.view_constructor = Ok (Some (candidate Scenario.view_constructor))
  /\ buildMapData Scenario.load_constructor Sample.resolveRelative Sample.transformLink
       LEAFLET_MAP_PLUGIN_DATA Sample.ctx Sample.page (Sample.code_block "constructor")
     = Throw TypeError.
Proof. vm_compute. repeat split. Qed.

(** A marker whose coordinates do not match the pattern is stored nowhere. *)
Example unmatched_coordinates_are_dropped :
  Scenario.registry_with "abc" = Ok LEAFLET_MAP_PLUGIN_DATA.
Proof. vm_compute. reflexivity. Qed.

(** The round trip of the specification: the map in feet with two markers. *)
Example round_trip :
  let registry :=
    registry_after
      [Sample.inn [Sample.obj [("coordinates", VString "10, 20")];
                   Sample.obj [("coordinates", VString "5, 5")]]] in
  match Scenario.container_of registry Scenario.feet_text with
  | Some container =>
      map (get (dataset container)) ["minZoom"; "maxZoom"; "defaultZoom"; "scale"; "unit"]
      = [VString "1"; VString "3"; VString "1"; VString "2"; VString "ft"]
      /\ map (fun d => get d "coordinates") (Client.getMarkerData container)
         = [VString "10, 20"; VString "5, 5"]
      /\ Client.isMapDataSet (dataset container) = true
  | None => False
  end.
Proof. vm_compute. repeat split. Qed.




(** C8 (code defect).  The coordinates pattern is not anchored: it accepts
    ["1,2,3"], which the client splits into three components and refuses with
    ['Coordinates not properly validated'], and ["x1,2y"], whose first
    component does not parse to an integer. *)
Theorem C8_accepted_coordinates_reach_the_error_branch :
  coordinatesValidator (VString "1,2,3") = true
  /\ SchemaValidator.marker (Sample.obj [("coordinates", VString "1,2,3")]) = Ok true
  /\ Client.parseCoordinates "1,2,3" = Throw (ErrorOf "Coordinates not properly validated")
  /\ match Scenario.container_of (Scenario.registry_with "1,2,3") Scenario.feet_text with
     | Some container =>
         map (fun d => get d "coordinates") (Client.getMarkerData container)
         = [VString "1,2,3"]
         /\ Client.initialiseMap Sample.getImageMeta (dataset container)
              (Client.getMarkerData container)
            = Throw (ErrorOf "Coordinates not properly validated")
     | None => False
     end
  /\ coordinatesValidator (VString "x1,2y") = true
  /\ Client.parseCoordinates "x1,2y" = Ok [Number.NaN; Number.ofZ 2].
Proof. vm_compute. repeat split. Qed.

(** C9 (amended).  For every schema whose required fields have predicates
    that refuse [undefined], and every value, the generated validator
    returns true exactly when the value is a non-empty record in which every
    listed field is present and satisfies its predicate, or is absent and
    not required; and adding a field that the schema does not list to an
    accepted record leaves it accepted. *)
Theorem C9_schema_validator (schema : gmap string SchemaEntry)
  (Hreq : forall key entry, schema !! key = Some entry ->
          required entry = true -> validator entry VUndefined = Ok false) :
  forall value,
    (schemaValidatorFactory schema value = Ok true <-> accepts_as_claimed schema value)
    /\ (forall m key x, value = VObject m -> schema !! key = None ->
        schemaValidatorFactory schema value = Ok true ->
        schemaValidatorFactory schema (VObject (<[key := x]> m)) = Ok true).
Proof.
  intros value. split.
  - rewrite schemaValidator_spec. unfold accepts_as_claimed, present, absent.
    split; intros [Hne H]; (split; [exact Hne|]); intros key entry Hk;
      specialize (H key entry Hk).
    + destruct H as [[H1 H2]|H]; [right; auto|].
      destruct (undefined_dec (get value key)) as [Hu|Hu]; [|left; auto].
      right. split; [exact Hu|].
      destruct (required entry) eqn:Hr; [|reflexivity].
      rewrite Hu, (Hreq _ _ Hk Hr) in H. discriminate.
    + destruct H as [[_ H]|[H1 H2]]; auto.
  - intros m key x -> Hnone. rewrite !schemaValidator_spec.
    intros [Hne H]. split.
    + unfold isNonEmptyObject, Object_keys in *. simpl in *.
      apply bool_decide_eq_true. rewrite length_fmap, length_map_to_list.
      destruct (m !! key) eqn:Hm.
      * apply bool_decide_eq_true in Hne. rewrite length_fmap, length_map_to_list in Hne.
        rewrite map_size_insert_Some; eauto.
      * rewrite map_size_insert_None by exact Hm. lia.
    + intros k e Hk. specialize (H k e Hk).
      assert (k <> key) by congruence.
      unfold get in *; simpl in *. rewrite lookup_insert_ne by congruence. exact H.
Qed.

Lemma C9_counterexample :
  schemaValidatorFactory Sample.lenient_schema Scenario.record_g = Ok true
  /\ ~ accepts_as_claimed Sample.lenient_schema Scenario.record_g.
Proof.
  split; [vm_compute; reflexivity|].
  intros [_ H].
  destruct (H "f" {| validator := fun _ => Ok true; required := true |} eq_refl)
    as [[Hp _]|[_ Hr]].
  - apply Hp. vm_compute. reflexivity.
  - discriminate.
Qed.

Lemma C9_witness :
  (forall key entry, markerSchema !! key = Some entry ->
     required entry = true -> validator entry VUndefined = Ok false)
  /\ accepts_as_claimed markerSchema (Sample.obj [("coordinates", VString "10, 20")]).
Proof.
  assert (Hreq : forall key entry, markerSchema !! key = Some entry ->
            required entry = true -> validator entry VUndefined = Ok false).
  { intros key entry Hk. apply elem_of_list_to_map_2 in Hk.
    repeat (apply elem_of_cons in Hk as [[= -> ->]|Hk]); try (intros _; reflexivity).
    apply elem_of_nil in Hk. destruct Hk. }
  split; [exact Hreq|].
  apply (proj1 (C9_schema_validator markerSchema Hreq _)).
  vm_compute. reflexivity.
Defined.



(** The measurement scenario of the specification. *)
Example measurement_scenario :
  match Scenario.measured with
  | Ok [c1; c2; c3; c4; c5] =>
      Client.state c1 = Client.Measuring
      /\ Client.distance_ c1 = Number.ofZ 0
      /\ Client.state c2 = Client.Measuring
      /\ Client.distance_ c2 = Number.ofZ 5
      /\ Client.state c3 = Client.Finishing
      /\ Client.state c4 = Client.Done
      /\ Client.tooltip <$> (Client.points c4 !! 1%nat)
         = Some (Some {| Client.permanent := true; Client.content := "5.0 km" |})
      /\ Client.state c5 = Client.Ready
      /\ Client.distance_ c5 = Number.ofZ 0
      /\ Client.pathItems c5 = []
      /\ Client.pathLine c5 = []
      /\ Forall (fun p => Client.shown p = false) (Client.points c5)
  | _ => False
  end.
Proof. vm_compute. repeat split; repeat constructor. Qed.

(** Switching to another tool while measuring clears the path; selecting the
    measure tool again starts from [Ready]. *)
Example switching_tools_starts_afresh :
  match Client.mapClicked (Scenario.point 0 0) Scenario.tool with
  | Ok c1 =>
      let c2 := Client.setSelected true (Client.setSelected false c1) in
      Client.state c1 = Client.Measuring
      /\ Client.state c2 = Client.Ready
      /\ Client.pathItems c2 = []
      /\ Client.distance_ c2 = Number.ofZ 0
  | Throw _ => False
  end.
Proof. vm_compute. repeat split. Qed.

(** * Further properties of the code *)

(** ** The utilities and the validators *)

(** X1.  [isNonEmptyObject] accepts the objects that have a property and
    the arrays that have an element, and nothing else: not [undefined],
    [null], a boolean, a number or a string, and not the empty object or
    array. *)
Theorem isNonEmptyObject_iff (v : value) :
  isNonEmptyObject v = true
  <-> match v with
      | VObject m => m <> ∅
      | VArray l => l <> []
      | _ => False
      end.
Proof.
  assert (Hkeys : forall m : gmap string value,
            bool_decide (0 < length ((map_to_list m).*1))%nat = true <-> m <> ∅).
  { intros m. rewrite bool_decide_eq_true, length_fmap, <- map_to_list_empty_iff.
    destruct (map_to_list m); simpl; split; intros H; try congruence; lia. }
  unfold isNonEmptyObject, Object_keys.
  destruct v as [| |b|n|s|l|m];
    try (cbn [typeof jstype_eqb negb]; rewrite ?orb_true_r; split; [discriminate|tauto]).
  - cbn [truthy typeof jstype_eqb negb orb]. rewrite Hkeys.
    destruct l as [|x l]; simpl; [tauto|].
    split; [discriminate|]. intros _. apply insert_non_empty.
  - cbn [truthy typeof jstype_eqb negb orb own_props]. apply Hkeys.
Qed.

(** X2.  [colourValidator] accepts exactly the strings whose last three
    characters are hexadecimal digits, in either case: nothing is asked of
    what comes before them, so the leading [#] of a colour is not
    required. *)
Theorem colourValidator_accepts_iff (v : value) :
  colourValidator v = true
  <-> exists s, v = VString s /\ ends_with_three_hex_digits s.
Proof. apply colourValidator_iff. Qed.

(** X3.  [iconValidator] accepts exactly the strings that hold a lower-case
    letter somewhere: the pattern is anchored at neither end. *)
Theorem iconValidator_accepts_iff (v : value) :
  iconValidator v = true
  <-> exists s, v = VString s /\ holds_a_lowercase_letter s.
Proof. apply iconValidator_iff. Qed.

(** X4.  [coordinatesValidator] accepts exactly the strings that hold,
    somewhere, a digit, optional white space, a comma, optional white space
    and a digit; the white space is that of JavaScript, the no-break space
    and the other spaces of Unicode included. *)
Theorem coordinatesValidator_accepts_iff (v : value) :
  coordinatesValidator v = true
  <-> exists s, v = VString s /\ holds_a_coordinate_pair s.
Proof. apply coordinatesValidator_iff. Qed.

(** X5.  [sourcevalidator] throws a [TypeError] exactly on an object that
    has a property named [toString], which is then not a function, and on
    an array that holds such an object, at any depth.  On the other values
    it refuses [undefined], [null], the empty string and the arrays that
    print as the empty string, and accepts every other value: every number
    (also [0] and [NaN]), both booleans, every other object. *)
Theorem sourcevalidator_accepts_iff (v : value) :
  (forall e, sourcevalidator v = Throw e <-> e = TypeError /\ hides_toString v = true)
  /\ (sourcevalidator v = Ok true
      <-> match v with
          | VUndefined | VNull => False
          | VString s => s <> ""
          | VArray l => hides_toString v = false /\ join "," (map toString l) <> ""
          | VBool _ | VNumber _ => True
          | VObject m => m !! "toString" = None
          end)
  /\ (hides_toString v = false -> exists b, sourcevalidator v = Ok b).
Proof.
  assert (Hsome : forall m : gmap string value,
            bool_decide (is_Some (m !! "toString")) = false <-> m !! "toString" = None).
  { intros m. rewrite bool_decide_eq_false, <- eq_None_not_Some. reflexivity. }
  unfold sourcevalidator, call_toString.
  destruct v as [| |b|n|s|l|m]; cbn [hides_toString mbind Exc_bind].
  - split; [|split; [|eauto]]; [intros e|]; split; try discriminate; try tauto.
    intros [_ [=]].
  - split; [|split; [|eauto]]; [intros e|]; split; try discriminate; try tauto.
    intros [_ [=]].
  - split; [|split; [|eauto]]; [intros e; split; [discriminate|intros [_ [=]]]|].
    split; [tauto|]. intros _. now destruct b.
  - split; [|split; [|eauto]]; [intros e; split; [discriminate|intros [_ [=]]]|].
    split; [tauto|]. intros _. cbn [toString].
    now rewrite (proj2 (truthy_string _) (Number_toString_nonempty n)).
  - split; [|split; [|eauto]]; [intros e; split; [discriminate|intros [_ [=]]]|].
    split.
    + intros [= H]. now apply truthy_string in H.
    + intros H. apply truthy_string in H. now rewrite H.
  - destruct (existsb hides_toString l); cbn [mbind Exc_bind].
    + split; [|split; [|discriminate]].
      * intros e. split; [intros [= <-]; auto|intros [-> _]; reflexivity].
      * split; [discriminate|intros [[=] _]].
    + split; [|split; [|eauto]]; [intros e; split; [discriminate|intros [_ [=]]]|].
      cbn [toString]. split.
      * intros [= H]. apply truthy_string in H. auto.
      * intros [_ H]. apply truthy_string in H. now rewrite H.
  - destruct (bool_decide (is_Some (m !! "toString"))) eqn:Hm; cbn [mbind Exc_bind].
    + split; [|split; [|discriminate]].
      * intros e. split; [intros [= <-]; auto|intros [-> _]; reflexivity].
      * split; [discriminate|]. intros H. apply Hsome in H. congruence.
    + split; [|split; [|eauto]]; [intros e; split; [discriminate|intros [_ [=]]]|].
      split; [intros _; now apply Hsome|reflexivity].
Qed.

(** ** The parsers *)



(** X8.  The record of an accepted marker entry carries the title of the
    document as [name] and its slug as [link], whatever the entry says of
    these two fields, and every other field as the entry has it. *)
Theorem marker_record_fields (entry name : value) (link : string) (marker : value)
  (Hparse : parseMarkerFromEntry entry name link = Ok (Some marker)) :
  get marker "name" = name
  /\ get marker "link" = VString link
  /\ forall key, key <> "name" -> key <> "link" -> get marker key = get entry key.
Proof.
  apply parseMarkerFromEntry_Some in Hparse as (-> & _ & Hvalid).
  destruct (marker_record_name entry name link) as [Hname Hlink].
  split; [exact Hname|]. split; [exact Hlink|].
  intros key Hn Hl. destruct (marker_entry_object entry Hvalid) as [m ->].
  apply marker_record_get; assumption.
Qed.

Lemma marker_record_fields_witness :
  get (marker_record Further.full_entry (VString "Inn") "inn") "name" = VString "Inn"
  /\ get (marker_record Further.full_entry (VString "Inn") "inn") "icon"
     = VString "lucide-map-pin".
Proof.
  assert (H : parseMarkerFromEntry Further.full_entry (VString "Inn") "inn"
              = Ok (Some (marker_record Further.full_entry (VString "Inn") "inn")))
    by (vm_compute; reflexivity).
  destruct (marker_record_fields _ _ _ _ H) as (H1 & _ & H3).
  split; [exact H1|]. rewrite H3 by discriminate. vm_compute. reflexivity.
Defined.

(** ** The registry of markers *)

(** X9.  [buildMarkerData] leaves the registry as it is for a document
    without a slug or with an empty one, without a title, or whose [marker]
    is not a list, a single marker object included. *)
Theorem buildMarkerData_skips (file : VFile) (markerMap : gmap string (list value))
  (Hskip : slug file = None \/ slug file = Some ""
           \/ truthy (get (frontmatter file) "title") = false
           \/ (forall entries, get (frontmatter file) "marker" <> VArray entries)) :
  buildMarkerData file markerMap = Ok markerMap.
Proof.
  rewrite buildMarkerData_foldM.
  assert (H : markers_of file = []); [|now rewrite H].
  unfold markers_of. destruct Hskip as [H|[H|[H|H]]].
  - now rewrite H.
  - rewrite H. now destruct (get (frontmatter file) "marker").
  - destruct (slug file); [|reflexivity].
    destruct (get (frontmatter file) "marker"); try reflexivity.
    now rewrite H, andb_false_r.
  - destruct (slug file); [|reflexivity].
    destruct (get (frontmatter file) "marker") eqn:E; try reflexivity.
    now destruct (H l).
Qed.

Lemma buildMarkerData_skips_witness :
  buildMarkerData Further.single_marker LEAFLET_MAP_PLUGIN_DATA
  = Ok LEAFLET_MAP_PLUGIN_DATA.
Proof.
  apply buildMarkerData_skips. right. right. right.
  intros entries. vm_compute. discriminate.
Defined.

(** X10.  In a registry built by the plugin, which has the implicit bucket
    and no bucket named as a property every object inherits,
    [buildMarkerData] throws a [TypeError] when an accepted marker of the
    document has such a name as its [mapName], [constructor] or [toString]
    for instance.  Otherwise it appends to each bucket the accepted markers
    of the document that go to it, in the order of the document, and
    creates the buckets that are missing; the markers already stored stay
    in place, and no other bucket changes. *)
Theorem buildMarkerData_appends (file : VFile) (markerMap : gmap string (list value))
  (Hregistry : registry_ok markerMap) :
  if existsb (fun marker => inherited (bucket_of marker)) (markers_of file)
  then buildMarkerData file markerMap = Throw TypeError
  else exists markerMap',
         buildMarkerData file markerMap = Ok markerMap'
         /\ forall key,
              markerMap' !! key
              = match markerMap !! key, going_to key (markers_of file) with
                | None, [] => None
                | bucket, new => Some (default [] bucket ++ new)
                end.
Proof.
  pose proof (buildMarkerData_spec file markerMap Hregistry) as H.
  destruct (existsb _ (markers_of file)); [exact H|].
  destruct H as (markerMap' & Hb & _ & Hlook). eauto.
Qed.

Lemma buildMarkerData_appends_witness :
  registry_ok LEAFLET_MAP_PLUGIN_DATA
  /\ exists markerMap',
       buildMarkerData (Sample.inn [Further.full_entry]) LEAFLET_MAP_PLUGIN_DATA
       = Ok markerMap'
       /\ markerMap' !! "town"
          = Some [marker_record Further.full_entry (VString "Inn") "inn"].
Proof.
  split; [apply registry_ok_init|].
  pose proof (buildMarkerData_appends (Sample.inn [Further.full_entry])
                LEAFLET_MAP_PLUGIN_DATA registry_ok_init) as H.
  assert (Hnone : existsb (fun marker => inherited (bucket_of marker))
                    (markers_of (Sample.inn [Further.full_entry])) = false)
    by (vm_compute; reflexivity).
  rewrite Hnone in H. destruct H as (markerMap' & Hb & Hlook).
  exists markerMap'. split; [exact Hb|]. rewrite Hlook. vm_compute. reflexivity.
Defined.

(** X11.  The extraction pass over a list of documents throws a [TypeError]
    when an accepted marker of one of them has the name of an inherited
    property as its [mapName].  Otherwise the bucket of a map name holds
    the accepted markers of all the documents that go to it, in the order
    of the documents; the implicit bucket always exists, and a named bucket
    exists once a marker went to it. *)
Theorem registry_after_buckets (files : list VFile) :
  if existsb (fun marker => inherited (bucket_of marker)) (concat (map markers_of files))
  then registry_after files = Throw TypeError
  else exists markerMap,
         registry_after files = Ok markerMap
         /\ forall key,
              markerMap !! key
              = match going_to key (concat (map markers_of files)) with
                | [] => if String.eqb key "notDefinedMap" then Some [] else None
                | new => Some new
                end.
Proof. apply registry_after_spec. Qed.

(** X12.  The registry does not recognise a document it has seen: when
    [buildMarkerData] has stored the markers of a document, running it a
    second time on the document stores them a second time. *)
Theorem buildMarkerData_twice (file : VFile) (markerMap once : gmap string (list value))
  (Hregistry : registry_ok markerMap)
  (Honce : buildMarkerData file markerMap = Ok once) :
  exists twice,
    buildMarkerData file once = Ok twice
    /\ forall key,
         default [] (twice !! key)
         = default [] (markerMap !! key)
           ++ going_to key (markers_of file) ++ going_to key (markers_of file).
Proof.
  pose proof (buildMarkerData_spec file markerMap Hregistry) as H1.
  destruct (existsb _ (markers_of file)) eqn:Hnone; [congruence|].
  destruct H1 as (m1 & Hm1 & Hok1 & Hlook1).
  assert (m1 = once) by congruence. subst m1.
  pose proof (buildMarkerData_spec file once Hok1) as H2. rewrite Hnone in H2.
  destruct H2 as (twice & Htwice & _ & Hlook2).
  exists twice. split; [exact Htwice|]. intros key. rewrite Hlook2, Hlook1.
  destruct (markerMap !! key) as [bucket|];
    destruct (going_to key (markers_of file)) as [|marker new];
    cbn [default id]; rewrite ?app_nil_r, <- ?app_assoc; reflexivity.
Qed.

Lemma buildMarkerData_twice_witness :
  exists once twice,
    buildMarkerData (Sample.inn [Further.full_entry]) LEAFLET_MAP_PLUGIN_DATA = Ok once
    /\ buildMarkerData (Sample.inn [Further.full_entry]) once = Ok twice
    /\ default [] (twice !! "town")
       = [marker_record Further.full_entry (VString "Inn") "inn";
          marker_record Further.full_entry (VString "Inn") "inn"].
Proof.
  destruct (buildMarkerData (Sample.inn [Further.full_entry]) LEAFLET_MAP_PLUGIN_DATA)
    as [once|e] eqn:Honce; [|now vm_compute in Honce].
  destruct (buildMarkerData_twice _ _ once registry_ok_init Honce)
    as (twice & Htwice & Hlook).
  exists once, twice. split; [reflexivity|]. split; [exact Htwice|].
  rewrite Hlook. vm_compute. reflexivity.
Defined.

(** ** The transform *)


(** X14.  When the transform returns, the root keeps its type, tag, value
    and properties and has as many children as before, in the same order.
    A child that is a [base] block holding a map has become the wrapper of
    the map container, built in the slug of the document with the marker
    list of the map, which the registry could then give; every other child
    is the result of the transform on it. *)
Theorem transform_children
  (load : string -> Exc value) (resolveRelative : string -> string -> string)
  (transformLink : string -> string -> list string -> string)
  (markerMap : gmap string (list value)) (ctx : BuildCtx) (file : VFile)
  (ty : string) (tag val : option string) (props : option (gmap string value))
  (kids : list Node) (tree' : Node)
  (Hreturns :
     transformMapElement load resolveRelative transformLink markerMap ctx
       (mkNode ty tag val props (Some kids)) file = Ok tree') :
  exists kids',
    tree' = mkNode ty tag val props (Some kids')
    /\ Forall2
         (fun node node' =>
            match (if is_base_block node then parseMapFromNode load node else Ok None) with
            | Ok (Some mapData) =>
                exists currentSlug ms,
                  slug file = Some currentSlug
                  /\ markers markerMap mapData = Ok ms
                  /\ node' = element "div" []
                               [mapContainer resolveRelative transformLink ctx
                                  currentSlug mapData ms]
            | _ =>
                transformMapElement load resolveRelative transformLink markerMap ctx
                  node file = Ok node'
            end)
         kids kids'.
Proof.
  unfold transformMapElement in *. rewrite visit_children in Hreturns.
  destruct (mapM _ kids) as [kids'|e] eqn:Hm; [|discriminate].
  injection Hreturns as <-. exists kids'. split; [reflexivity|].
  apply mapM_Ok in Hm. eapply Forall2_impl; [exact Hm|].
  intros node node' Hchild. cbv beta in Hchild. unfold visited_child in Hchild.
  unfold is_base_block.
  destruct (bool_decide (tagName node = Some "code")); cbn [andb].
  - unfold visitor in Hchild.
    destruct (is_string (prop node "dataLanguage") "base"); cbn [negb] in Hchild |- *.
    + unfold buildMapData in Hchild.
      destruct (parseMapFromNode load node) as [[mapData|]|e]; simpl in Hchild;
        try discriminate.
      * destruct (slug file) as [s|]; [|discriminate].
        destruct (String.eqb s ""); simpl in Hchild; [discriminate|].
        destruct (markers markerMap mapData) as [ms|e]; simpl in Hchild;
          [|discriminate].
        destruct (visit _ _ _ _ _ _ node); [|discriminate].
        injection Hchild as <-. eauto.
      * destruct (visit _ _ _ _ _ _ node); [|discriminate]. now injection Hchild as <-.
    + simpl in Hchild. destruct (visit _ _ _ _ _ _ node); [|discriminate].
      now injection Hchild as <-.
  - simpl in Hchild. destruct (visit _ _ _ _ _ _ node); [|discriminate].
    now injection Hchild as <-.
Qed.

Lemma transform_children_witness :
  exists kids',
    transformMapElement Scenario.load Sample.resolveRelative Sample.transformLink
      LEAFLET_MAP_PLUGIN_DATA Sample.ctx Further.tree_with_map Sample.page
    = Ok (Sample.root kids')
    /\ length kids' = 1%nat.
Proof.
  destruct (transformMapElement Scenario.load Sample.resolveRelative Sample.transformLink
      LEAFLET_MAP_PLUGIN_DATA Sample.ctx Further.tree_with_map Sample.page)
    as [tree'|e] eqn:H; [|now vm_compute in H].
  destruct (transform_children _ _ _ _ _ _ _ _ _ _ _ _ H) as (kids' & -> & Hk).
  exists kids'. split; [reflexivity|].
  apply Forall2_length in Hk. now rewrite <- Hk.
Defined.

(** ** From the build to the client *)

(** X15.  The element rendered for the record of an accepted marker entry
    carries the title and the resolved link of the document, the
    coordinates of the entry, its colour or the default [#21409a], its
    [minZoom] or the minimal zoom of the map, and its icon without the
    first [lucide-] in it: [circle-small] when the entry has no icon, and
    the rest of the name when it starts with [lucide-]. *)
Theorem marker_element_attributes
  (resolveRelative : string -> string -> string)
  (entry name : value) (link currentSlug : string) (mapMinZoom : number) (marker : value)
  (Hparse : parseMarkerFromEntry entry name link = Ok (Some marker)) :
  let o := buildMarkerElement resolveRelative marker currentSlug mapMinZoom in
  prop o "data-name" = name
  /\ prop o "data-link" = VString (resolveRelative currentSlug link)
  /\ prop o "data-coordinates" = get entry "coordinates"
  /\ prop o "data-colour"
     = match get entry "colour" with
       | VString colour => VString colour
       | _ => VString "#21409a"
       end
  /\ prop o "data-min-zoom"
     = match get entry "minZoom" with
       | VNumber z => VNumber z
       | _ => VNumber mapMinZoom
       end
  /\ (get entry "icon" = VUndefined -> prop o "data-icon" = VString "circle-small")
  /\ (forall rest, get entry "icon" = VString ("lucide-" +:+ rest) ->
        prop o "data-icon" = VString rest)
  /\ (forall icon, get entry "icon" = VString icon ->
        prop o "data-icon"
        = VString (str (replace_first (chars "lucide-") [] (chars icon)))).
Proof.
  intros o. subst o.
  pose proof Hparse as Hfields. apply marker_record_fields_of in Hfields as (Hn & Hl & Hk).
  apply parseMarkerFromEntry_Some in Hparse as (_ & _ & Hv).
  apply marker_schema_spec in Hv as (_ & _ & _ & Hi & Hc & Hz).
  unfold buildMarkerElement.
  rewrite Hn, Hl, !Hk by discriminate. cbn [the_string].
  assert (Hprops : forall v1 v2 v3 v4 v5 v6 : value,
            let o := element "div"
                       [("class", VArray [VString "leaflet-marker"]); ("data-name", v1);
                        ("data-link", v2); ("data-coordinates", v3); ("data-icon", v4);
                        ("data-colour", v5); ("data-min-zoom", v6)] [] in
            prop o "data-name" = v1 /\ prop o "data-link" = v2
            /\ prop o "data-coordinates" = v3 /\ prop o "data-icon" = v4
            /\ prop o "data-colour" = v5 /\ prop o "data-min-zoom" = v6).
  { intros. vm_compute. repeat split. }
  match goal with |- context [element "div" [_; (_, ?v1); (_, ?v2); (_, ?v3); (_, ?v4);
                                               (_, ?v5); (_, ?v6)] []] =>
    destruct (Hprops v1 v2 v3 v4 v5 v6) as (P1 & P2 & P3 & P4 & P5 & P6)
  end.
  rewrite P1, P2, P3, P4, P5, P6.
  split; [reflexivity|]. split; [reflexivity|]. split; [reflexivity|].
  split; [destruct Hc as [->|(c & -> & _)]; reflexivity|].
  split; [destruct Hz as [->|(z & -> & _)]; reflexivity|].
  split; [intros ->; reflexivity|]. split.
  - intros rest ->. cbn [nullish the_string].
    now rewrite chars_append, replace_first_prefix, str_chars.
  - intros icon ->. reflexivity.
Qed.

Lemma marker_element_attributes_witness :
  prop (buildMarkerElement Sample.resolveRelative
          (marker_record Further.full_entry (VString "Inn") "inn") "index" (Number.ofZ 0))
       "data-icon" = VString "map-pin".
Proof.
  assert (H : parseMarkerFromEntry Further.full_entry (VString "Inn") "inn"
              = Ok (Some (marker_record Further.full_entry (VString "Inn") "inn")))
    by (vm_compute; reflexivity).
  destruct (marker_element_attributes Sample.resolveRelative _ _ _ "index" (Number.ofZ 0) _ H)
    as (_ & _ & _ & _ & _ & _ & Hicon & _).
  apply (Hicon "map-pin"). vm_compute. reflexivity.
Defined.

(** X16.  The attributes of the map container of a valid declaration: the
    link to the image as the build resolves it, and the height, the zoom
    delta, the scale and the unit of the declaration, or else the defaults
    of [C.map.default] (600, 0.5, 1 and the empty string); the container is
    a [div] of class [leaflet-map], whatever the markers of the map. *)
Theorem container_attributes
  (resolveRelative : string -> string -> string)
  (transformLink : string -> string -> list string -> string)
  (ctx : BuildCtx) (currentSlug : string) (mapData : value) (ms : list value)
  (Hvalid : SchemaValidator.map mapData = Ok true) :
  let container :=
    mapContainer resolveRelative transformLink ctx currentSlug mapData ms in
  tagName container = Some "div" /\ has_class "leaflet-map" container = true
  /\ prop container "data-src"
     = VString (transformLink currentSlug (toString (get mapData "image")) (allSlugs ctx))
  /\ prop container "data-height"
     = VNumber (declared_or mapData "height" C.map.default.height)
  /\ prop container "data-zoom-delta"
     = VNumber (declared_or mapData "zoomDelta" C.map.default.zoomDelta)
  /\ prop container "data-scale"
     = VNumber (declared_or mapData "scale" C.map.default.scale)
  /\ prop container "data-unit"
     = VString match get mapData "unit" with
               | VString unit => unit
               | _ => C.map.default.unit
               end.
Proof.
  intros container. subst container. unfold mapContainer.
  apply map_schema_spec in Hvalid as (_ & _ & _ & Hh & _ & _ & _ & Hz & Hs & Hu).
  assert (Hn : forall key d, finite_or_absent (get mapData key) ->
            nullish (get mapData key) (VNumber d) = VNumber (declared_or mapData key d)).
  { intros key d H. unfold declared_or. now destruct H as [->|(n & -> & _)]. }
  rewrite (Hn "height" _ Hh), (Hn "scale" _ Hs).
  rewrite (Hn "zoomDelta" C.map.default.zoomDelta)
    by (destruct Hz as [->|(n & -> & H & _)]; [now left|right; eauto]).
  assert (Hunit : nullish (get mapData "unit") (VString C.map.default.unit)
                  = VString match get mapData "unit" with
                            | VString unit => unit
                            | _ => C.map.default.unit
                            end)
    by now destruct Hu as [->|(u & ->)].
  rewrite Hunit.
  generalize (transformLink currentSlug (toString (get mapData "image")) (allSlugs ctx))
    (declared_or mapData "height" C.map.default.height)
    (declared_or mapData "zoomDelta" C.map.default.zoomDelta)
    (declared_or mapData "scale" C.map.default.scale)
    (match get mapData "unit" with VString unit => unit | _ => C.map.default.unit end)
    (map (fun marker => buildMarkerElement resolveRelative marker currentSlug (minZoom mapData))
       ms)
    (clamp (the_number (nullish (get mapData "defaultZoom") (VNumber (minZoom mapData))))
       (minZoom mapData) (maxZoom mapData))
    (maxZoom mapData) (minZoom mapData).
  intros. vm_compute. repeat split.
Qed.

Lemma container_attributes_witness :
  SchemaValidator.map (candidate Sample.view_feet) = Ok true
  /\ prop (mapContainer Sample.resolveRelative Sample.transformLink
             Sample.ctx "index" (candidate Sample.view_feet) [])
          "data-unit" = VString "ft".
Proof.
  assert (H : SchemaValidator.map (candidate Sample.view_feet) = Ok true)
    by (vm_compute; reflexivity).
  split; [exact H|].
  destruct (container_attributes Sample.resolveRelative Sample.transformLink
              Sample.ctx "index" _ [] H) as (_ & _ & _ & _ & _ & _ & Hu).
  rewrite Hu. vm_compute. reflexivity.
Defined.

(** X17.  The client accepts the data set of a map container exactly when
    the link to the image is not empty and the declaration has a unit that
    is not empty: the other six attributes always pass, being numbers,
    which never print as the empty string. *)
Theorem container_accepted_iff
  (resolveRelative : string -> string -> string)
  (transformLink : string -> string -> list string -> string)
  (ctx : BuildCtx) (currentSlug : string) (mapData : value) (ms : list value)
  (Hvalid : SchemaValidator.map mapData = Ok true) :
  Client.isMapDataSet
    (dataset (mapContainer resolveRelative transformLink ctx currentSlug mapData ms))
  = true
  <-> transformLink currentSlug (toString (get mapData "image")) (allSlugs ctx) <> ""
      /\ exists unit, get mapData "unit" = VString unit /\ unit <> "".
Proof.
  rewrite (container_accepted _ _ _ _ _ ms Hvalid).
  rewrite andb_true_iff, !negb_true_iff, !String.eqb_neq.
  apply map_schema_spec in Hvalid as (_ & _ & _ & _ & _ & _ & _ & _ & _ & Hu).
  unfold rendered_unit.
  destruct Hu as [->|(u & ->)]; simpl.
  - split; [intros [_ H]; now destruct H|intros [_ (u & [=] & _)]].
  - split; [intros [H1 H2]; eauto|intros [H1 (u' & [= <-] & H2)]; auto].
Qed.

Lemma container_accepted_iff_witness :
  SchemaValidator.map (candidate Sample.view_feet) = Ok true
  /\ Client.isMapDataSet
       (dataset (mapContainer Sample.resolveRelative Sample.transformLink
                   Sample.ctx "index" (candidate Sample.view_feet) []))
     = true.
Proof.
  assert (H : SchemaValidator.map (candidate Sample.view_feet) = Ok true)
    by (vm_compute; reflexivity).
  split; [exact H|].
  apply (container_accepted_iff Sample.resolveRelative Sample.transformLink
           Sample.ctx "index" _ [] H).
  split; [vm_compute; discriminate|].
  exists "ft". split; [vm_compute; reflexivity|discriminate].
Defined.

(** X18.  The client accepts the data set of the element rendered for a
    marker of a titled document exactly when the link to the document is
    not empty and the icon of the entry is not just the prefix [lucide-],
    which the build strips: such a marker passes the validation of the
    build and is dropped by the client. *)
Theorem marker_element_accepted_iff
  (resolveRelative : string -> string -> string)
  (entry : value) (title link currentSlug : string) (mapMinZoom : number) (marker : value)
  (Hparse : parseMarkerFromEntry entry (VString title) link = Ok (Some marker))
  (Htitle : title <> "") :
  Client.isMarkerDataSet
    (dataset (buildMarkerElement resolveRelative marker currentSlug mapMinZoom)) = true
  <-> resolveRelative currentSlug link <> "" /\ get entry "icon" <> VString "lucide-".
Proof.
  apply parseMarkerFromEntry_Some in Hparse as (-> & _ & Hv).
  now apply marker_element_accepted.
Qed.

Lemma marker_element_accepted_iff_witness :
  Client.isMarkerDataSet
    (dataset (buildMarkerElement Sample.resolveRelative
                (marker_record Further.full_entry (VString "Inn") "inn") "index"
                (Number.ofZ 0))) = true.
Proof.
  assert (H : parseMarkerFromEntry Further.full_entry (VString "Inn") "inn"
              = Ok (Some (marker_record Further.full_entry (VString "Inn") "inn")))
    by (vm_compute; reflexivity).
  apply (marker_element_accepted_iff Sample.resolveRelative _ _ _ "index" (Number.ofZ 0) _ H).
  - discriminate.
  - split; [discriminate|]. vm_compute. discriminate.
Defined.

(** X19.  [getMarkerData] on a map container looks at every child the build
    rendered, one for each marker of the map and in their order, and keeps
    the data sets that are complete. *)
Theorem getMarkerData_of_container
  (resolveRelative : string -> string -> string)
  (transformLink : string -> string -> list string -> string)
  (ctx : BuildCtx) (currentSlug : string) (mapData : value) (ms : list value) :
  Client.getMarkerData
    (mapContainer resolveRelative transformLink ctx currentSlug mapData ms)
  = List.filter Client.isMarkerDataSet
      (map (fun marker =>
              dataset (buildMarkerElement resolveRelative marker currentSlug
                         (minZoom mapData)))
         ms).
Proof.
  unfold Client.getMarkerData.
  change (children (mapContainer resolveRelative transformLink ctx
                      currentSlug mapData ms))
    with (Some (map (fun marker =>
                       buildMarkerElement resolveRelative marker currentSlug
                         (minZoom mapData))
                  ms)).
  cbn [default id].
  rewrite (filter_all (fun o => bool_decide (tagName o = Some "div")
                                && has_class "leaflet-marker" o)).
  - now rewrite map_map.
  - apply Forall_forall. intros o Ho. apply list_elem_of_fmap in Ho as (marker & -> & _).
    apply marker_element_selected.
Qed.

(** ** The client *)

(** X20.  [parseCoordinates] throws, with the message
    [Coordinates not properly validated], exactly on the strings that do
    not hold one comma; on the others it returns two numbers. *)
Theorem parseCoordinates_throws_iff (e : string) :
  (Client.parseCoordinates e = Throw (ErrorOf "Coordinates not properly validated")
   <-> commas e <> 1%nat)
  /\ (commas e = 1%nat <->
      exists a b, Client.parseCoordinates e = Ok [a; b]).
Proof.
  rewrite parseCoordinates_spec.
  pose proof (parseCoordinates_length e) as Hlen.
  destruct (Nat.eqb_spec (commas e) 1) as [H|H].
  - split; [split; [discriminate|congruence]|].
    split; [intros _|auto].
    rewrite H in Hlen.
    destruct (map _ _) as [|a [|b [|c l]]]; try discriminate. eauto.
  - split; [split; auto|].
    split; [congruence|intros (a & b & [=])].
Qed.

(** X21.  [parseCoordinates] on two runs of digits around a comma, with
    white space on either side of the comma, returns the two integers the
    digits write; the white space is that of JavaScript, of which the
    ASCII spaces are a part. *)
Theorem parseCoordinates_pair_of_integers (e : string) (d1 w1 w2 d2 : list ascii)
  (Hshape : chars e = d1 ++ w1 ++ ","%char :: w2 ++ d2)
  (Hfirst : d1 <> [] /\ all_in is_digit d1)
  (Hspace : (white w1 \/ all_in is_space w1) /\ (white w2 \/ all_in is_space w2))
  (Hsecond : d2 <> [] /\ all_in is_digit d2) :
  Client.parseCoordinates e
  = Ok [Number.ofZ (Z.of_N (decimal_of d1)); Number.ofZ (Z.of_N (decimal_of d2))].
Proof.
  destruct Hfirst, Hspace as [H1 H2], Hsecond.
  apply (parseCoordinates_pair e d1 w1 w2 d2); try assumption.
  - destruct H1 as [H1|H1]; [exact H1|now apply white_spaces].
  - destruct H2 as [H2|H2]; [exact H2|now apply white_spaces].
Qed.

Lemma parseCoordinates_pair_of_integers_witness :
  Client.parseCoordinates "12, 34" = Ok [Number.ofZ 12; Number.ofZ 34].
Proof.
  apply (parseCoordinates_pair_of_integers "12, 34" (chars "12") [] (chars " ") (chars "34")).
  - reflexivity.
  - split; [discriminate|]. repeat constructor.
  - split; [left; apply white_nil|right; repeat constructor].
  - split; [discriminate|]. repeat constructor.
Defined.



(** X23.  The distance of the measure tool is the same in both directions,
    and never below zero. *)
Theorem distance_symmetric (a b : Client.LatLng) :
  Client.distance a b = Client.distance b a
  /\ Number.ltb (Client.distance a b) (Number.ofZ 0) = false.
Proof.
  unfold Client.distance. split.
  - now rewrite (square_swap (Client.lat a)), (square_swap (Client.lng a)).
  - apply sqrt_not_negative.
Qed.

(** X24.  Clicks on the map at the points of a path, on a tool that is
    [Ready] with its layers: the tool is [Measuring], its path and the line
    drawn are the points clicked, and its distance is the length of the
    path, the scaled lengths of the segments added up in order. *)
Theorem clicks_measure_the_path (ps : list Client.LatLng) (c : Client.MeasureControl)
  (Hok : measure_ok c) (Hready : Client.state c = Client.Ready) (Hpoints : ps <> []) :
  exists c', clickAll ps c = Ok c'
    /\ Client.state c' = Client.Measuring
    /\ Client.pathItems c' = ps
    /\ Client.pathLine c' = ps
    /\ Client.distance_ c' = path_length (Client.scale c) ps.
Proof.
  destruct Hok as (Hadded & Hr & _). destruct (Hr Hready) as (Hp & Hd & _).
  destruct (clickAll_path ps c Hadded Hready Hp Hd)
    as (c' & Hc & _ & _ & Hp' & Hd' & Hs' & Hl').
  exists c'. split; [exact Hc|]. split; [now destruct ps|]. auto.
Qed.

Lemma clicks_measure_the_path_witness :
  exists c',
    clickAll [Scenario.point 0 0; Scenario.point 3 4; Scenario.point 3 8] Scenario.tool
    = Ok c'
    /\ Client.distance_ c' = Number.ofZ 9.
Proof.
  assert (Hok : measure_ok Scenario.tool).
  { apply reachable_ok.
    apply (reachable_react (Select true) _ _
             (reachable_react (Settings _) _ _ (reachable_added _) eq_refl) eq_refl). }
  destruct (clicks_measure_the_path
              [Scenario.point 0 0; Scenario.point 3 4; Scenario.point 3 8]
              Scenario.tool Hok eq_refl) as (c' & Hc & _ & _ & _ & Hd); [discriminate|].
  exists c'. split; [exact Hc|]. rewrite Hd. vm_compute. reflexivity.
Defined.

(** X25.  A move of the mouse never changes the state, the path, the
    distance or the circle markers of the measure tool; outside [Measuring]
    it changes nothing at all, and in [Measuring] the preview line runs
    from the last vertex to the mouse and the preview tooltip, there, reads
    the distance so far plus that to the mouse. *)
Theorem mouse_moves_only_preview (l : Client.LatLng) (c : Client.MeasureControl) :
  let c' := Client.renderPreview l c in
  (Client.state c' = Client.state c /\ Client.pathItems c' = Client.pathItems c
   /\ Client.distance_ c' = Client.distance_ c /\ Client.points c' = Client.points c
   /\ Client.pathLine c' = Client.pathLine c)
  /\ (Client.state c <> Client.Measuring -> c' = c)
  /\ (forall i, Client.state c = Client.Measuring ->
        last (Client.pathItems c) = Some i ->
        Client.previewLine c' = [i; l] /\ Client.previewAt c' = l
        /\ Client.content (Client.previewTooltip c')
           = Client.getContent c
               (Number.add (Client.distance_ c)
                  (Number.mul (Client.distance i l) (Client.scale c)))).
Proof.
  intros c'. split; [|split].
  - destruct (renderPreview_fields l c) as (H1 & H2 & H3 & _ & H4 & _ & H5 & _). auto.
  - subst c'. unfold Client.renderPreview. intros H.
    destruct (Client.state c); congruence.
  - intros i Hs Hi. subst c'. unfold Client.renderPreview. rewrite Hs, Hi. auto.
Qed.

(** X26.  In every state the measure tool reaches, by clicks on the map
    and on circle markers, moves of the mouse, selections and settings: a
    click on a circle marker does nothing while the tool is [Ready]; in any
    other state the path has a last vertex, a click on its circle marker
    sets [Finishing], also when the measurement is already [Done], and a
    click on any other circle marker does nothing. *)
Theorem only_the_last_vertex_finishes (c : Client.MeasureControl) (j : nat)
  (Hreachable : reachable c) :
  (Client.state c = Client.Ready -> Client.vertexClicked j c = c)
  /\ (Client.state c <> Client.Ready ->
      exists i p,
        Client.lastElement c = Some i /\ Client.points c !! i = Some p
        /\ last (Client.pathItems c) = Some (Client.at_ p)
        /\ Client.vertexClicked i c = Client.set_state Client.Finishing c
        /\ Client.state (Client.vertexClicked i c) = Client.Finishing
        /\ (j <> i -> Client.vertexClicked j c = c)).
Proof.
  apply reachable_ok in Hreachable as (_ & Hready & Hother & Hlast). split.
  - intros Hst. destruct (Hready Hst) as (_ & _ & Hall).
    apply vertexClicked_other. intros p Hp Hl.
    rewrite Forall_lookup in Hall. destruct (Hall _ _ Hp). congruence.
  - intros Hst. destruct (Hother Hst) as (i & p & Hi & Hp & Hat & Hs & Hl).
    exists i, p. split; [exact Hi|]. split; [exact Hp|]. split; [exact Hat|].
    rewrite (vertexClicked_listening i c p Hp Hl Hs).
    split; [reflexivity|]. split; [reflexivity|].
    intros Hj. apply vertexClicked_other. intros q Hq Hlq.
    pose proof (Hlast j q Hq Hlq). congruence.
Qed.

Lemma only_the_last_vertex_finishes_witness :
  exists c1,
    Client.mapClicked (Scenario.point 0 0) Scenario.tool = Ok c1
    /\ Client.state c1 = Client.Measuring
    /\ Client.state (Client.vertexClicked 0 c1) = Client.Finishing
    /\ Client.vertexClicked 1 c1 = c1.
Proof.
  assert (Hr : reachable Scenario.tool).
  { apply (reachable_react (Select true) _ _
             (reachable_react (Settings _) _ _ (reachable_added _) eq_refl) eq_refl). }
  destruct (mapClicked_draws (Scenario.point 0 0) Scenario.tool eq_refl
              (or_introl eq_refl)) as (c1 & Hc & Hl & _).
  change (length (Client.points Scenario.tool)) with 0%nat in Hl.
  assert (Hr1 : reachable c1)
    by exact (reachable_react (MapClick (Scenario.point 0 0)) _ _ Hr Hc).
  assert (Hm : Client.state c1 = Client.Measuring).
  { pose proof Hc as Hc'. vm_compute in Hc'. injection Hc' as <-. reflexivity. }
  assert (Hs : Client.state c1 <> Client.Ready) by (rewrite Hm; discriminate).
  destruct (proj2 (only_the_last_vertex_finishes c1 1 Hr1) Hs)
    as (i & p & Hi & _ & _ & _ & Hf & Ho).
  assert (i = 0%nat) by congruence. subst i.
  exists c1. split; [exact Hc|]. split; [exact Hm|]. split; [exact Hf|]. now apply Ho.
Defined.

(** ** The control bar *)

(** X27.  In every state the control bar reaches from [onAdd], it holds the
    pan tool and the measure tool; exactly one of them is selected, the one
    at [activeIndex], which is the pan tool at first; the measure tool is
    [Ready] while it is not selected; and no event throws: the layers of
    the measure tool exist before the first click reaches it. *)
Theorem bar_keeps_one_tool_selected (k : Client.ControlContainer)
  (Hreachable : bar_reachable k) :
  (exists options c,
     Client.controls k
     = [Client.Pan 0 (Nat.eqb (Client.activeIndex k) 0) options; Client.Measure 1 c]
     /\ (Client.activeIndex k = 0%nat \/ Client.activeIndex k = 1%nat)
     /\ Client.isSelected c = Nat.eqb (Client.activeIndex k) 1
     /\ (Client.isSelected c = false -> Client.state c = Client.Ready))
  /\ Client.activeIndex
       (Client.ControlContainer.onAdd Client.ControlContainer.create) = 0%nat
  /\ forall e, exists k', handle e k = Ok k'.
Proof.
  apply bar_reachable_ok in Hreachable.
  pose proof Hreachable as (sel & o & c & Hc & Ha & Hsel & Hm & _ & Hready & Hok).
  split; [|split; [reflexivity|]].
  - exists o, c. subst sel. auto.
  - intros [i|l|j|l|t]; cbn [handle]; eauto.
    unfold Client.ControlContainer.click. rewrite Hc. cbn.
    assert (Hpan : (if sel then Ok (Client.Pan 0 sel o) else Ok (Client.Pan 0 sel o))
                   = Ok (Client.Pan 0 sel o)) by now destruct sel.
    rewrite Hpan. cbn.
    destruct (Client.isSelected c); cbn; [|eauto].
    destruct Hok as (Hadded & _).
    destruct (mapClicked_returns l c Hadded) as [c' ->]. cbn. eauto.
Qed.

Lemma bar_keeps_one_tool_selected_witness :
  exists k', handle (BarMapClick (Scenario.point 0 0))
               (Client.ControlContainer.onAdd Client.ControlContainer.create) = Ok k'.
Proof.
  exact (proj2 (proj2 (bar_keeps_one_tool_selected _ bar_added))
           (BarMapClick (Scenario.point 0 0))).
Defined.

(** X28.  While the pan tool is the active one, a click on the map changes
    nothing in the bar: the measure tool does not see it. *)
Theorem pan_ignores_clicks (k : Client.ControlContainer) (l : Client.LatLng)
  (Hreachable : bar_reachable k) (Hpan : Client.activeIndex k = 0%nat) :
  Client.ControlContainer.click l k = Ok k.
Proof.
  apply bar_reachable_ok in Hreachable
    as (sel & o & c & Hc & Ha & Hsel & Hm & _ & Hready & Hok).
  unfold Client.ControlContainer.click. rewrite Hc. cbn.
  rewrite Hpan in Hsel, Hm. cbn in Hsel, Hm. subst sel. rewrite Hm. cbn.
  destruct k as [cs a]. cbn in *. now subst.
Qed.

Lemma pan_ignores_clicks_witness :
  Client.ControlContainer.click (Scenario.point 0 0)
    (Client.ControlContainer.onAdd Client.ControlContainer.create)
  = Ok (Client.ControlContainer.onAdd Client.ControlContainer.create).
Proof. exact (pan_ignores_clicks _ (Scenario.point 0 0) bar_added eq_refl). Defined.

(** X29.  A click on the button of the measure tool while it is the active
    one deselects it and selects it again: the measurement under way is
    lost, and the tool is [Ready], selected, with the crosshair cursor. *)
Theorem measure_button_restarts (k : Client.ControlContainer)
  (Hreachable : bar_reachable k) (Hmeasure : Client.activeIndex k = 1%nat) :
  exists options c',
    Client.ControlContainer.buttonClicked 1 k
    = {| Client.controls := [Client.Pan 0 false options; Client.Measure 1 c'];
         Client.activeIndex := 1 |}
    /\ Client.isSelected c' = true
    /\ Client.state c' = Client.Ready
    /\ Client.pathItems c' = [] /\ Client.distance_ c' = Number.ofZ 0
    /\ Forall (fun p => Client.shown p = false) (Client.points c')
    /\ Client.cursor c' = "crosshair".
Proof.
  apply bar_reachable_ok in Hreachable
    as (sel & o & c & Hc & Ha & Hsel & Hm & Hmouse & Hready & Hok).
  rewrite Hmeasure in Hsel, Hm. cbn in Hsel, Hm. subst sel.
  unfold Client.ControlContainer.buttonClicked. rewrite Hc. cbn.
  unfold Client.ControlContainer.onSelectCallback. rewrite Hc, Hmeasure. cbn.
  exists o, (Client.setSelected true (Client.setSelected false c)).
  split; [reflexivity|]. now apply reselect_fields.
Qed.

Lemma measure_button_restarts_witness :
  exists options c',
    Client.ControlContainer.buttonClicked 1
      (Client.ControlContainer.buttonClicked 1
         (Client.ControlContainer.onAdd Client.ControlContainer.create))
    = {| Client.controls := [Client.Pan 0 false options; Client.Measure 1 c'];
         Client.activeIndex := 1 |}
    /\ Client.state c' = Client.Ready.
Proof.
  destruct (measure_button_restarts
              (Client.ControlContainer.buttonClicked 1
                 (Client.ControlContainer.onAdd Client.ControlContainer.create))
              (bar_handle (ButtonClick 1) _ _ bar_added eq_refl) eq_refl)
    as (o & c' & H & _ & Hs & _).
  exists o, c'. split; [exact H|exact Hs].
Defined.

(** X30.  The settings [initialiseMap] passes to the bar reach the measure
    tool: on a data set the client accepts, the tool measures with the
    scale of the data set and writes its distances with the unit of the
    data set. *)
Theorem measure_tool_reads_the_dataset (t : value)
  (Haccepted : Client.isMapDataSet t = true) :
  exists selected options c,
    Client.controls
      (Client.ControlContainer.updateSettings t
         (Client.ControlContainer.onAdd Client.ControlContainer.create))
    = [Client.Pan 0 selected options; Client.Measure 1 c]
    /\ Client.scale c = Number.parseFloat (toString (get t "scale"))
    /\ forall d, Client.getContent c d
                 = Number.toFixed d 1 +:+ " " +:+ the_string (get t "unit").
Proof.
  destruct (isMapDataSet_fields t Haccepted) as (_ & Hs & Hu).
  pose proof (get_own t "scale" ltac:(discriminate) Hs) as Hscale.
  pose proof (get_own t "unit" ltac:(discriminate) Hu) as Hunit.
  eexists _, _, _. split; [reflexivity|].
  assert (Hget : forall key v, own_props t !! key = Some v ->
            get (Client.options (Client.updateSettings t (Client.onAdded Client.create))) key
            = v).
  { intros key v Hk. unfold Client.updateSettings. cbn [Client.options Client.set_options].
    unfold get at 1. cbn [own_props].
    now rewrite (lookup_union_Some_l _ _ _ _ Hk). }
  split.
  - unfold Client.scale. now rewrite (Hget _ _ Hscale).
  - intros d. unfold Client.getContent. rewrite (Hget _ _ Hunit).
    destruct (get t "unit"); try discriminate; reflexivity.
Qed.

Lemma measure_tool_reads_the_dataset_witness :
  Client.isMapDataSet Further.feet_dataset = true
  /\ exists selected options c,
       Client.controls
         (Client.ControlContainer.updateSettings Further.feet_dataset
            (Client.ControlContainer.onAdd Client.ControlContainer.create))
       = [Client.Pan 0 selected options; Client.Measure 1 c]
       /\ Client.scale c = Number.ofZ 2.
Proof.
  assert (H : Client.isMapDataSet Further.feet_dataset = true) by (vm_compute; reflexivity).
  split; [exact H|].
  destruct (measure_tool_reads_the_dataset Further.feet_dataset H)
    as (sel & o & c & Hc & Hs & _).
  exists sel, o, c. split; [exact Hc|]. rewrite Hs. vm_compute. reflexivity.
Defined.
